(** * The query coordinator (be/src/runtime/coordinator.cc)

    A shallow embedding of the coordinator's planning helpers, per-backend
    execution state, dispatch, status aggregation, cancellation and
    finalization code, followed by the properties proved about them.

    Conventions of the embedding:
    - [int] and [int64_t] values are integers of [Z]; arithmetic that the
      source performs in a fixed width is written with [wrap32] / [wrap64]:
      a signed overflow, which C++ leaves undefined, wraps around as the
      two's complement arithmetic of the machine does.
    - a [DCHECK] is a check in a debug build and is compiled out in a
      release build ([NDEBUG]); the embedding takes the build as a
      parameter. In a debug build a violated [DCHECK] ends the call with
      [DcheckFailed].
    - dereferencing a null pointer or an end iterator, or accessing a
      vector element out of range, ends the call with [InvalidAccess]; so
      does a [resize] to a negative [int], whose [length_error] nothing
      catches.
    - a thread that waits on [backend_completion_cv_] in a state in which
      the wait condition still holds yields [Blocked]. *)

From Stdlib Require Import String.
From Stdlib Require Import ZArith List Bool Lia Permutation Arith.
Import ListNotations.
Local Open Scope Z_scope.

(* ================================================================== *)
(** * Part I: the embedding *)
(* ================================================================== *)

(** ** Outcomes of a call *)

Inductive outcome (A : Type) : Type :=
| Returned (a : A)
| DcheckFailed
| InvalidAccess
| Blocked.

Arguments Returned {A} a.
Arguments DcheckFailed {A}.
Arguments InvalidAccess {A}.
Arguments Blocked {A}.

Definition obind {A B} (o : outcome A) (k : A -> outcome B) : outcome B :=
  match o with
  | Returned a => k a
  | DcheckFailed => DcheckFailed
  | InvalidAccess => InvalidAccess
  | Blocked => Blocked
  end.

Notation "x <- c1 ;; c2" := (obind c1 (fun x => c2))
  (at level 61, c1 at next level, right associativity).
Notation "' pat <- c1 ;; c2" := (obind c1 (fun x => match x with pat => c2 end))
  (at level 61, pat pattern, c1 at next level, right associativity).

(** ** The build *)

(** Whether [NDEBUG] is defined. *)
Class Build : Type := { NDEBUG : bool }.

Definition debug_build : Build := {| NDEBUG := false |}.
Definition release_build : Build := {| NDEBUG := true |}.

Section Embedding.
Context {build : Build}.

(** [DCHECK(cond)], followed by [k] *)
Definition DCHECK {A} (cond : bool) (k : outcome A) : outcome A :=
  if NDEBUG || cond then k else DcheckFailed.

(** ** Fixed-width integers *)

Definition INT64_MAX : Z := 2 ^ 63 - 1.
Definition wrap64 (z : Z) : Z := (z + 2 ^ 63) mod 2 ^ 64 - 2 ^ 63.
Definition wrap32 (z : Z) : Z := (z + 2 ^ 31) mod 2 ^ 32 - 2 ^ 31.
Definition is_int64 (z : Z) : Prop := - 2 ^ 63 <= z <= INT64_MAX.

(** ** Thrift data used by the coordinator *)

Definition PlanNodeId := Z.

(** The node types the coordinator tests for; every other enumerator of
    the generated [TPlanNodeType] is an [OTHER_NODE]. *)
Inductive TPlanNodeType : Type :=
| HDFS_SCAN_NODE
| HBASE_SCAN_NODE
| EXCHANGE_NODE
| OTHER_NODE (tag : nat).

Definition TPlanNodeType_eq_dec (a b : TPlanNodeType) : {a = b} + {a <> b}.
Proof. decide equality. apply Nat.eq_dec. Defined.

Definition node_type_eqb (a b : TPlanNodeType) : bool :=
  if TPlanNodeType_eq_dec a b then true else false.

Record TPlanNode : Type := mkPlanNode {
  node_id : PlanNodeId;
  node_type : TPlanNodeType;
  num_children : Z
}.

Record TPlan : Type := mkPlan { nodes : list TPlanNode }.

Record TUniqueId : Type := mkUniqueId { hi : Z; lo : Z }.

Record THostPort : Type := mkHostPort {
  hostname : string;
  ipaddress : string;
  port : Z
}.

Definition THostPort_eq_dec (a b : THostPort) : {a = b} + {a <> b}.
Proof. decide equality; [apply Z.eq_dec | apply string_dec | apply string_dec]. Defined.

Definition hostport_eqb (a b : THostPort) : bool :=
  if THostPort_eq_dec a b then true else false.

(** ** 4.A Plan topology: [Coordinator::FindLeftmostNode] *)

Section PlanTopology.

(** [g_JavaConstants_constants.INVALID_PLAN_NODE_ID]; the constant is
    declared outside this file and is taken as a parameter. *)
Variable INVALID_PLAN_NODE_ID : PlanNodeId.

(** [while (node_idx < plan.nodes.size()
           && plan.nodes[node_idx].num_children != 0) ++node_idx;]
    The loop runs at most [plan.nodes.size()] times, which is the fuel
    [FindLeftmostNode] passes. *)
Fixpoint leftmost_loop (fuel : nat) (ns : list TPlanNode) (node_idx : nat) : nat :=
  match fuel with
  | O => node_idx
  | S fuel' =>
      match nth_error ns node_idx with
      | Some n =>
          if negb (num_children n =? 0)
          then leftmost_loop fuel' ns (S node_idx)
          else node_idx
      | None => node_idx
      end
  end.

(** [for (i = 0; i < types.size(); ++i)
       if (node.node_type == types[i]) return node.node_id;
     return INVALID_PLAN_NODE_ID;] *)
Fixpoint match_types (node : TPlanNode) (types : list TPlanNodeType) : PlanNodeId :=
  match types with
  | [] => INVALID_PLAN_NODE_ID
  | t :: types' =>
      if node_type_eqb (node_type node) t then node_id node
      else match_types node types'
  end.

Definition FindLeftmostNode (plan : TPlan) (types : list TPlanNodeType) : PlanNodeId :=
  let node_idx := leftmost_loop (length (nodes plan)) (nodes plan) 0 in
  if Nat.eqb node_idx (length (nodes plan)) then INVALID_PLAN_NODE_ID
  else
    match nth_error (nodes plan) node_idx with
    | Some node => match_types node types
    | None => INVALID_PLAN_NODE_ID (* not reached: node_idx < size here *)
    end.

End PlanTopology.

(** ** 4.B/4.D Fragment exec params: instance ids *)

Record FragmentExecParams : Type := mkFragmentExecParams {
  hosts : list THostPort;
  instance_ids : list TUniqueId;
  data_server_map : list (THostPort * THostPort)
}.

(** The inner loop of [ComputeFragmentExecParams]:
    [for (int j = 0; j < params.hosts.size(); ++j)], with [remaining] the
    hosts not yet visited. Returns the ids pushed back, in order. *)
Fixpoint assign_ids_loop (query_id_ : TUniqueId) (num_backends_ : Z) (j : Z)
    (remaining : list THostPort) : outcome (list TUniqueId) :=
  match remaining with
  | [] => Returned []
  | _ :: remaining' =>
      let instance_num := wrap32 (num_backends_ + j) in
      DCHECK (lo query_id_ <? wrap64 (wrap64 (INT64_MAX - instance_num) - 1))
        (let instance_id :=
           {| hi := hi query_id_;
              lo := wrap64 (wrap64 (lo query_id_ + instance_num) + 1) |} in
         ids <- assign_ids_loop query_id_ num_backends_ (wrap32 (j + 1)) remaining' ;;
         Returned (instance_id :: ids))
  end.

(** The outer loop, [BOOST_FOREACH(FragmentExecParams& params,
    fragment_exec_params_)]; returns the updated params and [num_backends_]. *)
Fixpoint assign_instance_ids (query_id_ : TUniqueId) (num_backends_ : Z)
    (fragment_exec_params_ : list FragmentExecParams)
  : outcome (list FragmentExecParams * Z) :=
  match fragment_exec_params_ with
  | [] => Returned ([], num_backends_)
  | params :: rest =>
      ids <- assign_ids_loop query_id_ num_backends_ 0 (hosts params) ;;
      let params' :=
        {| hosts := hosts params;
           instance_ids := instance_ids params ++ ids;
           data_server_map := data_server_map params |} in
      let num_backends' := wrap32 (num_backends_ + Z.of_nat (length (hosts params))) in
      ' (rest', n) <- assign_instance_ids query_id_ num_backends' rest ;;
      Returned (params' :: rest', n)
  end.

(** The number of fragment instances of a query and the id its [k]-th
    instance is meant to get. *)
Definition total_instances (fragment_exec_params_ : list FragmentExecParams) : nat :=
  length (concat (map hosts fragment_exec_params_)).

Definition nth_instance_id (query_id_ : TUniqueId) (k : nat) : TUniqueId :=
  {| hi := hi query_id_; lo := lo query_id_ + Z.of_nat k + 1 |}.

(** ** 4.C Scan-range assignment *)

Record THdfsFileSplit : Type := mkHdfsFileSplit {
  path : string;
  offset : Z;
  split_length : Z   (* the split's [length] *)
}.

Record TScanRange : Type := mkScanRange {
  hdfs_file_split : option THdfsFileSplit;   (* [__isset.hdfs_file_split] *)
  hbase_key_range : option (string * string)
}.

Record TScanRangeLocation : Type := mkScanRangeLocation {
  server : THostPort;
  volume_id : Z
}.

Record TScanRangeLocations : Type := mkScanRangeLocations {
  scan_range : TScanRange;
  locations : list TScanRangeLocation
}.

Record TScanRangeParams : Type := mkScanRangeParams {
  params_scan_range : TScanRange;
  params_volume_id : option Z
}.

(** [std::map] / [unordered_map] values are association lists; every
    lookup goes through [map_find], which takes the first binding. *)
Section AssocMap.
Context {K V : Type} (eqb : K -> K -> bool).

Fixpoint map_find (m : list (K * V)) (k : K) : option V :=
  match m with
  | [] => None
  | (k', v) :: m' => if eqb k k' then Some v else map_find m' k
  end.

(** [FindOrInsert(&m, k, default)] followed by the update [f] made through
    the pointer it returns; with [f] the identity it is [FindOrInsert]
    alone. [m[k] += x] is the same with the value-initialised default. *)
Fixpoint modify_or_insert (m : list (K * V)) (k : K) (default : V) (f : V -> V)
  : list (K * V) :=
  match m with
  | [] => [(k, f default)]
  | (k', v) :: m' =>
      if eqb k k' then (k', f v) :: m'
      else (k', v) :: modify_or_insert m' k default f
  end.

Definition FindOrInsert (m : list (K * V)) (k : K) (default : V) : list (K * V) * V :=
  let m' := modify_or_insert m k default (fun v => v) in
  (m', match map_find m' k with Some v => v | None => default end).

End AssocMap.

Definition AssignedBytes := list (THostPort * Z).
Definition PerNodeScanRanges := list (PlanNodeId * list TScanRangeParams).
Definition FragmentScanRangeAssignment := list (THostPort * PerNodeScanRanges).

Definition GetScanRangeLength (r : TScanRange) : Z :=
  match hdfs_file_split r with
  | Some split => split_length split
  | None => 0
  end.

(** The inner [BOOST_FOREACH] over [scan_range_locations.locations]; the
    accumulator is [(min_assigned_bytes, data_host, volume_id)]. *)
Fixpoint choose_loop (assigned_bytes_per_host : AssignedBytes)
    (acc : Z * option THostPort * Z) (locs : list TScanRangeLocation)
  : AssignedBytes * (Z * option THostPort * Z) :=
  match locs with
  | [] => (assigned_bytes_per_host, acc)
  | location :: locs' =>
      let '(min_assigned_bytes, _, _) := acc in
      let '(abph, assigned_bytes) :=
        FindOrInsert hostport_eqb assigned_bytes_per_host (server location) 0 in
      if assigned_bytes <? min_assigned_bytes
      then choose_loop abph (assigned_bytes, Some (server location), volume_id location) locs'
      else choose_loop abph acc locs'
  end.

(** The body of the outer [BOOST_FOREACH] for one [scan_range_locations]. *)
Definition assign_scan_range (node_id : PlanNodeId) (params : FragmentExecParams)
    (st : AssignedBytes * FragmentScanRangeAssignment)
    (scan_range_locations : TScanRangeLocations)
  : outcome (AssignedBytes * FragmentScanRangeAssignment) :=
  let '(assigned_bytes_per_host, assignment) := st in
  let '(abph, (_, data_host, volume_id)) :=
    choose_loop assigned_bytes_per_host (INT64_MAX, None, -1)
                (locations scan_range_locations) in
  match data_host with
  | None => InvalidAccess   (* [assigned_bytes_per_host[*data_host]] *)
  | Some data_host =>
      let abph' :=
        modify_or_insert hostport_eqb abph data_host 0
          (fun b => wrap64 (b + GetScanRangeLength (scan_range scan_range_locations))) in
      DCHECK (0 <? length (hosts params))%nat
        (exec_hostport <-
           (if (length (hosts params) =? 1)%nat
            then match hosts params with
                 | h :: _ => Returned h
                 | [] => InvalidAccess
                 end
            else match map_find hostport_eqb (data_server_map params) data_host with
                 | Some h => Returned h
                 | None => DCHECK false InvalidAccess   (* [it->second] at [end()] *)
                 end) ;;
         let scan_range_params :=
           {| params_scan_range := scan_range scan_range_locations;
              params_volume_id := Some volume_id |} in
         Returned
           (abph',
            modify_or_insert hostport_eqb assignment exec_hostport []
              (fun scan_ranges =>
                 modify_or_insert Z.eqb scan_ranges node_id []
                   (fun l => l ++ [scan_range_params]))))
  end.

(** The outer [BOOST_FOREACH] over [locations]. *)
Fixpoint scan_range_loop (node_id : PlanNodeId) (params : FragmentExecParams)
    (st : AssignedBytes * FragmentScanRangeAssignment)
    (locs : list TScanRangeLocations)
  : outcome (AssignedBytes * FragmentScanRangeAssignment) :=
  match locs with
  | [] => Returned st
  | scan_range_locations :: locs' =>
      st' <- assign_scan_range node_id params st scan_range_locations ;;
      scan_range_loop node_id params st' locs'
  end.

(** [Coordinator::ComputeScanRangeAssignment(node_id, locations, params,
    assignment)]: [assigned_bytes_per_host] starts empty and is local. *)
Definition ComputeScanRangeAssignment (node_id : PlanNodeId)
    (locs : list TScanRangeLocations) (params : FragmentExecParams)
    (assignment : FragmentScanRangeAssignment)
  : outcome FragmentScanRangeAssignment :=
  ' (_, assignment') <- scan_range_loop node_id params ([], assignment) locs ;;
  Returned assignment'.

(** *** The assignment in the words of its description *)

(** Bytes assigned to a data host so far: its entry, 0 when it has none. *)
Definition bytes_of (abph : AssignedBytes) (h : THostPort) : Z :=
  match map_find hostport_eqb abph h with Some b => b | None => 0 end.

Definition add_bytes (bytes : THostPort -> Z) (h : THostPort) (n : Z) : THostPort -> Z :=
  fun h' => if hostport_eqb h' h then bytes h' + n else bytes h'.

(** [l] is the location of [locs] whose host has the fewest assigned
    bytes, the first such in the order of [locs]. *)
Definition first_min_location (bytes : THostPort -> Z)
    (locs : list TScanRangeLocation) (l : TScanRangeLocation) : Prop :=
  exists pre post,
    locs = pre ++ l :: post /\
    (forall x, In x pre -> bytes (server l) < bytes (server x)) /\
    (forall x, In x post -> bytes (server l) <= bytes (server x)).

(** The execution host of a data host: the sole host of the fragment when
    it has exactly one, the [data_server_map] entry otherwise. *)
Definition exec_host_for (params : FragmentExecParams) (data_host : THostPort)
  : option THostPort :=
  match hosts params with
  | [h] => Some h
  | _ => map_find hostport_eqb (data_server_map params) data_host
  end.

(** The length of a range in the words of the description: the length of
    its file split, and 0 for a range that is not a file split. *)
Definition range_length (r : TScanRangeLocations) : Z :=
  match hdfs_file_split (scan_range r) with
  | Some file_split => split_length file_split
  | None => 0
  end.

(** [assigns params bytes ranges out bytes']: going through [ranges] in
    order from the per-host totals [bytes], [out] lists for every range the
    execution host it goes to and the params emitted for it, and [bytes']
    are the totals at the end. *)
Inductive assigns (params : FragmentExecParams)
  : (THostPort -> Z) -> list TScanRangeLocations ->
    list (THostPort * TScanRangeParams) -> (THostPort -> Z) -> Prop :=
| assigns_nil bytes : assigns params bytes [] [] bytes
| assigns_cons bytes r ranges l e out bytes' :
    first_min_location bytes (locations r) l ->
    exec_host_for params (server l) = Some e ->
    assigns params (add_bytes bytes (server l) (range_length r))
            ranges out bytes' ->
    assigns params bytes (r :: ranges)
            ((e, {| params_scan_range := scan_range r;
                    params_volume_id := Some (volume_id l) |}) :: out)
            bytes'.

(** The ranges an assignment holds for [node_id] at one execution host,
    and at all of them. *)
Definition ranges_under (scan_ranges : PerNodeScanRanges) (node_id : PlanNodeId)
  : list TScanRangeParams :=
  match map_find Z.eqb scan_ranges node_id with Some l => l | None => [] end.

Definition assigned_ranges (assignment : FragmentScanRangeAssignment)
    (exec_host : THostPort) (node_id : PlanNodeId) : list TScanRangeParams :=
  match map_find hostport_eqb assignment exec_host with
  | Some scan_ranges => ranges_under scan_ranges node_id
  | None => []
  end.

Definition all_assigned_ranges (assignment : FragmentScanRangeAssignment)
    (node_id : PlanNodeId) : list TScanRangeParams :=
  flat_map (fun entry => ranges_under (snd entry) node_id) assignment.

Definition total_length (ranges : list TScanRangeLocations) : Z :=
  fold_right (fun r acc => GetScanRangeLength (scan_range r) + acc) 0 ranges.


(** What the assignment code takes for granted about its input: the
    fragment has a host; unless it has exactly one, every replica's data
    host is in [data_server_map]; every range has a replica; lengths are
    not negative and their sum is below the largest [int64_t]. *)
Record assignable (params : FragmentExecParams) (ranges : list TScanRangeLocations)
  : Prop := mkAssignable {
  has_host : hosts params <> [];
  hosts_mapped :
    length (hosts params) = 1%nat \/
    forall r l, In r ranges -> In l (locations r) ->
                map_find hostport_eqb (data_server_map params) (server l) <> None;
  has_replica : forall r, In r ranges -> locations r <> [];
  lengths_nonneg : forall r, In r ranges -> 0 <= GetScanRangeLength (scan_range r);
  lengths_fit : total_length ranges < INT64_MAX
}.

(** The state of the replica search after the locations [seen]: nothing
    chosen yet, or the first location of [seen] with the fewest bytes. *)
Definition search_state (bytes : THostPort -> Z) (seen : list TScanRangeLocation)
    (acc : Z * option THostPort * Z) : Prop :=
  let '(min_assigned_bytes, data_host, vol) := acc in
  (seen = [] /\ min_assigned_bytes = INT64_MAX /\ data_host = None) \/
  (exists l, first_min_location bytes seen l /\
             min_assigned_bytes = bytes (server l) /\
             data_host = Some (server l) /\ vol = volume_id l).

(** ** Status *)

(** The codes of the generated [TStatusCode]. *)
Inductive TStatusCode : Type :=
| OK
| CANCELLED
| ANALYSIS_ERROR
| NOT_IMPLEMENTED_ERROR
| RUNTIME_ERROR
| INTERNAL_ERROR.

(** Modelled from the spec: [Status] (common/status.h, not part of this
    file) is a code with its error messages; a status is either OK,
    CANCELLED or an error. [TStatus] has the same two fields, so
    [Status(params.status)] is the identity here. *)
Record Status : Type := mkStatus {
  status_code : TStatusCode;
  error_msgs : list string
}.

Definition Status_OK : Status := {| status_code := OK; error_msgs := [] |}.
Definition Status_CANCELLED : Status :=
  {| status_code := CANCELLED; error_msgs := ["Cancelled"%string] |}.

(** [Status(const std::string& error_msg)] *)
Definition Status_msg (msg : string) : Status :=
  {| status_code := INTERNAL_ERROR; error_msgs := [msg] |}.

Definition ok (s : Status) : bool :=
  match status_code s with OK => true | _ => false end.

Definition AddErrorMsg (s : Status) (msg : string) : Status :=
  if ok s then Status_msg msg
  else {| status_code := status_code s; error_msgs := error_msgs s ++ [msg] |}.

Definition GetErrorMsg (s : Status) : string := String.concat "\n" (error_msgs s).

Definition AddError (s other : Status) : Status :=
  if ok other then s
  else if ok s then {| status_code := status_code other; error_msgs := [GetErrorMsg other] |}
  else {| status_code := status_code s; error_msgs := error_msgs s ++ [GetErrorMsg other] |}.

(** ** String-keyed [std::map]s, kept in key order *)

Fixpoint smap_update {V : Type} (m : list (string * V)) (k : string) (default : V)
    (f : V -> V) : list (string * V) :=
  match m with
  | [] => [(k, f default)]
  | (k', v) :: m' =>
      match String.compare k k' with
      | Eq => (k', f v) :: m'
      | Lt => (k, f default) :: (k', v) :: m'
      | Gt => (k', v) :: smap_update m' k default f
      end
  end.

(** [m.insert(first, last)]: a key already present keeps its value. *)
Definition smap_insert_range {V : Type} (m new : list (string * V)) : list (string * V) :=
  fold_left (fun acc kv => smap_update acc (fst kv) (snd kv) (fun v => v)) new m.

(** [std::set<string>::insert] *)
Fixpoint sset_insert (s : list string) (k : string) : list string :=
  match s with
  | [] => [k]
  | k' :: s' =>
      match String.compare k k' with
      | Eq => s
      | Lt => k :: s
      | Gt => k' :: sset_insert s' k
      end
  end.

Definition PartitionRowCount := list (string * Z).
Definition FileMoveMap := list (string * string).

(** ** 4.E Backend exec state *)

(** The mutable part of [Coordinator::BackendExecState] and what identifies
    the instance. The rpc payload, the stopwatch and the profile tree are
    left out; of the profile the state keeps the scan-ranges-complete
    counters bound into [aggregate_counters], with their current values. *)
Record BackendExecState : Type := mkBackendExecState {
  fragment_instance_id : TUniqueId;
  hostport : THostPort;
  fragment_idx : nat;
  status : Status;
  initiated : bool;
  done : bool;
  profile_created : bool;
  error_log : list string;
  total_ranges_complete : Z;
  scan_ranges_complete_counters : list (PlanNodeId * Z)
}.

Definition set_status (es : BackendExecState) (s : Status) : BackendExecState :=
  {| fragment_instance_id := fragment_instance_id es; hostport := hostport es;
     fragment_idx := fragment_idx es; status := s; initiated := initiated es;
     done := done es; profile_created := profile_created es;
     error_log := error_log es; total_ranges_complete := total_ranges_complete es;
     scan_ranges_complete_counters := scan_ranges_complete_counters es |}.

Definition set_initiated (es : BackendExecState) (b : bool) : BackendExecState :=
  {| fragment_instance_id := fragment_instance_id es; hostport := hostport es;
     fragment_idx := fragment_idx es; status := status es; initiated := b;
     done := done es; profile_created := profile_created es;
     error_log := error_log es; total_ranges_complete := total_ranges_complete es;
     scan_ranges_complete_counters := scan_ranges_complete_counters es |}.

(** The constructor: [initiated(false), done(false), profile_created(false),
    total_ranges_complete(0)] and a default ([OK]) status. *)
Definition new_BackendExecState (fragment_idx : nat) (params : FragmentExecParams)
    (instance_idx : nat) : outcome BackendExecState :=
  match nth_error (instance_ids params) instance_idx,
        nth_error (hosts params) instance_idx with
  | Some id, Some host =>
      Returned {| fragment_instance_id := id; hostport := host;
                  fragment_idx := fragment_idx; status := Status_OK;
                  initiated := false; done := false; profile_created := false;
                  error_log := []; total_ranges_complete := 0;
                  scan_ranges_complete_counters := [] |}
  | _, _ => InvalidAccess   (* [params.instance_ids[instance_idx]] out of range *)
  end.

(** [BackendExecState::UpdateNumScanRangesCompleted]: the new state and the
    delta. *)
Definition UpdateNumScanRangesCompleted (es : BackendExecState)
  : outcome (BackendExecState * Z) :=
  let total :=
    fold_left (fun t entry => wrap64 (t + snd entry))
              (scan_ranges_complete_counters es) 0 in
  let delta := wrap64 (total - total_ranges_complete es) in
  let es' :=
    {| fragment_instance_id := fragment_instance_id es; hostport := hostport es;
       fragment_idx := fragment_idx es; status := status es;
       initiated := initiated es; done := done es;
       profile_created := profile_created es; error_log := error_log es;
       total_ranges_complete := total;
       scan_ranges_complete_counters := scan_ranges_complete_counters es |} in
  DCHECK (0 <=? delta) (Returned (es', delta)).

(** ** The environment of a coordinator *)

(** What happens on the wire. A call on a backend client either comes back
    with the backend's [TStatus] or throws a [TTransportException]. The
    outcomes are given per backend number, for the first call and for the
    call after [ReopenClient]. *)
Inductive RpcOutcome : Type :=
| Reply (st : Status)
| TransportException (what : string).

Record BackendEnv : Type := mkBackendEnv {
  exec_GetClient : nat -> Status;
  exec_first : nat -> RpcOutcome;
  exec_ReopenClient : nat -> Status;
  exec_retry : nat -> RpcOutcome;
  cancel_GetClient : nat -> Status;
  cancel_first : nat -> RpcOutcome;
  cancel_ReopenClient : nat -> Status;
  cancel_retry : nat -> RpcOutcome
}.

(** The local [PlanFragmentExecutor], by what its calls answer:
    [Prepare], [Open], the successive [GetNext]s (a status and the number
    of rows of the batch, [None] for a NULL batch) and the sink results its
    runtime state holds after [Open]. *)
Record PlanFragmentExecutor : Type := mkExecutor {
  prepare_result : Status;
  open_result : Status;
  getnext_results : list (Status * option Z);
  hdfs_files_to_move : FileMoveMap;
  num_appended_rows : PartitionRowCount
}.

(** [executor_->GetNext(batch)] *)
Definition executor_GetNext (ex : PlanFragmentExecutor)
  : Status * option Z * PlanFragmentExecutor :=
  match getnext_results ex with
  | [] => (Status_OK, None, ex)
  | (st, batch) :: rest =>
      (st, batch,
       {| prepare_result := prepare_result ex; open_result := open_result ex;
          getnext_results := rest; hdfs_files_to_move := hdfs_files_to_move ex;
          num_appended_rows := num_appended_rows ex |})
  end.

(** HDFS, through the libhdfs calls the finalizer makes. *)
Inductive tObjectKind : Type := kObjectKindFile | kObjectKindDirectory.

Record hdfsFileInfo : Type := mkFileInfo { mKind : tObjectKind; mName : string }.

Class Hdfs (FS : Type) : Type := {
  (** [None] for a NULL result *)
  hdfsListDirectory : FS -> string -> option (list hdfsFileInfo);
  (** recursive delete; [false] for the result -1 *)
  hdfsDelete : FS -> string -> bool * FS;
  (** [true] when the result is not -1 *)
  hdfsExists : FS -> string -> bool;
  hdfsCreateDirectory : FS -> string -> FS;
  (** [false] for the result -1 *)
  hdfsRename : FS -> string -> string -> bool * FS
}.

Inductive FsOp : Type :=
| OpListDirectory (dir : string) (listed : bool)
| OpDelete (p : string) (deleted : bool)
| OpExists (p : string) (found : bool)
| OpCreateDirectory (p : string)
| OpRename (src dst : string) (renamed : bool).

(** What a call makes visible outside the coordinator. *)
Inductive Event : Type :=
| EvExecPlanFragment (backend : nat)     (* [backend_client->ExecPlanFragment] *)
| EvCancelPlanFragment (backend : nat)   (* [backend_client->CancelPlanFragment] *)
| EvExecutorCancel                       (* [executor_->Cancel()] *)
| EvNotifyAll                            (* [backend_completion_cv_.notify_all()] *)
| EvFs (op : FsOp).

(** ** The coordinator *)

Record TFinalizeParams : Type := mkFinalizeParams {
  is_overwrite : bool;
  hdfs_base_dir : string
}.

Record Coordinator : Type := mkCoordinator {
  has_called_wait_ : bool;
  executor_ : option PlanFragmentExecutor;   (* [None] for a NULL executor *)
  needs_finalization_ : bool;
  finalize_params_ : TFinalizeParams;
  query_id_ : TUniqueId;
  query_status_ : Status;
  fragment_exec_params_ : list FragmentExecParams;
  num_backends_ : Z;
  num_remaining_backends_ : Z;
  backend_exec_states_ : list (option BackendExecState);   (* [None] for NULL *)
  partition_row_counts_ : PartitionRowCount;
  files_to_move_ : FileMoveMap;
  progress_ : Z;           (* scan ranges reported to [progress_] *)
  num_rows_ : Z            (* [exec_stats_->num_rows_] *)
}.

Definition set_query_status_ (c : Coordinator) (s : Status) : Coordinator :=
  {| has_called_wait_ := has_called_wait_ c; executor_ := executor_ c;
     needs_finalization_ := needs_finalization_ c;
     finalize_params_ := finalize_params_ c; query_id_ := query_id_ c;
     query_status_ := s; fragment_exec_params_ := fragment_exec_params_ c;
     num_backends_ := num_backends_ c;
     num_remaining_backends_ := num_remaining_backends_ c;
     backend_exec_states_ := backend_exec_states_ c;
     partition_row_counts_ := partition_row_counts_ c;
     files_to_move_ := files_to_move_ c; progress_ := progress_ c;
     num_rows_ := num_rows_ c |}.

Definition set_backend_exec_states_ (c : Coordinator)
    (l : list (option BackendExecState)) : Coordinator :=
  {| has_called_wait_ := has_called_wait_ c; executor_ := executor_ c;
     needs_finalization_ := needs_finalization_ c;
     finalize_params_ := finalize_params_ c; query_id_ := query_id_ c;
     query_status_ := query_status_ c;
     fragment_exec_params_ := fragment_exec_params_ c;
     num_backends_ := num_backends_ c;
     num_remaining_backends_ := num_remaining_backends_ c;
     backend_exec_states_ := l;
     partition_row_counts_ := partition_row_counts_ c;
     files_to_move_ := files_to_move_ c; progress_ := progress_ c;
     num_rows_ := num_rows_ c |}.

Definition set_has_called_wait_ (c : Coordinator) (b : bool) : Coordinator :=
  {| has_called_wait_ := b; executor_ := executor_ c;
     needs_finalization_ := needs_finalization_ c;
     finalize_params_ := finalize_params_ c; query_id_ := query_id_ c;
     query_status_ := query_status_ c;
     fragment_exec_params_ := fragment_exec_params_ c;
     num_backends_ := num_backends_ c;
     num_remaining_backends_ := num_remaining_backends_ c;
     backend_exec_states_ := backend_exec_states_ c;
     partition_row_counts_ := partition_row_counts_ c;
     files_to_move_ := files_to_move_ c; progress_ := progress_ c;
     num_rows_ := num_rows_ c |}.

Definition set_executor_ (c : Coordinator) (e : option PlanFragmentExecutor)
  : Coordinator :=
  {| has_called_wait_ := has_called_wait_ c; executor_ := e;
     needs_finalization_ := needs_finalization_ c;
     finalize_params_ := finalize_params_ c; query_id_ := query_id_ c;
     query_status_ := query_status_ c;
     fragment_exec_params_ := fragment_exec_params_ c;
     num_backends_ := num_backends_ c;
     num_remaining_backends_ := num_remaining_backends_ c;
     backend_exec_states_ := backend_exec_states_ c;
     partition_row_counts_ := partition_row_counts_ c;
     files_to_move_ := files_to_move_ c; progress_ := progress_ c;
     num_rows_ := num_rows_ c |}.

Definition set_num_remaining_backends_ (c : Coordinator) (n : Z) : Coordinator :=
  {| has_called_wait_ := has_called_wait_ c; executor_ := executor_ c;
     needs_finalization_ := needs_finalization_ c;
     finalize_params_ := finalize_params_ c; query_id_ := query_id_ c;
     query_status_ := query_status_ c;
     fragment_exec_params_ := fragment_exec_params_ c;
     num_backends_ := num_backends_ c;
     num_remaining_backends_ := n;
     backend_exec_states_ := backend_exec_states_ c;
     partition_row_counts_ := partition_row_counts_ c;
     files_to_move_ := files_to_move_ c; progress_ := progress_ c;
     num_rows_ := num_rows_ c |}.

Definition set_insert_state (c : Coordinator) (rows : PartitionRowCount)
    (moves : FileMoveMap) : Coordinator :=
  {| has_called_wait_ := has_called_wait_ c; executor_ := executor_ c;
     needs_finalization_ := needs_finalization_ c;
     finalize_params_ := finalize_params_ c; query_id_ := query_id_ c;
     query_status_ := query_status_ c;
     fragment_exec_params_ := fragment_exec_params_ c;
     num_backends_ := num_backends_ c;
     num_remaining_backends_ := num_remaining_backends_ c;
     backend_exec_states_ := backend_exec_states_ c;
     partition_row_counts_ := rows;
     files_to_move_ := moves; progress_ := progress_ c;
     num_rows_ := num_rows_ c |}.

Definition set_progress_ (c : Coordinator) (n : Z) : Coordinator :=
  {| has_called_wait_ := has_called_wait_ c; executor_ := executor_ c;
     needs_finalization_ := needs_finalization_ c;
     finalize_params_ := finalize_params_ c; query_id_ := query_id_ c;
     query_status_ := query_status_ c;
     fragment_exec_params_ := fragment_exec_params_ c;
     num_backends_ := num_backends_ c;
     num_remaining_backends_ := num_remaining_backends_ c;
     backend_exec_states_ := backend_exec_states_ c;
     partition_row_counts_ := partition_row_counts_ c;
     files_to_move_ := files_to_move_ c; progress_ := n;
     num_rows_ := num_rows_ c |}.

Definition set_num_rows_ (c : Coordinator) (n : Z) : Coordinator :=
  {| has_called_wait_ := has_called_wait_ c; executor_ := executor_ c;
     needs_finalization_ := needs_finalization_ c;
     finalize_params_ := finalize_params_ c; query_id_ := query_id_ c;
     query_status_ := query_status_ c;
     fragment_exec_params_ := fragment_exec_params_ c;
     num_backends_ := num_backends_ c;
     num_remaining_backends_ := num_remaining_backends_ c;
     backend_exec_states_ := backend_exec_states_ c;
     partition_row_counts_ := partition_row_counts_ c;
     files_to_move_ := files_to_move_ c; progress_ := progress_ c;
     num_rows_ := n |}.

(** [Coordinator::Coordinator]: no executor, no backends, [Wait] not
    called; the default [query_status_] is OK. *)
Definition new_Coordinator : Coordinator :=
  {| has_called_wait_ := false; executor_ := None;
     needs_finalization_ := false;
     finalize_params_ := {| is_overwrite := false; hdfs_base_dir := "" |};
     query_id_ := {| hi := 0; lo := 0 |};
     query_status_ := Status_OK; fragment_exec_params_ := [];
     num_backends_ := 0; num_remaining_backends_ := 0;
     backend_exec_states_ := []; partition_row_counts_ := [];
     files_to_move_ := []; progress_ := 0; num_rows_ := 0 |}.

(** [v[i] = x] on a vector; out of range is an invalid access. *)
Fixpoint vector_store {A : Type} (v : list A) (i : nat) (x : A) : outcome (list A) :=
  match v, i with
  | [], _ => InvalidAccess
  | _ :: v', O => Returned (x :: v')
  | y :: v', S i' => v'' <- vector_store v' i' x ;; Returned (y :: v'')
  end.

(** ** 4.F Dispatch: [Coordinator::ExecRemoteFragment] *)

(** The text of the rpc failure messages, without the printed ids. *)
Definition exec_rpc_failed (what : string) : string :=
  ("ExecPlanRequest rpc failed: " ++ what)%string.
Definition cancel_rpc_failed (what : string) : string :=
  ("CancelPlanFragment rpc failed: " ++ what)%string.

(** [exec_state->status = thrift_result.status; ...
     if (exec_state->status.ok()) exec_state->initiated = true;
     return exec_state->status;] *)
Definition record_exec_result (exec_state : BackendExecState) (result : Status)
    (evs : list Event) : Status * BackendExecState * list Event :=
  let es := set_status exec_state result in
  if ok result then (result, set_initiated es true, evs) else (result, es, evs).

Definition ExecRemoteFragment (env : BackendEnv) (backend : nat)
    (exec_state : BackendExecState) : Status * BackendExecState * list Event :=
  let client := exec_GetClient env backend in
  if negb (ok client) then (client, exec_state, [])
  else
    match exec_first env backend with
    | Reply result => record_exec_result exec_state result [EvExecPlanFragment backend]
    | TransportException _ =>
        let reopened := exec_ReopenClient env backend in
        if negb (ok reopened) then (reopened, exec_state, [EvExecPlanFragment backend])
        else
          match exec_retry env backend with
          | Reply result =>
              record_exec_result exec_state result
                [EvExecPlanFragment backend; EvExecPlanFragment backend]
          | TransportException what =>
              let failed := Status_msg (exec_rpc_failed what) in
              (failed, set_status exec_state failed,
               [EvExecPlanFragment backend; EvExecPlanFragment backend])
          end
    end.

(** Modelled from the spec: [ParallelExecutor::Exec]
    (runtime/parallel-executor.h, not part of this file) "issues the RPCs
    concurrently; the call returns the first error". The calls are made
    here one after the other in argument order, and the first error is the
    first in that order. [first_arg] is the backend number of the first
    argument. *)
Fixpoint ParallelExecutor_Exec
    (function : nat -> BackendExecState -> Status * BackendExecState * list Event)
    (first_arg : nat) (args : list BackendExecState)
  : Status * list BackendExecState * list Event :=
  match args with
  | [] => (Status_OK, [], [])
  | arg :: args' =>
      let '(st, arg', evs) := function first_arg arg in
      let '(st', args'', evs') := ParallelExecutor_Exec function (S first_arg) args' in
      (if ok st then st' else st, arg' :: args'', evs ++ evs')
  end.

(** ** 4.H Cancellation *)

(** [res.status.status_code != TStatusCode::OK] after a completed call. *)
Definition record_cancel_result (es : BackendExecState) (res : Status) : BackendExecState :=
  if ok res then es
  else set_status es (AddErrorMsg (status es) (String.concat "; " (error_msgs res))).

(** The body of the loop of [CancelInternal] for the exec state of
    [backend]. *)
Definition cancel_exec_state (env : BackendEnv) (backend : nat)
    (exec_state : BackendExecState) : BackendExecState * list Event :=
  if negb (ok (status exec_state)) then (exec_state, [])
  else
    let es := set_status exec_state Status_CANCELLED in
    if negb (initiated es) then (es, [])
    else if done es then (es, [])
    else if negb (ok (cancel_GetClient env backend)) then (es, [])
    else
      match cancel_first env backend with
      | Reply res => (record_cancel_result es res, [EvCancelPlanFragment backend])
      | TransportException _ =>
          let reopened := cancel_ReopenClient env backend in
          if negb (ok reopened)
          then (set_status es (AddError (status es) reopened),
                [EvCancelPlanFragment backend])
          else
            match cancel_retry env backend with
            | Reply res =>
                (record_cancel_result es res,
                 [EvCancelPlanFragment backend; EvCancelPlanFragment backend])
            | TransportException what =>
                (set_status es (AddErrorMsg (status es) (cancel_rpc_failed what)),
                 [EvCancelPlanFragment backend; EvCancelPlanFragment backend])
            end
      end.

(** [for (int i = 0; i < backend_exec_states_.size(); ++i)]; taking the
    lock of a NULL exec state is an invalid access. *)
Fixpoint cancel_loop (env : BackendEnv) (i : nat)
    (states : list (option BackendExecState))
  : outcome (list (option BackendExecState) * list Event) :=
  match states with
  | [] => Returned ([], [])
  | None :: _ => InvalidAccess
  | Some exec_state :: states' =>
      let '(es, evs) := cancel_exec_state env i exec_state in
      ' (states'', evs') <- cancel_loop env (S i) states' ;;
      Returned (Some es :: states'', evs ++ evs')
  end.

(** [Coordinator::CancelInternal]. [ReportQuerySummary] at its end only
    touches profiles, which are not part of the state here. *)
Definition CancelInternal (env : BackendEnv) (c : Coordinator)
  : outcome (Coordinator * list Event) :=
  DCHECK (negb (ok (query_status_ c)))
    (let local := match executor_ c with
                  | Some _ => [EvExecutorCancel]
                  | None => []
                  end in
     ' (states, evs) <- cancel_loop env 0 (backend_exec_states_ c) ;;
     Returned (set_backend_exec_states_ c states, local ++ evs ++ [EvNotifyAll])).

(** [Coordinator::Cancel] *)
Definition Cancel (env : BackendEnv) (c : Coordinator)
  : outcome (Coordinator * list Event) :=
  if negb (ok (query_status_ c)) then Returned (c, [])
  else CancelInternal env (set_query_status_ c Status_CANCELLED).

(** [Coordinator::UpdateStatus]; the result is [query_status_]. *)
Definition UpdateStatus (env : BackendEnv) (st : Status) (c : Coordinator)
  : outcome (Status * Coordinator * list Event) :=
  if ok st then Returned (query_status_ c, c, [])
  else if negb (ok (query_status_ c)) then Returned (query_status_ c, c, [])
  else
    ' (c', evs) <- CancelInternal env (set_query_status_ c st) ;;
    Returned (query_status_ c', c', evs).

(** ** 4.G Status reports: [Coordinator::UpdateFragmentExecStatus] *)

Record TInsertExecStatus : Type := mkInsertExecStatus {
  insert_num_appended_rows : PartitionRowCount;
  insert_files_to_move : FileMoveMap
}.

(** [TReportExecStatusParams]; of the cumulative profile a report carries
    here the scan-ranges-complete counter of each scan node. *)
Record TReportExecStatusParams : Type := mkReport {
  backend_num : Z;
  report_status : Status;
  report_done : bool;
  report_profile : list (PlanNodeId * Z);
  report_error_log : option (list string);       (* [__isset.error_log] *)
  insert_exec_status : option TInsertExecStatus  (* [__isset.insert_exec_status] *)
}.

(** Modelled from the spec: [RuntimeProfile::Update] and
    [CollectScanNodeCounters] (the profile classes are not part of this
    file): "replace the cumulative profile by materializing it from the
    wire; on first sight, bind scan-node counters into the instance's
    aggregate counter maps". A bound counter shows the value of the latest
    profile that has it. *)
Definition update_profile (es : BackendExecState) (params : TReportExecStatusParams)
  : list (PlanNodeId * Z) :=
  if profile_created es
  then map (fun entry =>
              (fst entry,
               match map_find Z.eqb (report_profile params) (fst entry) with
               | Some v => v
               | None => snd entry
               end))
           (scan_ranges_complete_counters es)
  else fold_left (fun m entry => modify_or_insert Z.eqb m (fst entry) 0 (fun _ => snd entry))
                 (report_profile params) [].

(** The block of [UpdateFragmentExecStatus] that runs under the lock of the
    exec state: the new exec state and the delta given to [progress_]. *)
Definition update_exec_state (exec_state : BackendExecState)
    (params : TReportExecStatusParams) : outcome (BackendExecState * Z) :=
  DCHECK (negb (ok (report_status params)) || ok (status exec_state))
    (UpdateNumScanRangesCompleted
       {| fragment_instance_id := fragment_instance_id exec_state;
          hostport := hostport exec_state;
          fragment_idx := fragment_idx exec_state;
          status := report_status params;
          initiated := initiated exec_state;
          done := report_done params;
          profile_created := true;
          error_log :=
            match report_error_log params with
            | Some (line :: lines) => error_log exec_state ++ line :: lines
            | _ => error_log exec_state
            end;
          total_ranges_complete := total_ranges_complete exec_state;
          scan_ranges_complete_counters := update_profile exec_state params |}).

(** [partition_row_counts_[partition.first] += partition.second] for every
    reported partition, and [files_to_move_.insert(begin, end)]. *)
Definition merge_insert_status (c : Coordinator) (ins : TInsertExecStatus) : Coordinator :=
  set_insert_state c
    (fold_left (fun m kv => smap_update m (fst kv) 0 (fun n => wrap64 (n + snd kv)))
               (insert_num_appended_rows ins) (partition_row_counts_ c))
    (smap_insert_range (files_to_move_ c) (insert_files_to_move ins)).

Definition UpdateFragmentExecStatus (env : BackendEnv)
    (params : TReportExecStatusParams) (c : Coordinator)
  : outcome (Status * Coordinator * list Event) :=
  if (backend_num params <? 0)
     || (Z.of_nat (length (backend_exec_states_ c)) <=? backend_num params)
  then Returned ({| status_code := INTERNAL_ERROR;
                    error_msgs := ["unknown backend number"%string] |}, c, [])
  else
    let i := Z.to_nat (backend_num params) in
    match nth_error (backend_exec_states_ c) i with
    | Some (Some exec_state) =>
        ' (es, delta) <- update_exec_state exec_state params ;;
        states <- vector_store (backend_exec_states_ c) i (Some es) ;;
        let c1 := set_progress_ (set_backend_exec_states_ c states)
                                (progress_ c + delta) in
        let c2 := match report_done params, insert_exec_status params with
                  | true, Some ins => merge_insert_status c1 ins
                  | _, _ => c1
                  end in
        if negb (ok (report_status params)) then
          ' (_, c3, evs) <- UpdateStatus env (report_status params) c2 ;;
          Returned (Status_OK, c3, evs)
        else if report_done params then
          DCHECK (0 <? num_remaining_backends_ c2)
            (let n := wrap32 (num_remaining_backends_ c2 - 1) in
             Returned (Status_OK, set_num_remaining_backends_ c2 n,
                       if n =? 0 then [EvNotifyAll] else []))
        else Returned (Status_OK, c2, [])
    | _ => InvalidAccess   (* the lock of a NULL exec state *)
    end.

(** A run of status reports, one call after the other. *)
Fixpoint run_reports (env : BackendEnv) (reports : list TReportExecStatusParams)
    (c : Coordinator) : outcome (Coordinator * list Event) :=
  match reports with
  | [] => Returned (c, [])
  | params :: reports' =>
      ' (_, c', evs) <- UpdateFragmentExecStatus env params c ;;
      ' (c'', evs') <- run_reports env reports' c' ;;
      Returned (c'', evs ++ evs')
  end.

(** The status of the instance with backend number [i]. *)
Definition instance_status (c : Coordinator) (i : nat) : option Status :=
  match nth_error (backend_exec_states_ c) i with
  | Some (Some es) => Some (status es)
  | _ => None
  end.

(** ** 4.I Finalization: [Coordinator::FinalizeQuery] *)

(** [AppendHdfsErrorMessage(prefix, file)] (util/hdfs-util.h), without the
    text of [errno] it appends. *)
Definition AppendHdfsErrorMessage (prefix file : string) : string :=
  (prefix ++ file)%string.

Section Finalizer.
Context {FS : Type} `{Hdfs FS}.

(** [for (int i = 0; i < num_files; ++i)] over [existing_files], with its
    [break] at the first failed delete. *)
Fixpoint delete_existing_files (fs : FS) (existing_files : list hdfsFileInfo)
  : Status * FS * list FsOp :=
  match existing_files with
  | [] => (Status_OK, fs, [])
  | info :: existing_files' =>
      match mKind info with
      | kObjectKindFile =>
          let '(deleted, fs') := hdfsDelete fs (mName info) in
          if deleted then
            let '(st, fs'', ops) := delete_existing_files fs' existing_files' in
            (st, fs'', OpDelete (mName info) true :: ops)
          else
            (Status_msg (AppendHdfsErrorMessage
               "Failed to delete existing HDFS file as part of INSERT OVERWRITE query: "
               (mName info)),
             fs', [OpDelete (mName info) false])
      | kObjectKindDirectory => delete_existing_files fs existing_files'
      end
  end.

(** The OVERWRITE branch for the root directory of an unpartitioned table. *)
Definition overwrite_root (fs : FS) (dir : string) : Status * FS * list FsOp :=
  match hdfsListDirectory fs dir with
  | None =>
      (Status_msg (AppendHdfsErrorMessage "Could not list directory: " dir), fs,
       [OpListDirectory dir false])
  | Some existing_files =>
      let '(delete_status, fs', ops) := delete_existing_files fs existing_files in
      (delete_status, fs', OpListDirectory dir true :: ops)
  end.

(** The OVERWRITE branch for a partition directory. *)
Definition overwrite_partition (fs : FS) (dir : string) : Status * FS * list FsOp :=
  if hdfsExists fs dir then
    let '(deleted, fs') := hdfsDelete fs dir in
    if deleted then (Status_OK, fs', [OpExists dir true; OpDelete dir true])
    else
      (Status_msg (AppendHdfsErrorMessage
         "Failed to delete partition directory as part of INSERT OVERWRITE query: " dir),
       fs', [OpExists dir true; OpDelete dir false])
  else (Status_OK, fs, [OpExists dir false]).

(** Steps 1 and 2: the [BOOST_FOREACH] over [partition_row_counts_], whose
    size is [num_partitions]. *)
Fixpoint finalize_partitions (params : TFinalizeParams) (num_partitions : nat)
    (fs : FS) (partitions : PartitionRowCount)
  : outcome (Status * FS * list FsOp) :=
  match partitions with
  | [] => Returned (Status_OK, fs, [])
  | partition :: partitions' =>
      let dir := (hdfs_base_dir params ++ "/" ++ fst partition)%string in
      ' (st, fs1, ops1) <-
        (if is_overwrite params then
           if String.eqb (fst partition) ""
           then DCHECK (num_partitions =? 1)%nat (Returned (overwrite_root fs dir))
           else Returned (overwrite_partition fs dir)
         else Returned (Status_OK, fs, [])) ;;
      if negb (ok st) then Returned (st, fs1, ops1)
      else
        ' (st', fs2, ops2) <-
          finalize_partitions params num_partitions
                              (hdfsCreateDirectory fs1 dir) partitions' ;;
        Returned (st', fs2, ops1 ++ OpCreateDirectory dir :: ops2)
  end.

(** Step 3: the [BOOST_FOREACH] over [files_to_move_]. *)
Fixpoint move_files (fs : FS) (moves : FileMoveMap) (tmp_dirs_to_delete : list string)
  : Status * FS * list FsOp * list string :=
  match moves with
  | [] => (Status_OK, fs, [], tmp_dirs_to_delete)
  | move :: moves' =>
      if String.eqb (snd move) ""
      then move_files fs moves' (sset_insert tmp_dirs_to_delete (fst move))
      else
        let '(renamed, fs') := hdfsRename fs (fst move) (snd move) in
        if renamed then
          let '(st, fs'', ops, tmp) := move_files fs' moves' tmp_dirs_to_delete in
          (st, fs'', OpRename (fst move) (snd move) true :: ops, tmp)
        else
          (Status_msg (AppendHdfsErrorMessage
             ("Could not move HDFS file: " ++ fst move ++ " to desintation: " ++ snd move)
             ""),
           fs', [OpRename (fst move) (snd move) false], tmp_dirs_to_delete)
  end.

(** Step 4: the [BOOST_FOREACH] over [tmp_dirs_to_delete]. *)
Fixpoint delete_tmp_dirs (fs : FS) (tmp_dirs_to_delete : list string)
  : Status * FS * list FsOp :=
  match tmp_dirs_to_delete with
  | [] => (Status_OK, fs, [])
  | tmp_path :: rest =>
      let '(deleted, fs') := hdfsDelete fs tmp_path in
      if deleted then
        let '(st, fs'', ops) := delete_tmp_dirs fs' rest in
        (st, fs'', OpDelete tmp_path true :: ops)
      else
        (Status_msg (AppendHdfsErrorMessage "Failed to delete temporary directory: "
                                            tmp_path),
         fs', [OpDelete tmp_path false])
  end.

Definition FinalizeQuery (fs : FS) (c : Coordinator) : outcome (Status * FS * list FsOp) :=
  DCHECK (has_called_wait_ c)
    (DCHECK (needs_finalization_ c)
       (' (st1, fs1, ops1) <-
          finalize_partitions (finalize_params_ c) (length (partition_row_counts_ c))
                              fs (partition_row_counts_ c) ;;
        if negb (ok st1) then Returned (st1, fs1, ops1)
        else
          let '(st2, fs2, ops2, tmp_dirs_to_delete) :=
            move_files fs1 (files_to_move_ c) [] in
          if negb (ok st2) then Returned (st2, fs2, ops1 ++ ops2)
          else
            let '(st3, fs3, ops3) := delete_tmp_dirs fs2 tmp_dirs_to_delete in
            Returned (st3, fs3, ops1 ++ ops2 ++ ops3))).

(** ** [Coordinator::WaitForAllBackends], [Wait] and [GetNext] *)

(** The caller sleeps on [backend_completion_cv_] while backends remain and
    the query status is OK; the call returns in a state where that is no
    longer so. *)
Definition WaitForAllBackends (c : Coordinator) : outcome Status :=
  if (0 <? num_remaining_backends_ c) && ok (query_status_ c)
  then Blocked
  else Returned (query_status_ c).

Definition Wait (env : BackendEnv) (fs : FS) (c : Coordinator)
  : outcome (Status * Coordinator * FS * list Event) :=
  if has_called_wait_ c then Returned (Status_OK, c, fs, [])
  else
    let c0 := set_has_called_wait_ c true in
    ' (st, c1, evs) <-
      match executor_ c0 with
      | Some executor =>
          ' (st, c1, evs) <- UpdateStatus env (open_result executor) c0 ;;
          if negb (ok st) then Returned (st, c1, evs)
          else
            DCHECK (Nat.eqb (length (files_to_move_ c1)) 0)
              (DCHECK (Nat.eqb (length (partition_row_counts_ c1)) 0)
                 (Returned (Status_OK,
                            set_insert_state c1 (num_appended_rows executor)
                                             (hdfs_files_to_move executor),
                            evs)))
      | None =>
          st <- WaitForAllBackends c0 ;;
          Returned (st, c0, [])
      end ;;
    if negb (ok st) then Returned (st, c1, fs, evs)
    else if needs_finalization_ c1 then
      ' (st', fs', ops) <- FinalizeQuery fs c1 ;;
      Returned (st', c1, fs', evs ++ map EvFs ops)
    else Returned (Status_OK, c1, fs, evs).

End Finalizer.

(** [Coordinator::GetNext]; the batch is [None] for NULL and the number of
    its rows otherwise. *)
Definition GetNext (env : BackendEnv) (c : Coordinator)
  : outcome (Status * option Z * Coordinator * list Event) :=
  DCHECK (has_called_wait_ c)
    match executor_ c with
    | None => Returned (query_status_ c, None, c, [])   (* [GetStatus()] *)
    | Some executor =>
        let '(st, batch, executor') := executor_GetNext executor in
        ' (qst, c1, evs) <- UpdateStatus env st (set_executor_ c (Some executor')) ;;
        if negb (ok qst) then Returned (qst, batch, c1, evs)
        else
          match batch with
          | None =>
              wst <- WaitForAllBackends c1 ;;
              if negb (ok wst) then Returned (wst, batch, c1, evs)
              else Returned (Status_OK, batch, c1, evs)
          | Some rows =>
              Returned (Status_OK, batch, set_num_rows_ c1 (wrap32 (num_rows_ c1 + rows)), evs)
          end
    end.

(** ** [Coordinator::Exec] *)

Inductive TPartitionType : Type :=
| UNPARTITIONED
| RANDOM
| HASH_PARTITIONED
| RANGE_PARTITIONED.

Record TPlanFragment : Type := mkPlanFragment {
  plan : TPlan;
  partition_type : TPartitionType   (* [partition.type] *)
}.

(** A fragment's [output_sink] as the planning code reads it: the two
    [__isset] flags it checks, and of [output_sink.stream_sink] the
    destination node and the type of the output partition. *)
Record TOutputSink : Type := mkOutputSink {
  isset_output_sink : bool;            (* [fragment.__isset.output_sink] *)
  isset_stream_sink : bool;            (* [output_sink.__isset.stream_sink] *)
  dest_node_id : PlanNodeId;           (* [stream_sink.dest_node_id] *)
  output_partition : TPartitionType    (* [stream_sink.output_partition.type] *)
}.

(** The sink of a default-constructed fragment. *)
Definition default_sink : TOutputSink :=
  {| isset_output_sink := false; isset_stream_sink := false;
     dest_node_id := 0; output_partition := UNPARTITIONED |}.

(** What the planning code reads of a [TQueryExecRequest] beside
    [fragments] and [finalize_params]: the sinks of the fragments, in the
    order of [fragments], and [dest_fragment_idx]. *)
Record TPlanExecInfo : Type := mkPlanExecInfo {
  output_sinks : list TOutputSink;
  dest_fragment_idx : list Z
}.

(** [exec_request.fragments[i].output_sink] *)
Definition fragment_sink (info : TPlanExecInfo) (i : nat) : TOutputSink :=
  nth i (output_sinks info) default_sink.

Record TPlanFragmentDestination : Type := mkDestination {
  dest_fragment_instance_id : TUniqueId;   (* [fragment_instance_id] *)
  dest_server : THostPort                  (* [server] *)
}.

(** [per_node_scan_ranges] is a [std::map]: its entries are kept in the
    order of iteration, the order of the keys. *)
Record TQueryExecRequest : Type := mkRequest {
  fragments : list TPlanFragment;
  finalize_params : option TFinalizeParams;   (* [__isset.finalize_params] *)
  per_node_scan_ranges : list (PlanNodeId * list TScanRangeLocations);
  exec_info : TPlanExecInfo
}.

(** *** Planning: [Coordinator::FindLeftmostInputFragment] *)

Section Planning.

Variable INVALID_PLAN_NODE_ID : PlanNodeId.

(** The loop of [FindLeftmostInputFragment] over [dest_fragment_idx], from
    index [i] on; [dests] are the entries from [i] on. *)
Fixpoint find_input_fragment (exec_request : TQueryExecRequest) (info : TPlanExecInfo)
    (fragment_idx : Z) (exch_id : PlanNodeId) (i : nat) (dests : list Z) : outcome Z :=
  match dests with
  | [] =>
      (* [DCHECK(false) << "no fragment sends to exch id "] *)
      DCHECK false (Returned INVALID_PLAN_NODE_ID)
  | dest :: dests' =>
      if negb (dest =? fragment_idx)
      then find_input_fragment exec_request info fragment_idx exch_id (S i) dests'
      else
        match nth_error (fragments exec_request) (S i) with
        | None => InvalidAccess     (* [exec_request.fragments[i + 1]] *)
        | Some _ =>
            let input_sink := fragment_sink info (S i) in
            DCHECK (isset_output_sink input_sink)
              (DCHECK (isset_stream_sink input_sink)
                 (if dest_node_id input_sink =? exch_id
                  then Returned (wrap32 (Z.of_nat i + 1))
                  else find_input_fragment exec_request info fragment_idx exch_id
                                           (S i) dests'))
        end
  end.

(** [Coordinator::FindLeftmostInputFragment] *)
Definition FindLeftmostInputFragment (fragment_idx : Z)
    (exec_request : TQueryExecRequest) (info : TPlanExecInfo) : outcome Z :=
  if fragment_idx <? 0 then InvalidAccess
  else
    match nth_error (fragments exec_request) (Z.to_nat fragment_idx) with
    | None => InvalidAccess       (* [exec_request.fragments[fragment_idx]] *)
    | Some fragment =>
        let exch_id :=
          FindLeftmostNode INVALID_PLAN_NODE_ID (plan fragment) [EXCHANGE_NODE] in
        if exch_id =? INVALID_PLAN_NODE_ID then Returned INVALID_PLAN_NODE_ID
        else find_input_fragment exec_request info fragment_idx exch_id 0
                                 (dest_fragment_idx info)
    end.

End Planning.

(** *** Planning: destinations and senders *)

(** [params.per_exch_num_senders], a map from exchange node to [int]. *)
Definition PerExchNumSenders := list (PlanNodeId * Z).

(** [params.destinations.resize(dest_params.hosts.size())] and the loop
    over [j] that fills it: one destination per host of the destination
    fragment; [remaining] are the hosts from [j] on. *)
Fixpoint make_destinations (dest_params : FragmentExecParams) (j : nat)
    (remaining : list THostPort) : outcome (list TPlanFragmentDestination) :=
  match remaining with
  | [] => Returned []
  | host :: remaining' =>
      match nth_error (instance_ids dest_params) j with
      | None => InvalidAccess     (* [dest_params.instance_ids[j]] *)
      | Some id =>
          destinations <- make_destinations dest_params (S j) remaining' ;;
          Returned ({| dest_fragment_instance_id := id; dest_server := host |}
                    :: destinations)
      end
  end.

(** The loop [for (int i = 1; i < fragment_exec_params_.size(); ++i)] of
    [ComputeFragmentExecParams], from [i] on; [rest] are the params from
    [i] on. [per_exch_num_senders] and [destinations] are the fields of
    that name of the params, one entry per fragment. *)
Fixpoint compute_destinations (fragment_exec_params_ : list FragmentExecParams)
    (exec_request : TQueryExecRequest) (info : TPlanExecInfo)
    (i : nat) (rest : list FragmentExecParams)
    (per_exch_num_senders : list PerExchNumSenders)
    (destinations : list (list TPlanFragmentDestination))
  : outcome (list PerExchNumSenders * list (list TPlanFragmentDestination)) :=
  match rest with
  | [] => Returned (per_exch_num_senders, destinations)
  | params :: rest' =>
      match nth_error (dest_fragment_idx info) (i - 1) with
      | None => InvalidAccess       (* [exec_request.dest_fragment_idx[i - 1]] *)
      | Some dest_idx =>
          DCHECK ((0 <=? dest_idx)
                  && (dest_idx <? Z.of_nat (length fragment_exec_params_)))
            (if dest_idx <? 0 then InvalidAccess
             else
               match nth_error fragment_exec_params_ (Z.to_nat dest_idx),
                     nth_error per_exch_num_senders (Z.to_nat dest_idx),
                     nth_error (fragments exec_request) i with
               | Some dest_params, Some dest_senders, Some _ =>
                   let sink := fragment_sink info i in
                   DCHECK (isset_stream_sink sink)
                     (DCHECK (match output_partition sink with
                              | UNPARTITIONED => true
                              | _ => false
                              end)
                        (let exch_id := dest_node_id sink in
                         let dest_senders' :=
                           modify_or_insert Z.eqb dest_senders exch_id 0
                             (fun n => wrap32 (n + Z.of_nat (length (hosts params)))) in
                         per_exch_num_senders' <-
                           vector_store per_exch_num_senders (Z.to_nat dest_idx)
                                        dest_senders' ;;
                         dests <- make_destinations dest_params 0 (hosts dest_params) ;;
                         destinations' <- vector_store destinations i dests ;;
                         compute_destinations fragment_exec_params_ exec_request info
                                              (S i) rest' per_exch_num_senders'
                                              destinations'))
               | _, _, _ => InvalidAccess   (* [fragment_exec_params_[dest_fragment_idx]] *)
               end)
      end
  end.

(** The part of [ComputeFragmentExecParams] that computes the destinations
    and the number of senders per exchange node, on params that have their
    instance ids and no senders or destinations yet. *)
Definition ComputeDestinations (fragment_exec_params_ : list FragmentExecParams)
    (exec_request : TQueryExecRequest) (info : TPlanExecInfo)
  : outcome (list PerExchNumSenders * list (list TPlanFragmentDestination)) :=
  compute_destinations fragment_exec_params_ exec_request info
                       1 (skipn 1 fragment_exec_params_)
                       (repeat [] (length fragment_exec_params_))
                       (repeat [] (length fragment_exec_params_)).

(** *** Planning: [Coordinator::ComputeFragmentHosts] *)

(** What [Exec] gets from outside this file.
    - [backends]: the backends, by what their rpcs answer.
    - [local_executor]: the [PlanFragmentExecutor] it creates for a
      coordinator fragment.
    - [FLAGS_ipaddress], [FLAGS_be_port]: the flags that name the
      coordinator's host.
    - [INVALID_NODE_ID]: [g_JavaConstants_constants.INVALID_PLAN_NODE_ID].
    - [scheduler_GetHosts data_locations hostports]: the call
      [exec_env_->scheduler()->GetHosts(data_locations, &hostports)], by
      the status it returns and what [hostports] holds afterwards.
    - [unordered_set_elements servers]: the elements of the
      [unordered_set] of pointers to hosts (hashed and compared through
      [HashTHostPortPtr] and [THostPortPtrEquals]) into which [servers]
      were inserted in this order, in the order in which it iterates.
    - [hostport_lt]: [operator<] of [THostPort].
    Nothing is assumed of them. *)
Record ExecEnv : Type := mkExecEnv {
  backends : BackendEnv;
  local_executor : PlanFragmentExecutor;
  FLAGS_ipaddress : string;
  FLAGS_be_port : Z;
  INVALID_NODE_ID : PlanNodeId;
  scheduler_GetHosts : list THostPort -> list THostPort -> Status * list THostPort;
  unordered_set_elements : list THostPort -> list THostPort;
  hostport_lt : THostPort -> THostPort -> bool
}.

(** [v.resize(n)] of a vector of values: cut, or fill with [x], the
    default-constructed value. *)
Definition vector_resize_with {A : Type} (x : A) (v : list A) (n : nat) : list A :=
  firstn n v ++ repeat x (n - length v).

(** A default-constructed [FragmentExecParams]. *)
Definition new_FragmentExecParams : FragmentExecParams :=
  {| hosts := []; instance_ids := []; data_server_map := [] |}.

(** [params.hosts = hs] and [params.hosts.push_back(h)] *)
Definition set_hosts (params : FragmentExecParams) (hs : list THostPort)
  : FragmentExecParams :=
  {| hosts := hs; instance_ids := instance_ids params;
     data_server_map := data_server_map params |}.

Definition push_host (params : FragmentExecParams) (h : THostPort) : FragmentExecParams :=
  set_hosts params (hosts params ++ [h]).

(** [for (int j = 0; j < data_hostports.size(); ++j)
       params.data_server_map[data_hostports[j]] = params.hosts[j];]
    with [data_hostports] and [hosts] from [j] on. *)
Fixpoint fill_data_server_map (m : list (THostPort * THostPort))
    (data_hostports hosts : list THostPort) : outcome (list (THostPort * THostPort)) :=
  match data_hostports with
  | [] => Returned m
  | data_host :: data_hostports' =>
      match hosts with
      | [] => InvalidAccess     (* [params.hosts[j]] *)
      | host :: hosts' =>
          fill_data_server_map
            (modify_or_insert hostport_eqb m data_host host (fun _ => host))
            data_hostports' hosts'
      end
  end.

(** [std::sort] with [lt] for [operator<]. Of two hosts neither of which
    is less than the other [std::sort] may put either first; they stay in
    their order here. *)
Fixpoint sort_insert (lt : THostPort -> THostPort -> bool) (h : THostPort)
    (sorted : list THostPort) : list THostPort :=
  match sorted with
  | [] => [h]
  | x :: sorted' => if lt x h then x :: sort_insert lt h sorted' else h :: x :: sorted'
  end.

Definition std_sort (lt : THostPort -> THostPort -> bool) (l : list THostPort)
  : list THostPort :=
  fold_right (sort_insert lt) [] l.

(** [std::unique] followed by the [erase] of the tail it leaves: of every
    run of hosts that are equal ([operator==], which compares all fields)
    one stays. *)
Fixpoint std_unique (l : list THostPort) : list THostPort :=
  match l with
  | [] => []
  | x :: l' =>
      match l' with
      | y :: _ => if hostport_eqb x y then std_unique l' else x :: std_unique l'
      | [] => [x]
      end
  end.

(** The body of the loop of [ComputeFragmentHosts] for fragment [i], with
    [params] for [fragment_exec_params_[i]]: the status with which the body
    ends ([RETURN_IF_ERROR] returns one that is not OK) and the new
    [params]. [unique_hosts_] is not part of the state here. *)
Definition compute_fragment_hosts (env : ExecEnv) (exec_request : TQueryExecRequest)
    (fragment_exec_params_ : list FragmentExecParams) (i : nat)
    (fragment : TPlanFragment) (params : FragmentExecParams)
  : outcome (Status * FragmentExecParams) :=
  let coord := {| hostname := FLAGS_ipaddress env; ipaddress := FLAGS_ipaddress env;
                  port := FLAGS_be_port env |} in
  match partition_type fragment with
  | UNPARTITIONED => Returned (Status_OK, push_host params coord)
  | _ =>
      let leftmost_scan_id :=
        FindLeftmostNode (INVALID_NODE_ID env) (plan fragment)
                         [HDFS_SCAN_NODE; HBASE_SCAN_NODE] in
      if leftmost_scan_id =? INVALID_NODE_ID env then
        input_fragment_idx <-
          FindLeftmostInputFragment (INVALID_NODE_ID env) (Z.of_nat i) exec_request
                                    (exec_info exec_request) ;;
        DCHECK (0 <=? input_fragment_idx)
          (* [DCHECK_LT] of an [int] and a [size_t] *)
          (DCHECK ((0 <=? input_fragment_idx)
                   && (input_fragment_idx <? Z.of_nat (length fragment_exec_params_)))
             (if input_fragment_idx <? 0 then InvalidAccess
              else
                match nth_error fragment_exec_params_ (Z.to_nat input_fragment_idx) with
                | Some input_params =>
                    Returned (Status_OK, set_hosts params (hosts input_params))
                | None => InvalidAccess   (* [fragment_exec_params_[input_fragment_idx]] *)
                end))
      else
        match map_find Z.eqb (per_node_scan_ranges exec_request) leftmost_scan_id with
        | None | Some [] => Returned (Status_OK, push_host params coord)
        | Some scan_range_locations =>
            let data_hostports :=
              unordered_set_elements env
                (flat_map (fun locations_ => map server (locations locations_))
                          scan_range_locations) in
            let '(status, hosts') :=
              scheduler_GetHosts env data_hostports (hosts params) in
            if negb (ok status) then Returned (status, set_hosts params hosts')
            else
              DCHECK (Nat.eqb (length data_hostports) (length hosts'))
                (data_server_map' <-
                   fill_data_server_map (data_server_map params) data_hostports hosts' ;;
                 Returned
                   (Status_OK,
                    {| hosts := std_unique (std_sort (hostport_lt env) hosts');
                       instance_ids := instance_ids params;
                       data_server_map := data_server_map' |}))
        end
  end.

(** [for (int i = exec_request.fragments.size() - 1; i >= 0; --i)], with
    [n] fragments still to visit: the next is fragment [n - 1]. *)
Fixpoint compute_hosts_loop (env : ExecEnv) (exec_request : TQueryExecRequest)
    (n : nat) (fragment_exec_params_ : list FragmentExecParams)
  : outcome (Status * list FragmentExecParams) :=
  match n with
  | O => Returned (Status_OK, fragment_exec_params_)
  | S i =>
      match nth_error (fragments exec_request) i,
            nth_error fragment_exec_params_ i with
      | Some fragment, Some params =>
          ' (status, params') <-
            compute_fragment_hosts env exec_request fragment_exec_params_ i
                                   fragment params ;;
          fragment_exec_params' <- vector_store fragment_exec_params_ i params' ;;
          if negb (ok status) then Returned (status, fragment_exec_params')
          else compute_hosts_loop env exec_request i fragment_exec_params'
      | _, _ => InvalidAccess     (* [fragment_exec_params_[i]] *)
      end
  end.

(** [Coordinator::ComputeFragmentHosts]: the status it returns and
    [fragment_exec_params_]. *)
Definition ComputeFragmentHosts (env : ExecEnv) (exec_request : TQueryExecRequest)
    (fragment_exec_params_ : list FragmentExecParams)
  : outcome (Status * list FragmentExecParams) :=
  DCHECK (Nat.eqb (length fragment_exec_params_) (length (fragments exec_request)))
    (compute_hosts_loop env exec_request (length (fragments exec_request))
                        fragment_exec_params_).

(** [Coordinator::ComputeFragmentExecParams]: the new
    [fragment_exec_params_] and [num_backends_]. The status of
    [ComputeFragmentHosts] is dropped, as in the source. The senders and
    destinations that the last loop computes go into the rpc payloads
    only, which are not part of the state here; they are computed for a
    coordinator that has not planned before. *)
Definition ComputeFragmentExecParams (env : ExecEnv) (query_id_ : TUniqueId)
    (exec_request : TQueryExecRequest)
    (fragment_exec_params_ : list FragmentExecParams) (num_backends_ : Z)
  : outcome (list FragmentExecParams * Z) :=
  ' (_, with_hosts) <-
    ComputeFragmentHosts env exec_request
      (vector_resize_with new_FragmentExecParams fragment_exec_params_
                          (length (fragments exec_request))) ;;
  ' (with_ids, num_backends) <- assign_instance_ids query_id_ num_backends_ with_hosts ;;
  match fragments exec_request with
  | [] => InvalidAccess     (* [exec_request.fragments[0]] *)
  | root :: _ =>
      let num_backends' :=
        match partition_type root with
        | UNPARTITIONED => wrap32 (num_backends - 1)
        | _ => num_backends
        end in
      _ <- ComputeDestinations with_ids exec_request (exec_info exec_request) ;;
      Returned (with_ids, num_backends')
  end.

(** *** Planning: [Coordinator::ComputeScanRangeAssignment(exec_request)] *)

(** The first loop, for the nodes of fragment [i]: [per_node_fragment_idx]
    is resized to hold [node.node_id] and gets [i] there. The comparison
    of [size()] with the [int] [node.node_id + 1] is unsigned: a negative
    value asks for a size that [resize] refuses with [length_error]. *)
Fixpoint index_plan_nodes (i : Z) (plan_nodes : list TPlanNode)
    (per_node_fragment_idx : list Z) : outcome (list Z) :=
  match plan_nodes with
  | [] => Returned per_node_fragment_idx
  | node :: plan_nodes' =>
      let size := wrap32 (node_id node + 1) in
      if size <? 0 then InvalidAccess
      else
        let resized :=
          if Z.of_nat (length per_node_fragment_idx) <? size
          then vector_resize_with 0 per_node_fragment_idx (Z.to_nat size)
          else per_node_fragment_idx in
        if node_id node <? 0 then InvalidAccess   (* [per_node_fragment_idx[-1]] *)
        else
          stored <- vector_store resized (Z.to_nat (node_id node)) i ;;
          index_plan_nodes i plan_nodes' stored
  end.

Fixpoint index_fragments (i : nat) (remaining : list TPlanFragment)
    (per_node_fragment_idx : list Z) : outcome (list Z) :=
  match remaining with
  | [] => Returned per_node_fragment_idx
  | fragment :: remaining' =>
      indexed <- index_plan_nodes (Z.of_nat i) (nodes (plan fragment))
                                  per_node_fragment_idx ;;
      index_fragments (S i) remaining' indexed
  end.

(** The second loop, over the entries of [per_node_scan_ranges];
    [num_scan_ranges_] is not part of the state here. *)
Fixpoint assign_node_scan_ranges (fragment_exec_params_ : list FragmentExecParams)
    (per_node_fragment_idx : list Z)
    (entries : list (PlanNodeId * list TScanRangeLocations))
    (scan_range_assignment_ : list FragmentScanRangeAssignment)
  : outcome (list FragmentScanRangeAssignment) :=
  match entries with
  | [] => Returned scan_range_assignment_
  | entry :: entries' =>
      if fst entry <? 0 then InvalidAccess
      else
        match nth_error per_node_fragment_idx (Z.to_nat (fst entry)) with
        | None => InvalidAccess     (* [per_node_fragment_idx[entry->first]] *)
        | Some fragment_idx =>
            match nth_error scan_range_assignment_ (Z.to_nat fragment_idx),
                  nth_error fragment_exec_params_ (Z.to_nat fragment_idx) with
            | Some assignment, Some params =>
                assignment' <-
                  ComputeScanRangeAssignment (fst entry) (snd entry) params assignment ;;
                stored <- vector_store scan_range_assignment_ (Z.to_nat fragment_idx)
                                       assignment' ;;
                assign_node_scan_ranges fragment_exec_params_ per_node_fragment_idx
                                        entries' stored
            | _, _ => InvalidAccess   (* [scan_range_assignment_[fragment_idx]] *)
            end
        end
  end.

(** [Coordinator::ComputeScanRangeAssignment(exec_request)]: the new
    [scan_range_assignment_], which goes into the rpc payloads only and is
    computed for a coordinator that has not planned before. *)
Definition ComputeScanRangeAssignment_request (exec_request : TQueryExecRequest)
    (fragment_exec_params_ : list FragmentExecParams)
  : outcome (list FragmentScanRangeAssignment) :=
  per_node_fragment_idx <- index_fragments 0 (fragments exec_request) [] ;;
  assign_node_scan_ranges fragment_exec_params_ per_node_fragment_idx
    (per_node_scan_ranges exec_request)
    (repeat [] (length (fragments exec_request))).

(** *** Starting the fragments *)

(** [resize(n)] of a vector of pointers: cut, or fill with NULL. *)
Definition vector_resize {A : Type} (v : list (option A)) (n : nat) : list (option A) :=
  firstn n v ++ repeat None (n - length v).

(** [backend_exec_states_[backend_num] = exec_state] for the instances of
    one fragment, starting at [backend_num]. *)
Fixpoint set_up_exec_states (fragment_idx : nat) (params : FragmentExecParams)
    (instance_idx num_instances : nat) (backend_num : nat)
    (states : list (option BackendExecState))
  : outcome (list (option BackendExecState) * list BackendExecState) :=
  match num_instances with
  | O => Returned (states, [])
  | S num_instances' =>
      exec_state <- new_BackendExecState fragment_idx params instance_idx ;;
      states' <- vector_store states backend_num (Some exec_state) ;;
      ' (states'', created) <-
        set_up_exec_states fragment_idx params (S instance_idx) num_instances'
                           (S backend_num) states' ;;
      Returned (states'', exec_state :: created)
  end.

(** The exec states come back from the parallel executor through the
    pointers stored in [backend_exec_states_]. *)
Fixpoint store_exec_states (states : list (option BackendExecState)) (backend_num : nat)
    (updated : list BackendExecState) : outcome (list (option BackendExecState)) :=
  match updated with
  | [] => Returned states
  | es :: updated' =>
      states' <- vector_store states backend_num (Some es) ;;
      store_exec_states states' (S backend_num) updated'
  end.

(** The loop that starts the fragment instances, from [fragment_idx] on;
    [params_list] are the exec params of the fragments still to start. *)
Fixpoint start_fragments (env : BackendEnv) (fragment_idx : nat)
    (params_list : list FragmentExecParams) (backend_num : nat) (c : Coordinator)
  : outcome (Status * Coordinator * list Event) :=
  match params_list with
  | [] => Returned (Status_OK, c, [])
  | params :: params_list' =>
      let num_hosts := length (hosts params) in
      DCHECK (0 <? num_hosts)%nat
        (' (states, created) <-
           set_up_exec_states fragment_idx params 0 num_hosts backend_num
                              (backend_exec_states_ c) ;;
         let '(fragments_exec_status, updated, evs) :=
           ParallelExecutor_Exec (ExecRemoteFragment env) backend_num created in
         states' <- store_exec_states states backend_num updated ;;
         let c1 := set_backend_exec_states_ c states' in
         if negb (ok fragments_exec_status) then
           DCHECK (ok (query_status_ c1))
             (' (c2, evs') <- CancelInternal env
                                (set_query_status_ c1 fragments_exec_status) ;;
              Returned (fragments_exec_status, c2, evs ++ evs'))
         else
           ' (st, c2, evs') <- start_fragments env (S fragment_idx) params_list'
                                               (backend_num + num_hosts) c1 ;;
           Returned (st, c2, evs ++ evs'))
  end.

(** [request->fragments[0].partition.type == TPartitionType::UNPARTITIONED] *)
Definition has_coordinator_fragment (request : TQueryExecRequest) : bool :=
  match fragments request with
  | {| partition_type := UNPARTITIONED |} :: _ => true
  | _ => false
  end.

(** The [i]-th instance in the order of the fragments and, within a
    fragment, of its hosts: the index of its fragment, its host and its
    instance id. [fragment_idx] is the index of the first fragment of
    [params_list]. *)
Fixpoint nth_instance (fragment_idx : nat) (params_list : list FragmentExecParams)
    (i : nat) : option (nat * THostPort * TUniqueId) :=
  match params_list with
  | [] => None
  | params :: params_list' =>
      if (i <? length (hosts params))%nat then
        match nth_error (hosts params) i, nth_error (instance_ids params) i with
        | Some host, Some id => Some (fragment_idx, host, id)
        | _, _ => None
        end
      else nth_instance (S fragment_idx) params_list' (i - length (hosts params))
  end.

(** [Coordinator::PrintBackendInfo], called with [num_fragments] entries
    in [fragment_profiles_]: it reads every entry of
    [backend_exec_states_] through its pointer and the profile data of
    its fragment. The statistics it logs are not part of the state. *)
Definition PrintBackendInfo (num_fragments : nat) (c : Coordinator) : outcome unit :=
  if forallb (fun exec_state =>
                match exec_state with
                | Some es => (fragment_idx es <? num_fragments)%nat
                | None => false
                end) (backend_exec_states_ c)
  then Returned tt
  else InvalidAccess.

(** The coordinator once planning is done, with the executor and the exec
    states given. *)
Definition planned (c : Coordinator) (query_id : TUniqueId) (request : TQueryExecRequest)
    (params : list FragmentExecParams) (num_backends : Z)
    (executor : option PlanFragmentExecutor) (states : list (option BackendExecState))
  : Coordinator :=
  {| has_called_wait_ := has_called_wait_ c;
     executor_ := executor;
     needs_finalization_ :=
       match finalize_params request with Some _ => true | None => false end;
     finalize_params_ :=
       match finalize_params request with
       | Some p => p
       | None => finalize_params_ c
       end;
     query_id_ := query_id;
     query_status_ := query_status_ c;
     fragment_exec_params_ := params;
     num_backends_ := num_backends;
     num_remaining_backends_ := num_remaining_backends_ c;
     backend_exec_states_ := states;
     partition_row_counts_ := partition_row_counts_ c;
     files_to_move_ := files_to_move_ c;
     progress_ := progress_ c;
     num_rows_ := num_rows_ c |}.

(** [backend_exec_states_.resize(num_backends_);
     num_remaining_backends_ = num_backends_;] *)
Definition sized_for_backends (c : Coordinator) : Coordinator :=
  set_num_remaining_backends_
    (set_backend_exec_states_ c
       (vector_resize (backend_exec_states_ c) (Z.to_nat (num_backends_ c))))
    (num_backends_ c).

(** [Exec] from the point where planning is done, with the
    [fragment_exec_params_] and [num_backends_] that planning left. The
    profiles that [Exec] creates are not part of the state here. *)
Definition start_planned (env : ExecEnv) (query_id : TUniqueId)
    (request : TQueryExecRequest) (c : Coordinator)
    (params : list FragmentExecParams) (num_backends : Z)
  : outcome (Status * Coordinator * list Event) :=
  let has_coordinator_fragment := has_coordinator_fragment request in
  _ <- (if has_coordinator_fragment then
          (* [SetExecPlanFragmentParams(0, request->fragments[0], 0,
              fragment_exec_params_[0], 0, coord, &rpc_params)] reads
             [params.instance_ids[0]] and [params.hosts[0]] *)
          match params with
          | root_params :: _ =>
              match instance_ids root_params, hosts root_params with
              | _ :: _, _ :: _ => Returned tt
              | _, _ => InvalidAccess
              end
          | [] => InvalidAccess
          end
        else Returned tt) ;;
  if has_coordinator_fragment && negb (ok (prepare_result (local_executor env)))
  then Returned (prepare_result (local_executor env),
                 planned c query_id request params num_backends
                         (Some (local_executor env)) (backend_exec_states_ c), [])
  else
    (* [backend_exec_states_.resize(num_backends_)]: a negative [int] asks
       for a size that [resize] refuses with [length_error] *)
    if num_backends <? 0 then InvalidAccess
    else
      let c1 :=
        sized_for_backends
          (planned c query_id request params num_backends
                   (if has_coordinator_fragment then Some (local_executor env) else None)
                   (backend_exec_states_ c)) in
      ' (st, c2, evs) <-
        start_fragments (backends env) (if has_coordinator_fragment then 1 else 0)%nat
                        (skipn (if has_coordinator_fragment then 1 else 0) params)
                        0 c1 ;;
      if negb (ok st) then Returned (st, c2, evs)
      else
        _ <- PrintBackendInfo (length (fragments request)) c2 ;;
        Returned (Status_OK, set_progress_ c2 0, evs).

(** [Coordinator::Exec] *)
Definition Exec (env : ExecEnv) (query_id : TUniqueId) (request : TQueryExecRequest)
    (c : Coordinator) : outcome (Status * Coordinator * list Event) :=
  DCHECK (0 <? length (fragments request))%nat
    (' (params, num_backends) <-
       ComputeFragmentExecParams env query_id request
                                 (fragment_exec_params_ c) (num_backends_ c) ;;
     _ <- ComputeScanRangeAssignment_request request params ;;
     start_planned env query_id request c params num_backends).

(** ** Vocabulary of the coordinator properties *)

(** The instance with backend number [i] exists and its status is not OK. *)
Definition instance_failed (c : Coordinator) (i : nat) : Prop :=
  exists es, nth_error (backend_exec_states_ c) i = Some (Some es) /\
             ok (status es) = false.

(** Calls of [Cancel] one after the other, each in its own environment. *)
Fixpoint Cancel_sequence (envs : list BackendEnv) (c : Coordinator)
  : outcome (Coordinator * list Event) :=
  match envs with
  | [] => Returned (c, [])
  | env :: envs' =>
      ' (c', evs) <- Cancel env c ;;
      ' (c'', evs') <- Cancel_sequence envs' c' ;;
      Returned (c'', evs ++ evs')
  end.

(** How often [CancelPlanFragment] was called on the client of backend [i]. *)
Definition cancel_rpcs (i : nat) (evs : list Event) : nat :=
  length (filter (fun ev => match ev with
                            | EvCancelPlanFragment j => Nat.eqb i j
                            | _ => false
                            end) evs).


(** The status [ExecRemoteFragment] returns for a backend: the failure to
    get or reopen a client, the backend's reply, or the transport failure
    of the second call. *)
Definition dispatch_status (env : BackendEnv) (backend : nat) : Status :=
  if negb (ok (exec_GetClient env backend)) then exec_GetClient env backend
  else
    match exec_first env backend with
    | Reply result => result
    | TransportException _ =>
        if negb (ok (exec_ReopenClient env backend)) then exec_ReopenClient env backend
        else
          match exec_retry env backend with
          | Reply result => result
          | TransportException what => Status_msg (exec_rpc_failed what)
          end
    end.

(** An exec state as its constructor leaves it. *)
Definition fresh_exec_state (es : BackendExecState) : Prop :=
  initiated es = false /\ done es = false /\ ok (status es) = true.

(** An exec state after [ExecRemoteFragment] ran on it as backend [i]:
    initiated exactly when the dispatch succeeded, and then OK. *)
Definition dispatched_exec_state (env : BackendEnv) (i : nat) (es : BackendExecState)
  : Prop :=
  initiated es = ok (dispatch_status env i) /\ done es = false /\
  (initiated es = true -> ok (status es) = true).

(** The exec states while [Exec] starts fragments: the backends below
    [b] were dispatched with success, the entries from [b] on are still
    NULL. *)
Definition dispatched_prefix (env : BackendEnv)
    (states : list (option BackendExecState)) (b : nat) : Prop :=
  (forall j, (j < b)%nat ->
             exists es, nth_error states j = Some (Some es) /\
                        dispatched_exec_state env j es /\
                        ok (dispatch_status env j) = true) /\
  (forall j, (b <= j)%nat -> (j < length states)%nat ->
             nth_error states j = Some None).

(** ** Vocabulary of the finalizer properties *)

(** The names of the entries of a listing that are files. *)
Definition files_of (listing : list hdfsFileInfo) : list string :=
  map mName (filter (fun info => match mKind info with
                                 | kObjectKindFile => true
                                 | kObjectKindDirectory => false
                                 end) listing).

(** The pending moves with a destination. *)
Definition renames_of (moves : FileMoveMap) : FileMoveMap :=
  filter (fun move => negb (String.eqb (snd move) "")) moves.

Definition deleted_ok (p : string) : FsOp := OpDelete p true.
Definition renamed_ok (move : string * string) : FsOp :=
  OpRename (fst move) (snd move) true.

End Embedding.

(** *** Example inputs: two data hosts that are their own execution hosts *)

Definition host_X : THostPort := mkHostPort "x" "10.0.0.1" 22000.
Definition host_Y : THostPort := mkHostPort "y" "10.0.0.2" 22000.

Definition two_host_params : FragmentExecParams :=
  {| hosts := [host_X; host_Y];
     instance_ids := [];
     data_server_map := [(host_X, host_X); (host_Y, host_Y)] |}.

Definition file_range (p : string) (len : Z) (replicas : list THostPort)
  : TScanRangeLocations :=
  {| scan_range := {| hdfs_file_split := Some (mkHdfsFileSplit p 0 len);
                      hbase_key_range := None |};
     locations := map (fun h => {| server := h; volume_id := 0 |}) replicas |}.

(** Three ranges of 100 bytes, each on both hosts. *)
Definition replicated_ranges : list TScanRangeLocations :=
  [ file_range "a" 100 [host_X; host_Y];
    file_range "b" 100 [host_X; host_Y];
    file_range "c" 100 [host_X; host_Y] ].



(** A range without a replica. *)
Definition range_without_replica : list TScanRangeLocations :=
  [ file_range "a" 100 [] ].

(** A range as long as the largest [int64_t] and a second one, both on
    [host_X] only. *)
Definition saturating_ranges : list TScanRangeLocations :=
  [ file_range "a" INT64_MAX [host_X]; file_range "b" 1 [host_X] ].


(** Three ranges of length [- 2 ^ 62] on [host_X] only, and a fourth of 100
    bytes on both hosts. *)
Definition underflowing_ranges : list TScanRangeLocations :=
  [ file_range "a" (- 2 ^ 62) [host_X];
    file_range "b" (- 2 ^ 62) [host_X];
    file_range "c" (- 2 ^ 62) [host_X];
    file_range "d" 100 [host_X; host_Y] ].

(** *** Example coordinators *)

Definition backends_all_ok : BackendEnv :=
  {| exec_GetClient := fun _ => Status_OK;
     exec_first := fun _ => Reply Status_OK;
     exec_ReopenClient := fun _ => Status_OK;
     exec_retry := fun _ => Reply Status_OK;
     cancel_GetClient := fun _ => Status_OK;
     cancel_first := fun _ => Reply Status_OK;
     cancel_ReopenClient := fun _ => Status_OK;
     cancel_retry := fun _ => Reply Status_OK |}.

(** The first [CancelPlanFragment] on every client throws; the call made
    after reopening the client goes through. *)
Definition backends_cancel_retried : BackendEnv :=
  {| exec_GetClient := fun _ => Status_OK;
     exec_first := fun _ => Reply Status_OK;
     exec_ReopenClient := fun _ => Status_OK;
     exec_retry := fun _ => Reply Status_OK;
     cancel_GetClient := fun _ => Status_OK;
     cancel_first := fun _ => TransportException "connection reset";
     cancel_ReopenClient := fun _ => Status_OK;
     cancel_retry := fun _ => Reply Status_OK |}.

(** [ExecPlanFragment] to backend [k] fails on the transport, also after
    the client was reopened. *)
Definition backends_exec_fails (k : nat) : BackendEnv :=
  {| exec_GetClient := fun _ => Status_OK;
     exec_first := fun i => if Nat.eqb i k then TransportException "no route"
                            else Reply Status_OK;
     exec_ReopenClient := fun _ => Status_OK;
     exec_retry := fun _ => TransportException "no route";
     cancel_GetClient := fun _ => Status_OK;
     cancel_first := fun _ => Reply Status_OK;
     cancel_ReopenClient := fun _ => Status_OK;
     cancel_retry := fun _ => Reply Status_OK |}.

Definition idle_executor : PlanFragmentExecutor :=
  {| prepare_result := Status_OK; open_result := Status_OK;
     getnext_results := []; hdfs_files_to_move := []; num_appended_rows := [] |}.

Definition hosts_only (hs : list THostPort) : FragmentExecParams :=
  {| hosts := hs; instance_ids := []; data_server_map := [] |}.

Definition example_query_id : TUniqueId := {| hi := 1; lo := 10 |}.

(** *** An example cluster *)

(** Hosts in the order of their address and port. *)
Definition by_address (a b : THostPort) : bool :=
  match String.compare (ipaddress a) (ipaddress b) with
  | Lt => true
  | Eq => port a <? port b
  | Gt => false
  end.

(** The hosts of a list, each once, in the order of first occurrence. *)
Fixpoint first_occurrences (l : list THostPort) : list THostPort :=
  match l with
  | [] => []
  | h :: l' => h :: filter (fun h' => negb (hostport_eqb h' h)) (first_occurrences l')
  end.

(** A cluster in which every data host is its own execution host, with
    the coordinator on 10.0.0.9. *)
Definition cluster (backends : BackendEnv) (executor : PlanFragmentExecutor) : ExecEnv :=
  {| backends := backends; local_executor := executor;
     FLAGS_ipaddress := "10.0.0.9"; FLAGS_be_port := 22000;
     INVALID_NODE_ID := -1;
     scheduler_GetHosts := fun data_locations _ => (Status_OK, data_locations);
     unordered_set_elements := first_occurrences;
     hostport_lt := by_address |}.

(** The same with a scheduler that knows no backend. *)
Definition cluster_without_backends (backends : BackendEnv)
    (executor : PlanFragmentExecutor) : ExecEnv :=
  {| backends := backends; local_executor := executor;
     FLAGS_ipaddress := "10.0.0.9"; FLAGS_be_port := 22000;
     INVALID_NODE_ID := -1;
     scheduler_GetHosts := fun _ hostports => (Status_msg "No backends configured", hostports);
     unordered_set_elements := first_occurrences;
     hostport_lt := by_address |}.

(** *** Example requests *)

Definition scan_node (id : PlanNodeId) : TPlanNode :=
  {| node_id := id; node_type := HDFS_SCAN_NODE; num_children := 0 |}.

Definition table_sink : TOutputSink :=
  {| isset_output_sink := true; isset_stream_sink := false;
     dest_node_id := 0; output_partition := UNPARTITIONED |}.

Definition stream_sink_to (exch_id : PlanNodeId) : TOutputSink :=
  {| isset_output_sink := true; isset_stream_sink := true;
     dest_node_id := exch_id; output_partition := UNPARTITIONED |}.

(** A parallel insert: one partitioned fragment that scans three ranges on
    two hosts and writes the table; no coordinator fragment. *)
Definition insert_request : TQueryExecRequest :=
  {| fragments := [ {| plan := {| nodes := [scan_node 1] |}; partition_type := RANDOM |} ];
     finalize_params := None;
     per_node_scan_ranges := [(1, replicated_ranges)];
     exec_info := {| output_sinks := [table_sink]; dest_fragment_idx := [] |} |}.

Definition exchange_info : TPlanExecInfo :=
  {| output_sinks :=
       [ default_sink;
         {| isset_output_sink := true; isset_stream_sink := true;
            dest_node_id := 7; output_partition := UNPARTITIONED |} ];
     dest_fragment_idx := [0] |}.

(** A select: an unpartitioned root fragment with an exchange node, fed by
    a partitioned fragment that scans three ranges on two hosts. *)
Definition exchange_request : TQueryExecRequest :=
  {| fragments :=
       [ {| plan := {| nodes := [ {| node_id := 3; node_type := OTHER_NODE 0;
                                     num_children := 1 |};
                                  {| node_id := 7; node_type := EXCHANGE_NODE;
                                     num_children := 0 |} ] |};
            partition_type := UNPARTITIONED |};
         {| plan := {| nodes := [ {| node_id := 1; node_type := HDFS_SCAN_NODE;
                                     num_children := 0 |} ] |};
            partition_type := RANDOM |} ];
     finalize_params := None;
     per_node_scan_ranges := [(1, replicated_ranges)];
     exec_info := exchange_info |}.

(** The params of the two fragments after the instance ids were assigned. *)
Definition exchange_params : list FragmentExecParams :=
  [ {| hosts := [host_X]; instance_ids := [ {| hi := 1; lo := 11 |} ];
       data_server_map := [] |};
    {| hosts := [host_X; host_Y];
       instance_ids := [ {| hi := 1; lo := 12 |}; {| hi := 1; lo := 13 |} ];
       data_server_map := [] |} ].

(** A parallel insert of two fragments: a partitioned fragment that reads
    from an exchange node and writes the table, on the hosts of its input
    fragment, which scans three ranges on two hosts. *)
Definition two_fragment_request : TQueryExecRequest :=
  {| fragments :=
       [ {| plan := {| nodes := [ {| node_id := 7; node_type := EXCHANGE_NODE;
                                     num_children := 0 |} ] |};
            partition_type := RANDOM |};
         {| plan := {| nodes := [scan_node 1] |}; partition_type := RANDOM |} ];
     finalize_params := None;
     per_node_scan_ranges := [(1, replicated_ranges)];
     exec_info := {| output_sinks := [table_sink; stream_sink_to 7];
                     dest_fragment_idx := [0] |} |}.

(** What planning leaves for the insert of two fragments: the exec params
    and the scan range assignment. *)
Definition two_fragment_params : list FragmentExecParams :=
  Eval vm_compute in
    match ComputeFragmentExecParams (build := debug_build)
            (cluster backends_all_ok idle_executor) example_query_id
            two_fragment_request [] 0 with
    | Returned (params, _) => params
    | _ => []
    end.

Definition two_fragment_assignment : list FragmentScanRangeAssignment :=
  Eval vm_compute in
    match ComputeScanRangeAssignment_request (build := debug_build)
            two_fragment_request two_fragment_params with
    | Returned assignment => assignment
    | _ => []
    end.

Definition after_Exec (env : ExecEnv) (request : TQueryExecRequest) : Coordinator :=
  match Exec (build := debug_build) env example_query_id request new_Coordinator with
  | Returned (_, c, _) => c
  | _ => new_Coordinator
  end.

(** The coordinator of the parallel insert after a successful [Exec]: two
    initiated backends. *)
Definition insert_running : Coordinator :=
  Eval vm_compute in after_Exec (cluster backends_all_ok idle_executor) insert_request.

(** The coordinator of the select after a successful [Exec]: a local
    executor and two initiated backends. *)
Definition select_running : Coordinator :=
  Eval vm_compute in after_Exec (cluster backends_all_ok idle_executor) exchange_request.

(** [insert_running] after [Cancel]. *)
Definition insert_cancelled : Coordinator :=
  Eval vm_compute in
    match Cancel (build := debug_build) backends_all_ok insert_running with
    | Returned (c, _) => c
    | _ => insert_running
    end.

(** A backend's final report after it was cancelled. *)
Definition cancelled_report (backend : Z) : TReportExecStatusParams :=
  {| backend_num := backend; report_status := Status_CANCELLED;
     report_done := true; report_profile := [];
     report_error_log := None; insert_exec_status := None |}.

(** A progress report of a running backend. *)
Definition progress_report (backend : Z) : TReportExecStatusParams :=
  {| backend_num := backend; report_status := Status_OK;
     report_done := false; report_profile := [(0, 1)];
     report_error_log := None; insert_exec_status := None |}.

(** *** An example file system *)

(** One table directory with its entries, and the files the sinks wrote
    below its tmp directories. Listing gives the entries of the table
    directory; a delete succeeds on what exists; a rename moves a sink file
    into the table directory. *)
Record MemFs : Type := mkMemFs {
  table_dir : list hdfsFileInfo;
  sink_files : list string
}.

Definition mem_has (fs : MemFs) (p : string) : bool :=
  existsb (fun info => String.eqb (mName info) p) (table_dir fs)
  || existsb (String.eqb p) (sink_files fs).

Definition mem_remove (fs : MemFs) (p : string) : MemFs :=
  {| table_dir := filter (fun info => negb (String.eqb (mName info) p)) (table_dir fs);
     sink_files := filter (fun q => negb (String.eqb q p)) (sink_files fs) |}.

#[export] Instance MemFs_Hdfs : Hdfs MemFs :=
  {| hdfsListDirectory := fun fs _ => Some (table_dir fs);
     hdfsDelete := fun fs p => (mem_has fs p, mem_remove fs p);
     hdfsExists := mem_has;
     hdfsCreateDirectory := fun fs _ => fs;
     hdfsRename := fun fs src dst =>
       if existsb (String.eqb src) (sink_files fs)
       then (true,
             {| table_dir := table_dir (mem_remove fs src)
                             ++ [ {| mKind := kObjectKindFile; mName := dst |} ];
                sink_files := sink_files (mem_remove fs src) |})
       else (false, fs) |}.

(** The table directory holds the files [a] and [b] and the directory
    [sub]; the sinks wrote [tmp1] and [tmp2]. *)
Definition overwrite_fs : MemFs :=
  {| table_dir := [ {| mKind := kObjectKindFile; mName := "a" |};
                    {| mKind := kObjectKindFile; mName := "b" |};
                    {| mKind := kObjectKindDirectory; mName := "sub" |} ];
     sink_files := ["tmp1"%string; "tmp2"%string] |}.

(** An OVERWRITE insert into an unpartitioned table, all backends done,
    [Wait] called, with the moves [tmp1 -> a] and [tmp2 -> c] pending. *)
Definition overwrite_coordinator : Coordinator :=
  {| has_called_wait_ := true; executor_ := None;
     needs_finalization_ := true;
     finalize_params_ := {| is_overwrite := true; hdfs_base_dir := "/t" |};
     query_id_ := example_query_id;
     query_status_ := Status_OK; fragment_exec_params_ := [];
     num_backends_ := 0; num_remaining_backends_ := 0;
     backend_exec_states_ := [];
     partition_row_counts_ := [(""%string, 2)];
     files_to_move_ := [("tmp1"%string, "a"%string); ("tmp2"%string, "c"%string)];
     progress_ := 0; num_rows_ := 0 |}.

(** The sinks wrote [tmp1], and [tmp2] is missing: the rename of
    [tmp2 -> c] fails. *)
Definition overwrite_fs_without_tmp2 : MemFs :=
  {| table_dir := table_dir overwrite_fs; sink_files := ["tmp1"%string] |}.

(** Two file systems that refuse: [unlistable] fails every call;
    [read_only] lists the table directory of [overwrite_fs] and fails
    every delete and rename. *)
Inductive RefusingFs : Type := unlistable | read_only.

#[export] Instance RefusingFs_Hdfs : Hdfs RefusingFs :=
  {| hdfsListDirectory := fun fs _ =>
       match fs with
       | unlistable => None
       | read_only => Some (table_dir overwrite_fs)
       end;
     hdfsDelete := fun fs _ => (false, fs);
     hdfsExists := fun _ _ => true;
     hdfsCreateDirectory := fun fs _ => fs;
     hdfsRename := fun fs _ _ => (false, fs) |}.

(** [overwrite_coordinator] before [Wait] was called. *)
Definition overwrite_before_Wait : Coordinator :=
  set_has_called_wait_ overwrite_coordinator false.

(* ================================================================== *)
(** * Part I, continued: vocabulary for runs of calls *)
(* ================================================================== *)

Section Calls.
Context {build : Build} {FS : Type} `{Hdfs FS}.

(** A call of one of the entry points that change the coordinator after
    [Exec], with the environment it runs in. *)
Inductive CoordinatorCall : Type :=
| CallCancel (env : BackendEnv)
| CallUpdateStatus (env : BackendEnv) (st : Status)
| CallUpdateFragmentExecStatus (env : BackendEnv) (params : TReportExecStatusParams)
| CallWait (env : BackendEnv)
| CallGetNext (env : BackendEnv).

Definition run_call (call : CoordinatorCall) (fs : FS) (c : Coordinator)
  : outcome (Coordinator * FS * list Event) :=
  match call with
  | CallCancel env =>
      ' (c', evs) <- Cancel env c ;; Returned (c', fs, evs)
  | CallUpdateStatus env st =>
      ' (_, c', evs) <- UpdateStatus env st c ;; Returned (c', fs, evs)
  | CallUpdateFragmentExecStatus env params =>
      ' (_, c', evs) <- UpdateFragmentExecStatus env params c ;; Returned (c', fs, evs)
  | CallWait env =>
      ' (_, c', fs', evs) <- Wait env fs c ;; Returned (c', fs', evs)
  | CallGetNext env =>
      ' (_, _, c', evs) <- GetNext env c ;; Returned (c', fs, evs)
  end.

(** Calls one after the other. *)
Fixpoint run_calls (calls : list CoordinatorCall) (fs : FS) (c : Coordinator)
  : outcome (Coordinator * FS * list Event) :=
  match calls with
  | [] => Returned (c, fs, [])
  | call :: calls' =>
      ' (c1, fs1, evs1) <- run_call call fs c ;;
      ' (c2, fs2, evs2) <- run_calls calls' fs1 c1 ;;
      Returned (c2, fs2, evs1 ++ evs2)
  end.

End Calls.

(** *** More example reports *)

(** A backend's final report after its fragment failed. *)
Definition failed_report (backend : Z) : TReportExecStatusParams :=
  {| backend_num := backend; report_status := Status_msg "disk failure";
     report_done := true; report_profile := [];
     report_error_log := None; insert_exec_status := None |}.

(** A backend's final report after its fragment finished. *)
Definition done_report (backend : Z) : TReportExecStatusParams :=
  {| backend_num := backend; report_status := Status_OK;
     report_done := true; report_profile := [(0, 3)];
     report_error_log := None; insert_exec_status := None |}.

(** How often [ExecPlanFragment] was called on the client of backend [i]. *)
Definition exec_rpcs (i : nat) (evs : list Event) : nat :=
  length (filter (fun ev => match ev with
                            | EvExecPlanFragment j => Nat.eqb i j
                            | _ => false
                            end) evs).

(** The select once [Wait] has been called, with a local executor that has
    a batch of five rows to give. *)
Definition select_with_batch : Coordinator :=
  set_executor_ (set_has_called_wait_ select_running true)
    (Some {| prepare_result := Status_OK; open_result := Status_OK;
             getnext_results := [(Status_OK, Some 5)];
             hdfs_files_to_move := []; num_appended_rows := [] |}).

(** ** More vocabulary of the finalizer properties *)

(** The libhdfs call failed: a NULL listing, or the result -1 of a delete
    or a rename. [hdfsExists] answering no is not a failure, and the result
    of [hdfsCreateDirectory] is ignored. *)
Definition op_failed (op : FsOp) : bool :=
  match op with
  | OpListDirectory _ listed => negb listed
  | OpDelete _ deleted => negb deleted
  | OpRename _ _ renamed => negb renamed
  | OpExists _ _ => false
  | OpCreateDirectory _ => false
  end.

(** A trace of calls that ended with [st]: no call failed when [st] is OK,
    and otherwise the last call failed and no other. *)
Definition stopped_at_first_failure (st : Status) (ops : list FsOp) : Prop :=
  if ok st then Forall (fun op => op_failed op = false) ops
  else exists before failed,
         ops = before ++ [failed] /\ op_failed failed = true /\
         Forall (fun op => op_failed op = false) before.

(** The directory of a partition. *)
Definition partition_dir (params : TFinalizeParams) (partition_key : string) : string :=
  (hdfs_base_dir params ++ "/" ++ partition_key)%string.

(** A non-OVERWRITE insert into two partitions, all backends done, [Wait]
    called, with one file to move and one tmp directory to delete. *)
Definition append_coordinator : Coordinator :=
  {| has_called_wait_ := true; executor_ := None;
     needs_finalization_ := true;
     finalize_params_ := {| is_overwrite := false; hdfs_base_dir := "/t" |};
     query_id_ := example_query_id;
     query_status_ := Status_OK; fragment_exec_params_ := [];
     num_backends_ := 0; num_remaining_backends_ := 0;
     backend_exec_states_ := [];
     partition_row_counts_ := [("p=1"%string, 2); ("p=2"%string, 1)];
     files_to_move_ := [("tmp1"%string, "a"%string); ("tmp2"%string, ""%string)];
     progress_ := 0; num_rows_ := 0 |}.

(** What one call of steps 1 and 2 may be, for the partitions [keys]. *)
Definition partition_call (params : TFinalizeParams) (keys : list string)
    (ops : list FsOp) (op : FsOp) : Prop :=
  exists k, In k keys /\
    (op = OpCreateDirectory (partition_dir params k) \/
     (is_overwrite params = true /\
      ((exists found, op = OpExists (partition_dir params k) found) \/
       ((exists deleted, op = OpDelete (partition_dir params k) deleted) /\
        In (OpExists (partition_dir params k) true) ops)))).

(** *** More example environments *)

(** The environment of the select: every backend answering OK. *)
Definition select_env : ExecEnv := cluster backends_all_ok idle_executor.

(** The same with a local executor whose [Prepare] fails. *)
Definition select_env_prepare_fails : ExecEnv :=
  cluster backends_all_ok
    {| prepare_result := Status_msg "cannot open plan"; open_result := Status_OK;
       getnext_results := []; hdfs_files_to_move := []; num_appended_rows := [] |}.

(* ================================================================== *)
(** * Part I, continued: functions beside the ones above *)
(* ================================================================== *)

(** ** [BackendExecState::ComputeTotalSplitSize] *)

(** The sum runs over [rpc_params.params.per_node_scan_ranges], the scan
    ranges assigned to the instance's host; its result is
    [total_split_size]. *)
Definition ComputeTotalSplitSize (per_node_scan_ranges : PerNodeScanRanges) : Z :=
  fold_left
    (fun total_split_size entry =>
       fold_left
         (fun total scan_range_params =>
            match hdfs_file_split (params_scan_range scan_range_params) with
            | None => total                                  (* [continue] *)
            | Some split => wrap64 (total + split_length split)
            end)
         (snd entry) total_split_size)
    per_node_scan_ranges 0.

(** The bytes of a list of assigned scan ranges. *)
Definition split_bytes (scan_ranges : list TScanRangeParams) : Z :=
  fold_right (fun p acc => GetScanRangeLength (params_scan_range p) + acc) 0 scan_ranges.

(** ** [Coordinator::PrepareCatalogUpdate] *)

(** Of [TCatalogUpdate], the set that the coordinator fills. *)
Record TCatalogUpdate : Type := mkCatalogUpdate {
  created_partitions : list string    (* a [std::set<string>] *)
}.

Section CatalogUpdate.
Context {build : Build}.

(** The result is the pair of the value returned and [*catalog_update]. *)
Definition PrepareCatalogUpdate (c : Coordinator) (catalog_update : TCatalogUpdate)
  : outcome (bool * TCatalogUpdate) :=
  DCHECK (has_called_wait_ c)
    (let created :=
       fold_left (fun s partition => sset_insert s (fst partition))
                 (partition_row_counts_ c) (created_partitions catalog_update) in
     Returned (negb (Nat.eqb (length created) 0), {| created_partitions := created |})).

End CatalogUpdate.

(** ** Vocabulary of the map properties *)


(** A [std::set<string>], as the embedding keeps it. *)
Fixpoint sset_sorted (s : list string) : Prop :=
  match s with
  | [] => True
  | k :: s' => Forall (fun k' => String.compare k k' = Lt) s' /\ sset_sorted s'
  end.



(** A final report of an insert: two partitions and two files. *)
Definition insert_report (backend : Z) : TReportExecStatusParams :=
  {| backend_num := backend; report_status := Status_OK;
     report_done := true; report_profile := [];
     report_error_log := None;
     insert_exec_status :=
       Some {| insert_num_appended_rows := [("p=1"%string, 10); ("p=2"%string, 5)];
               insert_files_to_move :=
                 [("tmp/f1"%string, "p=1/f1"%string); ("tmp"%string, ""%string)] |} |}.

(** *** Vocabulary of the planning properties *)

(** The hosts of the fragments from [i] on that send to exchange node
    [exch_id] of fragment [dest]; [rest] are the params from [i] on. *)
Fixpoint senders_from (info : TPlanExecInfo) (i : nat) (rest : list FragmentExecParams)
    (dest : Z) (exch_id : PlanNodeId) : Z :=
  match rest with
  | [] => 0
  | params :: rest' =>
      (if (nth (i - 1) (dest_fragment_idx info) (-1) =? dest)
          && (dest_node_id (fragment_sink info i) =? exch_id)
       then Z.of_nat (length (hosts params)) else 0)
      + senders_from info (S i) rest' dest exch_id
  end.

(** The number of senders a fragment expects at an exchange node. *)
Definition num_senders (per_exch_num_senders : list PerExchNumSenders)
    (dest : Z) (exch_id : PlanNodeId) : Z :=
  match map_find Z.eqb (nth (Z.to_nat dest) per_exch_num_senders []) exch_id with
  | Some n => n
  | None => 0
  end.

(** One destination per host of [dest_params], each with the instance id
    of the instance on that host. *)
Definition destinations_of (dest_params : FragmentExecParams)
  : list TPlanFragmentDestination :=
  map (fun dest => {| dest_fragment_instance_id := fst dest; dest_server := snd dest |})
      (combine (instance_ids dest_params) (hosts dest_params)).

(* ================================================================== *)
(** * Part II: properties *)
(* ================================================================== *)

(** ** [DCHECK] *)

Section DcheckFacts.
Context {build : Build}.

Lemma DCHECK_true {A} (k : outcome A) : DCHECK true k = k.
Proof. unfold DCHECK. now rewrite orb_true_r. Qed.

Lemma DCHECK_debug {A} (k : outcome A) :
  NDEBUG = false -> DCHECK false k = DcheckFailed.
Proof. intros Hd. unfold DCHECK. now rewrite Hd. Qed.

Lemma DCHECK_passed {A} (cond : bool) (k : outcome A) (x : A) :
  DCHECK cond k = Returned x -> k = Returned x.
Proof. unfold DCHECK. destruct (NDEBUG || cond); [auto | discriminate]. Qed.

Lemma DCHECK_bind_passed {A B} (cond : bool) (k : outcome A) (f : A -> outcome B) (y : B) :
  obind (DCHECK cond k) f = Returned y -> obind k f = Returned y.
Proof. unfold DCHECK. destruct (NDEBUG || cond); [auto | discriminate]. Qed.

End DcheckFacts.

(** ** Fixed-width arithmetic *)

Lemma wrap64_small z : - 2 ^ 63 <= z < 2 ^ 63 -> wrap64 z = z.
Proof.
  intros H. unfold wrap64. rewrite Z.mod_small; lia.
Qed.

Lemma wrap32_small z : - 2 ^ 31 <= z < 2 ^ 31 -> wrap32 z = z.
Proof.
  intros H. unfold wrap32. rewrite Z.mod_small; lia.
Qed.

(** ** Plan topology *)

Section PlanTopologyFacts.

Variable INVALID : PlanNodeId.

Lemma leftmost_loop_spec ns : forall fuel idx,
  (idx + fuel = length ns)%nat ->
  (forall j m, (idx <= j)%nat -> (j < leftmost_loop fuel ns idx)%nat ->
               nth_error ns j = Some m -> num_children m <> 0) /\
  (idx <= leftmost_loop fuel ns idx)%nat /\
  (leftmost_loop fuel ns idx = length ns \/
   exists n, nth_error ns (leftmost_loop fuel ns idx) = Some n /\ num_children n = 0).
Proof.
  induction fuel as [|fuel IH]; intros idx Hlen; simpl.
  - repeat split; [intros; lia | lia | left; lia].
  - destruct (nth_error ns idx) as [n|] eqn:Hn.
    + destruct (num_children n =? 0) eqn:Hc; simpl.
      * apply Z.eqb_eq in Hc.
        repeat split; [intros; lia | lia | right; exists n; auto].
      * apply Z.eqb_neq in Hc.
        destruct (IH (S idx)) as (Hbefore & Hle & Hend); [lia|].
        repeat split; [| lia | exact Hend].
        intros j m Hj Hlt Hm.
        destruct (Nat.eq_dec j idx) as [->|Hne].
        -- rewrite Hn in Hm. now inversion Hm; subst.
        -- apply (Hbefore j m); auto; lia.
    + apply nth_error_None in Hn. lia.
Qed.

Lemma match_types_in node types :
  In (node_type node) types -> match_types INVALID node types = node_id node.
Proof.
  induction types as [|t ts IH]; simpl; [tauto|].
  intros [->|Hin]; unfold node_type_eqb.
  - destruct (TPlanNodeType_eq_dec _ _); congruence.
  - destruct (TPlanNodeType_eq_dec _ _); auto.
Qed.

Lemma match_types_not_in node types :
  ~ In (node_type node) types -> match_types INVALID node types = INVALID.
Proof.
  induction types as [|t ts IH]; simpl; [tauto|].
  intros Hnin. unfold node_type_eqb.
  destruct (TPlanNodeType_eq_dec _ _) as [e|_]; [exfalso; auto | apply IH; tauto].
Qed.

(** C8. [FindLeftmostNode] looks at the first node of the flattened plan
    whose [num_children] is 0. If the plan has no such node the result is
    the INVALID sentinel. Otherwise the result is that node's id when its
    type is one of [types] and the sentinel when it is not (so, for a
    node id different from the sentinel, the id is returned iff the type
    is listed). *)
Theorem FindLeftmostNode_leftmost_leaf plan types :
  ((forall n, In n (nodes plan) -> num_children n <> 0) /\
   FindLeftmostNode INVALID plan types = INVALID)
  \/
  (exists i n,
      nth_error (nodes plan) i = Some n /\
      num_children n = 0 /\
      (forall j m, (j < i)%nat -> nth_error (nodes plan) j = Some m ->
                   num_children m <> 0) /\
      (In (node_type n) types ->
       FindLeftmostNode INVALID plan types = node_id n) /\
      (~ In (node_type n) types ->
       FindLeftmostNode INVALID plan types = INVALID) /\
      (node_id n <> INVALID ->
       (FindLeftmostNode INVALID plan types = node_id n <->
        In (node_type n) types))).
Proof.
  unfold FindLeftmostNode.
  destruct (leftmost_loop_spec (nodes plan) (length (nodes plan)) 0 eq_refl)
    as (Hbefore & _ & Hend).
  set (idx := leftmost_loop (length (nodes plan)) (nodes plan) 0) in *.
  destruct Hend as [Hall | (n & Hn & Hz)].
  - left. rewrite Hall, Nat.eqb_refl. split; [|reflexivity].
    intros n Hin. apply In_nth_error in Hin. destruct Hin as (j & Hj).
    apply (Hbefore j n); [lia | | exact Hj].
    rewrite Hall. apply nth_error_Some. congruence.
  - right. exists idx, n.
    assert (Hlt : (idx < length (nodes plan))%nat)
      by (apply nth_error_Some; congruence).
    destruct (Nat.eqb_spec idx (length (nodes plan))) as [e|_]; [lia|].
    rewrite Hn.
    repeat split; auto.
    + intros j m Hj Hm. apply (Hbefore j m); auto; lia.
    + apply match_types_in.
    + apply match_types_not_in.
    + intros Heq. destruct (in_dec TPlanNodeType_eq_dec (node_type n) types) as [i|ni];
        [exact i|].
      rewrite (match_types_not_in _ _ ni) in Heq. congruence.
    + apply match_types_in.
Qed.

End PlanTopologyFacts.

(** ** Instance ids *)

Section InstanceIdFacts.
Context {build : Build}.

Lemma assign_ids_loop_ok q n rem : forall j,
  is_int64 (lo q) -> 0 <= n -> 0 <= j ->
  n + j + Z.of_nat (length rem) < 2 ^ 31 ->
  rem = [] \/ lo q + n + j + Z.of_nat (length rem) < INT64_MAX ->
  assign_ids_loop q n j rem =
  Returned (map (fun k => {| hi := hi q; lo := lo q + n + j + Z.of_nat k + 1 |})
                (seq 0 (length rem))).
Proof.
  unfold is_int64, INT64_MAX.
  induction rem as [|h rem IH]; intros j Hq Hn Hj Hsz Hok; [reflexivity|].
  destruct Hok as [Hnil|Hok]; [discriminate|].
  cbn [assign_ids_loop length] in *.
  rewrite Nat2Z.inj_succ in *.
  rewrite (wrap32_small (n + j)) by lia.
  rewrite (wrap32_small (j + 1)) by lia.
  unfold INT64_MAX.
  rewrite (wrap64_small (2 ^ 63 - 1 - (n + j))) by lia.
  rewrite (wrap64_small (2 ^ 63 - 1 - (n + j) - 1)) by lia.
  rewrite (wrap64_small (lo q + (n + j))) by lia.
  rewrite (wrap64_small (lo q + (n + j) + 1)) by lia.
  destruct (Z.ltb_spec (lo q) (2 ^ 63 - 1 - (n + j) - 1)) as [_|Hge]; [|lia].
  unfold DCHECK. rewrite orb_true_r, IH; [| lia | lia | lia | lia | right; lia].
  cbn [obind seq map]. f_equal. f_equal.
  - f_equal. simpl. lia.
  - rewrite <- seq_shift, map_map. apply map_ext. intros k.
    f_equal. rewrite Nat2Z.inj_succ. lia.
Qed.

Lemma assign_ids_loop_overflow q n rem : forall j,
  NDEBUG = false ->
  is_int64 (lo q) -> 0 <= n -> 0 <= j ->
  n + j + Z.of_nat (length rem) < 2 ^ 31 ->
  rem <> [] -> INT64_MAX <= lo q + n + j + Z.of_nat (length rem) ->
  assign_ids_loop q n j rem = DcheckFailed.
Proof.
  unfold is_int64, INT64_MAX.
  induction rem as [|h rem IH]; intros j Hdebug Hq Hn Hj Hsz Hne Hov; [congruence|].
  cbn [assign_ids_loop length] in *.
  rewrite Nat2Z.inj_succ in *.
  rewrite (wrap32_small (n + j)) by lia.
  rewrite (wrap32_small (j + 1)) by lia.
  unfold INT64_MAX.
  rewrite (wrap64_small (2 ^ 63 - 1 - (n + j))) by lia.
  rewrite (wrap64_small (2 ^ 63 - 1 - (n + j) - 1)) by lia.
  unfold DCHECK. rewrite Hdebug. cbn [orb].
  destruct (Z.ltb_spec (lo q) (2 ^ 63 - 1 - (n + j) - 1)) as [Hlt|Hge];
    [|reflexivity].
  rewrite IH; [reflexivity | exact Hdebug | lia | lia | lia | lia | | lia].
  destruct rem; [cbn [length Z.of_nat] in *; lia | congruence].
Qed.

Lemma seq_offset h t : seq h t = map (fun k => (h + k)%nat) (seq 0 t).
Proof.
  revert h. induction t as [|t IH]; intro h; simpl; [reflexivity|].
  f_equal; [lia|].
  rewrite (IH (S h)), <- (seq_shift t 0), map_map.
  apply map_ext. intros k. lia.
Qed.

Lemma assign_instance_ids_ok q fep : forall n,
  is_int64 (lo q) -> 0 <= n ->
  n + Z.of_nat (total_instances fep) < 2 ^ 31 ->
  total_instances fep = O \/
    lo q + n + Z.of_nat (total_instances fep) < INT64_MAX ->
  exists fep',
    assign_instance_ids q n fep = Returned (fep', n + Z.of_nat (total_instances fep)) /\
    map hosts fep' = map hosts fep /\
    Forall2 (fun p p' => exists ids, instance_ids p' = instance_ids p ++ ids /\
                                     length ids = length (hosts p)) fep fep' /\
    concat (map (fun pp => skipn (length (instance_ids (fst pp))) (instance_ids (snd pp)))
                (combine fep fep')) =
    map (fun k => {| hi := hi q; lo := lo q + n + Z.of_nat k + 1 |})
        (seq 0 (total_instances fep)).
Proof.
  unfold total_instances.
  induction fep as [|p fep IH]; intros n Hq Hn Hsz Hok.
  - exists []. simpl. rewrite Z.add_0_r. repeat split; constructor.
  - cbn [map concat] in *. rewrite length_app in *. rewrite Nat2Z.inj_add in *.
    remember (length (concat (map hosts fep))) as t eqn:Et.
    assert (Hin : assign_ids_loop q n 0 (hosts p) =
                  Returned (map (fun k => {| hi := hi q; lo := lo q + n + 0 + Z.of_nat k + 1 |})
                                (seq 0 (length (hosts p))))).
    { apply assign_ids_loop_ok; [exact Hq | lia | lia | lia |].
      destruct (hosts p) eqn:E; [now left | right].
      destruct Hok as [H0|Hok]; [cbn [length] in H0; lia | lia]. }
    assert (Hw : wrap32 (n + Z.of_nat (length (hosts p))) = n + Z.of_nat (length (hosts p)))
      by (apply wrap32_small; lia).
    destruct (IH (n + Z.of_nat (length (hosts p)))) as (fep' & Hrun & Hhosts & Hall & Hids);
      [exact Hq | lia | lia | destruct Hok as [H0|Hok]; [left | right]; lia |].
    cbn [assign_instance_ids]. rewrite Hin, Hw. cbn [obind]. rewrite Hrun. cbn [obind].
    eexists. split; [f_equal; f_equal; lia|].
    cbn [map hosts]. split; [now rewrite Hhosts|].
    split.
    + constructor; [|exact Hall]. eexists. split; [reflexivity|].
      now rewrite length_map, length_seq.
    + cbn [combine map concat fst snd instance_ids].
      rewrite skipn_app, skipn_all, Nat.sub_diag. cbn [skipn app].
      rewrite Hids, seq_app, map_app. f_equal.
      * apply map_ext. intros k. f_equal. lia.
      * cbn [Nat.add].
        replace (seq (length (hosts p)) t)
          with (map (fun k => (length (hosts p) + k)%nat) (seq 0 t)).
        2:{ symmetry. apply seq_offset. }
        rewrite map_map. apply map_ext. intros k. f_equal.
        rewrite Nat2Z.inj_add. lia.
Qed.

Lemma assign_instance_ids_overflow q fep : forall n,
  NDEBUG = false ->
  is_int64 (lo q) -> 0 <= n ->
  n + Z.of_nat (total_instances fep) < 2 ^ 31 ->
  (0 < total_instances fep)%nat ->
  INT64_MAX <= lo q + n + Z.of_nat (total_instances fep) ->
  assign_instance_ids q n fep = DcheckFailed.
Proof.
  unfold total_instances.
  induction fep as [|p fep IH]; intros n Hdebug Hq Hn Hsz Hpos Hov;
    [simpl in Hpos; lia|].
  cbn [map concat] in *. rewrite length_app in *. rewrite Nat2Z.inj_add in *.
  remember (length (concat (map hosts fep))) as t eqn:Et.
  cbn [assign_instance_ids].
  destruct (Z_lt_le_dec (lo q + n + Z.of_nat (length (hosts p))) INT64_MAX) as [Hlt|Hge].
  - rewrite (assign_ids_loop_ok q n (hosts p) 0); [| exact Hq | lia | lia | lia | right; lia].
    cbn [obind].
    rewrite (wrap32_small (n + Z.of_nat (length (hosts p)))) by lia.
    rewrite IH; [reflexivity | exact Hdebug | exact Hq | lia | lia | lia | lia].
  - destruct (hosts p) as [|h0 hs] eqn:E.
    + cbn [assign_ids_loop obind length Z.of_nat Z.add] in *.
      rewrite Z.add_0_r in *.
      rewrite (wrap32_small n) by lia.
      rewrite IH; [reflexivity | exact Hdebug | exact Hq | lia | lia | lia | lia].
    + rewrite (assign_ids_loop_overflow q n (h0 :: hs) 0);
        [reflexivity | exact Hdebug | exact Hq | lia | lia | lia | congruence | lia].
Qed.

Lemma NoDup_map_inj {A B} (f : A -> B) (l : list A) :
  (forall x y, f x = f y -> x = y) -> NoDup l -> NoDup (map f l).
Proof.
  intros Hinj. induction 1 as [|x l Hx Hnd IH]; simpl; constructor; auto.
  rewrite in_map_iff. intros (y & Hy & Hin). apply Hinj in Hy. now subst.
Qed.

Lemma fresh_params_ids fep : forall fep',
  Forall (fun p => instance_ids p = []) fep ->
  Forall2 (fun p p' => exists ids, instance_ids p' = instance_ids p ++ ids /\
                                   length ids = length (hosts p)) fep fep' ->
  map hosts fep' = map hosts fep ->
  concat (map (fun pp => skipn (length (instance_ids (fst pp))) (instance_ids (snd pp)))
              (combine fep fep')) = concat (map instance_ids fep') /\
  Forall (fun p' => length (instance_ids p') = length (hosts p')) fep'.
Proof.
  induction fep as [|p fep IH]; intros fep' Hempty Hall Hhosts.
  - inversion Hall; subst. split; [reflexivity | constructor].
  - inversion Hall as [|? p' ? fep'' (ids & Hids & Hlen) Hrest]; subst.
    inversion Hempty as [|? ? Hp Hempty']; subst.
    cbn [map] in Hhosts. inversion Hhosts as [[Hh Hhs]].
    destruct (IH fep'' Hempty' Hrest Hhs) as (Hc & Hf).
    cbn [combine map concat fst snd]. rewrite Hc, Hp. cbn [length skipn].
    split; [reflexivity|].
    constructor; [|exact Hf].
    rewrite Hids, Hp, Hh. exact Hlen.
Qed.

(** In either build, when the last id stays below the largest [int64_t]
    the ids handed out by [ComputeFragmentExecParams] are, in the order of
    assignment, [(hi, lo + 1), (hi, lo + 2), ...] for the query id
    [(hi, lo)]: one per fragment instance and pairwise different. In a
    debug build a query id for which it would not stay below is stopped by
    the [DCHECK]. *)
Lemma instance_ids_globally_unique (q : TUniqueId) (fep : list FragmentExecParams) :
  is_int64 (lo q) ->
  Z.of_nat (total_instances fep) < 2 ^ 31 ->
  Forall (fun p => instance_ids p = []) fep ->
  (total_instances fep = O \/ lo q + Z.of_nat (total_instances fep) < INT64_MAX ->
   exists fep',
     assign_instance_ids q 0 fep = Returned (fep', Z.of_nat (total_instances fep)) /\
     map hosts fep' = map hosts fep /\
     Forall (fun p' => length (instance_ids p') = length (hosts p')) fep' /\
     concat (map instance_ids fep') =
       map (nth_instance_id q) (seq 0 (total_instances fep)) /\
     NoDup (concat (map instance_ids fep'))) /\
  (NDEBUG = false ->
   (0 < total_instances fep)%nat ->
   INT64_MAX <= lo q + Z.of_nat (total_instances fep) ->
   assign_instance_ids q 0 fep = DcheckFailed).
Proof.
  intros Hq Hsz Hempty. split.
  - intros Hok.
    destruct (assign_instance_ids_ok q fep 0) as (fep' & Hrun & Hhosts & Hall & Hids);
      [exact Hq | lia | lia | destruct Hok; [left | right]; lia |].
    exists fep'. rewrite Z.add_0_l in Hrun.
    destruct (fresh_params_ids fep fep' Hempty Hall Hhosts) as (Hskip & Hlen).
    assert (Hconcat : concat (map instance_ids fep') =
                      map (nth_instance_id q) (seq 0 (total_instances fep))).
    { rewrite <- Hskip, Hids. apply map_ext. intros k.
      unfold nth_instance_id. f_equal. lia. }
    repeat split; auto.
    rewrite Hconcat. apply NoDup_map_inj; [|apply seq_NoDup].
    intros a b Hab. unfold nth_instance_id in Hab. inversion Hab. lia.
  - intros Hdebug Hpos Hov.
    apply assign_instance_ids_overflow; [exact Hdebug | exact Hq | lia | lia | exact Hpos | lia].
Qed.

End InstanceIdFacts.

(** C9. The claim holds but for its last part in a release build: the
    overflow check is a [DCHECK_LT], and with [NDEBUG] the id assignment
    for the query id [(7, INT64_MAX)] with one instance is not rejected;
    it returns an instance id whose [lo] has wrapped around to the smallest
    [int64_t]. A debug build stops at the [DCHECK_LT]. *)
Theorem instance_id_overflow_not_rejected_in_release_build :
  let q := {| hi := 7; lo := INT64_MAX |} in
  let fep := [ hosts_only [host_X] ] in
  assign_instance_ids (build := release_build) q 0 fep
  = Returned ([ {| hosts := [host_X];
                   instance_ids := [ {| hi := 7; lo := - 2 ^ 63 |} ];
                   data_server_map := [] |} ], 1) /\
  assign_instance_ids (build := debug_build) q 0 fep = DcheckFailed.
Proof. split; vm_compute; reflexivity. Qed.

(** ** Association lists *)

Lemma hostport_eqb_eq a b : hostport_eqb a b = true <-> a = b.
Proof.
  unfold hostport_eqb. destruct (THostPort_eq_dec a b); split; congruence.
Qed.

Lemma hostport_eqb_refl a : hostport_eqb a a = true.
Proof. now apply hostport_eqb_eq. Qed.

Section AssocMapFacts.
Context {K V : Type} (eqb : K -> K -> bool).
Hypothesis eqb_eq : forall a b, eqb a b = true <-> a = b.

Lemma map_find_modify (m : list (K * V)) k d f k' :
  map_find eqb (modify_or_insert eqb m k d f) k' =
  if eqb k' k
  then Some (f (match map_find eqb m k with Some v => v | None => d end))
  else map_find eqb m k'.
Proof.
  induction m as [|[k0 v0] m IH]; simpl.
  - destruct (eqb k' k); reflexivity.
  - destruct (eqb k k0) eqn:E; simpl.
    + apply eqb_eq in E. subst k0. destruct (eqb k' k); reflexivity.
    + rewrite IH. destruct (eqb k' k) eqn:E'; [|reflexivity].
      apply eqb_eq in E'. subst k'. now rewrite E.
Qed.

Lemma modify_keys (m : list (K * V)) k d f k' :
  In k' (map fst (modify_or_insert eqb m k d f)) -> k' = k \/ In k' (map fst m).
Proof.
  induction m as [|[k0 v0] m IH]; simpl.
  - intros [<-|[]]. now left.
  - destruct (eqb k k0) eqn:E; simpl; [tauto|].
    intros [<-|Hin]; [tauto|]. apply IH in Hin. tauto.
Qed.


End AssocMapFacts.

Lemma bytes_of_modify abph h f h' :
  bytes_of (modify_or_insert hostport_eqb abph h 0 f) h' =
  if hostport_eqb h' h then f (bytes_of abph h) else bytes_of abph h'.
Proof.
  unfold bytes_of. rewrite (map_find_modify hostport_eqb hostport_eqb_eq).
  destruct (hostport_eqb h' h); reflexivity.
Qed.

(** ** Scan-range assignment *)

Lemma first_min_location_ext b1 b2 locs l :
  (forall h, b1 h = b2 h) ->
  first_min_location b1 locs l -> first_min_location b2 locs l.
Proof.
  intros Hext (pre & post & Heq & Hpre & Hpost).
  exists pre, post. repeat split; auto; intros x Hx; rewrite <- !Hext; auto.
Qed.

Lemma assigns_ext params b1 ranges out b1' :
  assigns params b1 ranges out b1' ->
  forall b2, (forall h, b1 h = b2 h) ->
  exists b2', assigns params b2 ranges out b2' /\ forall h, b1' h = b2' h.
Proof.
  induction 1 as [bytes | bytes r ranges l e out bytes' Hmin He Hrest IH];
    intros b2 Hext.
  - exists b2. split; [constructor | exact Hext].
  - destruct (IH (add_bytes b2 (server l) (GetScanRangeLength (scan_range r))))
      as (b2' & Hrun & Hext').
    { intros h. unfold add_bytes. rewrite Hext. reflexivity. }
    exists b2'. split; [|exact Hext'].
    econstructor; eauto using first_min_location_ext.
Qed.

Lemma choose_loop_search locs : forall abph acc seen,
  (forall h, bytes_of abph h < INT64_MAX) ->
  search_state (bytes_of abph) seen acc ->
  exists abph' acc',
    choose_loop abph acc locs = (abph', acc') /\
    (forall h, bytes_of abph' h = bytes_of abph h) /\
    search_state (bytes_of abph) (seen ++ locs) acc' /\
    (forall h, In h (map fst abph') ->
               In h (map fst abph) \/ In h (map server locs)).
Proof.
  induction locs as [|x locs IH]; intros abph [[m host] vol] seen Hlt Hacc.
  - exists abph, (m, host, vol). rewrite app_nil_r. simpl. auto.
  - cbn [choose_loop]. unfold FindOrInsert.
    set (abph1 := modify_or_insert hostport_eqb abph (server x) 0 (fun v => v)).
    assert (Hsame : forall h, bytes_of abph1 h = bytes_of abph h).
    { intros h. unfold abph1. rewrite bytes_of_modify.
      destruct (hostport_eqb h (server x)) eqn:E; [|reflexivity].
      apply hostport_eqb_eq in E. now subst. }
    change (match map_find hostport_eqb abph1 (server x) with
            | Some v => v | None => 0 end) with (bytes_of abph1 (server x)).
    rewrite Hsame.
    assert (Hkeys1 : forall h, In h (map fst abph1) ->
                               In h (map fst abph) \/ h = server x).
    { intros h Hin. apply modify_keys in Hin; tauto. }
    assert (Hnext : forall acc1,
               search_state (bytes_of abph) (seen ++ [x]) acc1 ->
               exists abph' acc',
                 choose_loop abph1 acc1 locs = (abph', acc') /\
                 (forall h, bytes_of abph' h = bytes_of abph h) /\
                 search_state (bytes_of abph) (seen ++ x :: locs) acc' /\
                 (forall h, In h (map fst abph') ->
                            In h (map fst abph) \/ In h (map server (x :: locs)))).
    { intros [[m1 host1] vol1] Hacc1.
      destruct (IH abph1 (m1, host1, vol1) (seen ++ [x])) as (abph' & acc' & Hrun & Hb & Hs & Hk).
      - intros h. rewrite Hsame. apply Hlt.
      - destruct Hacc1 as [(Hnil & _)|(l & Hmin & Hm & Hh & Hv)].
        + destruct seen; discriminate.
        + right. exists l. repeat split; auto.
          * eapply first_min_location_ext; [|exact Hmin]. intros; now rewrite Hsame.
          * now rewrite Hsame.
      - exists abph', acc'. split; [exact Hrun|]. split; [|split].
        + intros h. now rewrite Hb, Hsame.
        + rewrite <- app_assoc in Hs. simpl in Hs.
          destruct acc' as [[m' host'] vol'].
          destruct Hs as [Hs|(l & Hmin & Hm & Hh & Hv)]; [left; exact Hs|].
          right. exists l. repeat split; auto.
          * eapply first_min_location_ext; [|exact Hmin]. intros; now rewrite Hsame.
          * now rewrite <- Hsame.
        + intros h Hin. apply Hk in Hin. simpl.
          destruct Hin as [Hin|Hin]; [apply Hkeys1 in Hin|]; intuition. }
    destruct (Z.ltb_spec (bytes_of abph (server x)) m) as [Hless|Hge].
    + apply Hnext. right. exists x. repeat split; auto.
      exists seen, []. split; [reflexivity|]. split; [|intros ? []].
      intros y Hy.
      destruct Hacc as [(Hnil & _)|(l & (pre & post & Heq & Hpre & Hpost) & Hm & _)].
      * subst seen. destruct Hy.
      * subst seen m. apply in_app_or in Hy.
        destruct Hy as [Hy|[<-|Hy]]; [apply Hpre in Hy | | apply Hpost in Hy]; lia.
    + apply Hnext.
      destruct Hacc as [(Hnil & Hm & _)|(l & (pre & post & Heq & Hpre & Hpost) & Hm & Hh & Hv)].
      * subst m. specialize (Hlt (server x)). lia.
      * right. exists l. repeat split; auto.
        exists pre, (post ++ [x]). subst seen. rewrite <- app_assoc. simpl.
        split; [reflexivity|]. split; [exact Hpre|].
        intros y Hy. apply in_app_or in Hy.
        destruct Hy as [Hy|[<-|[]]]; [now apply Hpost | lia].
Qed.

Section ScanRangeFacts.
Context {build : Build}.

Lemma assign_scan_range_step node params abph asg r B :
  hosts params <> [] ->
  (length (hosts params) = 1%nat \/
   forall l, In l (locations r) ->
             map_find hostport_eqb (data_server_map params) (server l) <> None) ->
  locations r <> [] ->
  0 <= GetScanRangeLength (scan_range r) ->
  (forall h, 0 <= bytes_of abph h <= B) ->
  B + GetScanRangeLength (scan_range r) < INT64_MAX ->
  exists l e abph',
    assign_scan_range node params (abph, asg) r =
      Returned (abph',
                modify_or_insert hostport_eqb asg e []
                  (fun scan_ranges =>
                     modify_or_insert Z.eqb scan_ranges node []
                       (fun x => x ++ [{| params_scan_range := scan_range r;
                                          params_volume_id := Some (volume_id l) |}]))) /\
    first_min_location (bytes_of abph) (locations r) l /\
    exec_host_for params (server l) = Some e /\
    (forall h, bytes_of abph' h =
               add_bytes (bytes_of abph) (server l) (GetScanRangeLength (scan_range r)) h) /\
    (forall h, In h (map fst abph') ->
               In h (map fst abph) \/ In h (map server (locations r))).
Proof.
  intros Hhost Hmapped Hrep Hlen Hb HB.
  destruct (choose_loop_search (locations r) abph (INT64_MAX, None, -1) [])
    as (abph1 & [[m host] vol] & Hrun & Hsame & Hs & Hkeys).
  { intros h. specialize (Hb h). lia. }
  { left. auto. }
  simpl app in Hs.
  destruct Hs as [(Hnil & _)|(l & Hmin & Hm & Hh & Hv)]; [contradiction|].
  subst host vol.
  assert (Hl : In l (locations r)).
  { destruct Hmin as (pre & post & Heq & _). rewrite Heq. apply in_elt. }
  assert (Hexec : exists e,
             exec_host_for params (server l) = Some e /\
             (if (length (hosts params) =? 1)%nat
              then match hosts params with
                   | h :: _ => Returned h
                   | [] => InvalidAccess
                   end
              else match map_find hostport_eqb (data_server_map params) (server l) with
                   | Some h => Returned h
                   | None => DCHECK false InvalidAccess
                   end) = Returned e).
  { unfold exec_host_for.
    destruct (hosts params) as [|h0 [|h1 hs]] eqn:Eh; [contradiction | |].
    - exists h0. simpl. auto.
    - destruct Hmapped as [H1|Hmapped]; [simpl in H1; discriminate|].
      specialize (Hmapped l Hl).
      destruct (map_find hostport_eqb (data_server_map params) (server l)) as [e|];
        [|contradiction].
      exists e. simpl. auto. }
  destruct Hexec as (e & He & Hcode).
  exists l, e.
  eexists. unfold assign_scan_range. rewrite Hrun.
  assert (Hpos : (0 <? length (hosts params))%nat = true).
  { apply Nat.ltb_lt. destruct (hosts params); [contradiction | simpl; lia]. }
  rewrite Hpos, DCHECK_true, Hcode. cbn [obind].
  split; [reflexivity|]. split; [exact Hmin|]. split; [exact He|]. split.
  - intros h. rewrite bytes_of_modify. unfold add_bytes.
    destruct (hostport_eqb h (server l)) eqn:E; [|apply Hsame].
    apply hostport_eqb_eq in E. subst h. rewrite Hsame.
    apply wrap64_small. specialize (Hb (server l)). unfold INT64_MAX in HB. lia.
  - intros h Hin. apply modify_keys in Hin.
    destruct Hin as [->|Hin]; [|now apply Hkeys].
    right. now apply in_map.
Qed.

Lemma ranges_under_modify scan_ranges node p node' :
  ranges_under (modify_or_insert Z.eqb scan_ranges node [] (fun x => x ++ [p])) node' =
  ranges_under scan_ranges node' ++ (if Z.eqb node' node then [p] else []).
Proof.
  unfold ranges_under. rewrite (map_find_modify Z.eqb Z.eqb_eq).
  destruct (Z.eqb_spec node' node) as [->|_]; [|now rewrite app_nil_r].
  destruct (map_find Z.eqb scan_ranges node); reflexivity.
Qed.

Lemma assigned_ranges_modify asg e node p e' :
  assigned_ranges
    (modify_or_insert hostport_eqb asg e []
       (fun scan_ranges => modify_or_insert Z.eqb scan_ranges node [] (fun x => x ++ [p])))
    e' node =
  assigned_ranges asg e' node ++ (if hostport_eqb e' e then [p] else []).
Proof.
  unfold assigned_ranges. rewrite (map_find_modify hostport_eqb hostport_eqb_eq).
  destruct (hostport_eqb e' e) eqn:E.
  - apply hostport_eqb_eq in E. subst e'. rewrite ranges_under_modify, Z.eqb_refl.
    destruct (@map_find THostPort PerNodeScanRanges hostport_eqb asg e); reflexivity.
  - now rewrite app_nil_r.
Qed.

Lemma all_assigned_ranges_modify asg e node p :
  Permutation
    (all_assigned_ranges
       (modify_or_insert hostport_eqb asg e []
          (fun scan_ranges => modify_or_insert Z.eqb scan_ranges node [] (fun x => x ++ [p])))
       node)
    (all_assigned_ranges asg node ++ [p]).
Proof.
  unfold all_assigned_ranges.
  induction asg as [|[h sr] asg IH].
  - unfold ranges_under. simpl. now rewrite Z.eqb_refl.
  - cbn [modify_or_insert]. destruct (hostport_eqb e h); cbn [flat_map snd].
    + rewrite ranges_under_modify, Z.eqb_refl, <- !app_assoc.
      apply Permutation_app_head, Permutation_app_comm.
    + rewrite <- app_assoc. now apply Permutation_app_head.
Qed.

Lemma scan_range_loop_assigns node params ranges : forall abph asg B,
  hosts params <> [] ->
  (length (hosts params) = 1%nat \/
   forall r l, In r ranges -> In l (locations r) ->
               map_find hostport_eqb (data_server_map params) (server l) <> None) ->
  (forall r, In r ranges -> locations r <> []) ->
  (forall r, In r ranges -> 0 <= GetScanRangeLength (scan_range r)) ->
  (forall h, 0 <= bytes_of abph h <= B) ->
  B + total_length ranges < INT64_MAX ->
  exists abph' asg' out bytes',
    scan_range_loop node params (abph, asg) ranges = Returned (abph', asg') /\
    assigns params (bytes_of abph) ranges out bytes' /\
    (forall h, bytes_of abph' h = bytes' h) /\
    map (fun d => params_scan_range (snd d)) out = map scan_range ranges /\
    (forall e, assigned_ranges asg' e node =
               assigned_ranges asg e node ++
               map snd (filter (fun d => hostport_eqb e (fst d)) out)) /\
    Permutation (all_assigned_ranges asg' node)
                (all_assigned_ranges asg node ++ map snd out) /\
    (forall h, In h (map fst abph') ->
               In h (map fst abph) \/
               exists r l, In r ranges /\ In l (locations r) /\ server l = h).
Proof.
  induction ranges as [|r ranges IH]; intros abph asg B Hhost Hmapped Hrep Hlen Hb HB.
  - exists abph, asg, [], (bytes_of abph). simpl.
    repeat split; auto using assigns_nil; intros; now rewrite app_nil_r.
  - cbn [total_length fold_right] in HB. fold (total_length ranges) in HB.
    assert (Hlr : 0 <= GetScanRangeLength (scan_range r)) by (apply Hlen; now left).
    assert (Htl : 0 <= total_length ranges).
    { clear - Hlen. induction ranges as [|r' rs IHr]; simpl; [lia|].
      assert (0 <= GetScanRangeLength (scan_range r')) by (apply Hlen; simpl; auto).
      assert (0 <= total_length rs) by (apply IHr; intros; apply Hlen; simpl in *; tauto).
      unfold total_length in *. lia. }
    destruct (assign_scan_range_step node params abph asg r B)
      as (l & e & abph1 & Hstep & Hmin & He & Hb1 & Hk1); auto.
    { destruct Hmapped as [H1|Hm]; [now left | right].
      intros l Hl. apply (Hm r l); simpl; auto. }
    { apply Hrep. now left. }
    { lia. }
    match type of Hstep with _ = Returned (_, ?a) => set (asg1 := a) in * end.
    destruct (IH abph1 asg1 (B + GetScanRangeLength (scan_range r)))
      as (abph' & asg' & out & bytes' & Hrun & Hassigns & Hb' & Hmap & Hper & Hperm & Hk');
      auto.
    { destruct Hmapped as [H1|Hm]; [now left | right].
      intros r' l' Hr' Hl'. apply (Hm r' l'); simpl; auto. }
    { intros r' Hr'. apply Hrep. now right. }
    { intros r' Hr'. apply Hlen. now right. }
    { intros h. rewrite Hb1. unfold add_bytes. specialize (Hb h).
      destruct (hostport_eqb h (server l)); lia. }
    { lia. }
    destruct (assigns_ext _ _ _ _ _ Hassigns
                (add_bytes (bytes_of abph) (server l) (GetScanRangeLength (scan_range r))) Hb1)
      as (bytes'' & Hassigns' & Hext).
    exists abph', asg',
      ((e, {| params_scan_range := scan_range r;
              params_volume_id := Some (volume_id l) |}) :: out), bytes''.
    cbn [scan_range_loop]. rewrite Hstep. cbn [obind].
    split; [exact Hrun|]. split; [econstructor; eauto|].
    split; [intros h; now rewrite Hb', Hext|].
    split; [cbn [map snd params_scan_range]; now rewrite Hmap|].
    split; [|split].
    + intros e'. rewrite Hper. unfold asg1. rewrite assigned_ranges_modify.
      cbn [filter fst]. rewrite <- app_assoc.
      destruct (hostport_eqb e' e); reflexivity.
    + rewrite Hperm. unfold asg1. rewrite all_assigned_ranges_modify.
      cbn [map snd]. rewrite <- app_assoc. reflexivity.
    + intros h Hin. apply Hk' in Hin.
      destruct Hin as [Hin|(r' & l' & Hr' & Hl' & Hs)].
      * apply Hk1 in Hin. destruct Hin as [Hin|Hin]; [now left | right].
        apply in_map_iff in Hin. destruct Hin as (l' & Hs & Hl').
        exists r, l'. simpl. auto.
      * right. exists r', l'. simpl. auto.
Qed.

Lemma assigned_ranges_modify_other asg e node p e' node' :
  node' <> node ->
  assigned_ranges
    (modify_or_insert hostport_eqb asg e []
       (fun scan_ranges => modify_or_insert Z.eqb scan_ranges node [] (fun x => x ++ [p])))
    e' node' =
  assigned_ranges asg e' node'.
Proof.
  intros Hne. unfold assigned_ranges.
  rewrite (map_find_modify hostport_eqb hostport_eqb_eq).
  destruct (hostport_eqb e' e) eqn:E; [|reflexivity].
  apply hostport_eqb_eq in E. subst e'. rewrite ranges_under_modify.
  destruct (Z.eqb_spec node' node) as [|_]; [contradiction|]. rewrite app_nil_r.
  destruct (@map_find THostPort PerNodeScanRanges hostport_eqb asg e); reflexivity.
Qed.

(** The assignment of a node's ranges leaves the ranges of the other nodes
    where they are. *)
Lemma scan_range_loop_frame node params ranges : forall st st',
  scan_range_loop node params st ranges = Returned st' ->
  forall e node', node' <> node ->
    assigned_ranges (snd st') e node' = assigned_ranges (snd st) e node'.
Proof.
  induction ranges as [|r ranges IH]; intros st st' Hrun e node' Hne;
    cbn [scan_range_loop] in Hrun.
  - now inversion Hrun.
  - destruct (assign_scan_range node params st r) as [st1| | |] eqn:Es;
      simpl in Hrun; try discriminate.
    rewrite (IH _ _ Hrun e node' Hne). clear Hrun IH.
    unfold assign_scan_range in Es. destruct st as [abph asg].
    destruct (choose_loop abph (INT64_MAX, None, -1) (locations r))
      as [abph1 [[m host] vol]].
    destruct host as [data_host|]; [|discriminate].
    apply DCHECK_passed in Es.
    match type of Es with
    | obind ?x _ = _ => destruct x as [exec_hostport| | |]; simpl in Es; try discriminate
    end.
    inversion Es; subst. cbn [snd]. now apply assigned_ranges_modify_other.
Qed.

(** C3, as amended. On an input the assignment code accepts,
    [ComputeScanRangeAssignment] returns, whatever the assignment it is
    given holds already. Going through the ranges in input order it picks
    for each the first replica whose data host has the fewest bytes
    assigned so far, adds the range's length (that of its file split, 0
    without one) to that host's total, and sends the range to the host's
    execution host ([assigns]); these decisions [out] are one per input
    range ([map ... out = map scan_range ranges]); the list the result
    holds for the node at each execution host is the list it held followed
    by the decisions for that host, and the lists of the other nodes are
    as they were: the ranges added over all hosts are the input's, each
    once. *)
Theorem scan_range_assignment_emits_each_range_once
    (node : PlanNodeId) (params : FragmentExecParams)
    (ranges : list TScanRangeLocations) (assignment : FragmentScanRangeAssignment) :
  assignable params ranges ->
  exists abph asg out bytes',
    scan_range_loop node params ([], assignment) ranges = Returned (abph, asg) /\
    ComputeScanRangeAssignment node ranges params assignment = Returned asg /\
    assigns params (fun _ => 0) ranges out bytes' /\
    (forall h, bytes_of abph h = bytes' h) /\
    map (fun d => params_scan_range (snd d)) out = map scan_range ranges /\
    (forall e, assigned_ranges asg e node =
               assigned_ranges assignment e node ++
               map snd (filter (fun d => hostport_eqb e (fst d)) out)) /\
    (forall e node', node' <> node ->
               assigned_ranges asg e node' = assigned_ranges assignment e node') /\
    Permutation (all_assigned_ranges asg node)
                (all_assigned_ranges assignment node ++ map snd out) /\
    Permutation (map params_scan_range (all_assigned_ranges asg node))
                (map params_scan_range (all_assigned_ranges assignment node)
                 ++ map scan_range ranges).
Proof.
  intros [Hhost Hmapped Hrep Hlen Hfit].
  destruct (scan_range_loop_assigns node params ranges [] assignment 0)
    as (abph & asg & out & bytes' & Hrun & Hassigns & Hb & Hmap & Hper & Hperm & _); auto.
  { intros h. unfold bytes_of. simpl. lia. }
  exists abph, asg, out, bytes'.
  split; [exact Hrun|].
  split.
  { unfold ComputeScanRangeAssignment.
    match goal with
    | |- obind ?run _ = _ =>
        replace run with (Returned (abph, asg)) by (symmetry; exact Hrun)
    end. reflexivity. }
  split; [exact Hassigns|]. split; [exact Hb|]. split; [exact Hmap|].
  split; [exact Hper|].
  split; [intros e node' Hne; exact (scan_range_loop_frame _ _ _ _ _ Hrun e node' Hne)|].
  split; [exact Hperm|].
  rewrite <- Hmap, <- (map_map snd params_scan_range), <- map_app.
  apply Permutation_map. exact Hperm.
Qed.

End ScanRangeFacts.

Ltac in_cases :=
  repeat match goal with
         | H : In _ (_ :: _) |- _ => destruct H as [H|H]; [subst; simpl in * |]
         | H : In _ [] |- _ => destruct H
         | H : _ \/ _ |- _ => destruct H as [H|H]; [subst; simpl in * |]
         | H : False |- _ => destruct H
         end.

Lemma replicated_ranges_assignable : assignable two_host_params replicated_ranges.
Proof.
  constructor.
  - discriminate.
  - right. intros r l Hr Hl. unfold replicated_ranges in Hr.
    in_cases; discriminate.
  - intros r Hr. unfold replicated_ranges in Hr. in_cases; discriminate.
  - intros r Hr. unfold replicated_ranges in Hr. in_cases; vm_compute; discriminate.
  - vm_compute. reflexivity.
Qed.


(** The theorem at three 100-byte ranges replicated on two hosts, for an
    assignment that is empty before. *)
Lemma scan_range_assignment_emits_each_range_once_witness :
  assignable two_host_params replicated_ranges /\
  exists asg,
    ComputeScanRangeAssignment (build := release_build)
      5 replicated_ranges two_host_params [] = Returned asg /\
    Permutation (map params_scan_range (all_assigned_ranges asg 5))
                (map scan_range replicated_ranges).
Proof.
  split; [exact replicated_ranges_assignable|].
  destruct (scan_range_assignment_emits_each_range_once (build := release_build)
              5 two_host_params replicated_ranges [] replicated_ranges_assignable)
    as (abph & asg & out & bytes' & _ & Hrun & _ & _ & _ & _ & _ & _ & Hperm).
  exists asg. split; [exact Hrun | exact Hperm].
Defined.

(** C3 as stated fails: not for every input list does the assignment emit
    every range as described. A range without a replica makes it
    dereference NULL; so does a range on a host whose total has reached the
    largest [int64_t], which no total is below; with several hosts a data
    host that is not in [data_server_map] makes it dereference [end()],
    after a [DCHECK] in a debug build. And totals wrap around: after three
    ranges of length [- 2 ^ 62] the total of [host_X] is [2 ^ 62], so the
    fourth range, which is on both hosts, goes to [host_Y], whose total 0
    is above the sum [- 3 * 2 ^ 62] of the lengths given to [host_X]. *)
Lemma scan_range_assignment_rejects_an_input :
  (forall build : Build,
      ComputeScanRangeAssignment 5 range_without_replica two_host_params []
      = InvalidAccess) /\
  (forall build : Build,
      ComputeScanRangeAssignment 5 saturating_ranges two_host_params []
      = InvalidAccess) /\
  ComputeScanRangeAssignment (build := release_build) 5 replicated_ranges
    (hosts_only [host_X; host_Y]) [] = InvalidAccess /\
  ComputeScanRangeAssignment (build := debug_build) 5 replicated_ranges
    (hosts_only [host_X; host_Y]) [] = DcheckFailed /\
  (forall build : Build,
   exists abph asg,
     scan_range_loop 5 two_host_params ([], []) underflowing_ranges
     = Returned (abph, asg) /\
     bytes_of abph host_X = 2 ^ 62 /\
     bytes_of abph host_Y = 100 /\
     map params_scan_range (assigned_ranges asg host_Y 5)
     = [scan_range (file_range "d" 100 [host_X; host_Y])]).
Proof.
  split; [|split; [|split; [|split]]].
  - intros [[|]]; vm_compute; reflexivity.
  - intros [[|]]; vm_compute; reflexivity.
  - vm_compute. reflexivity.
  - vm_compute. reflexivity.
  - intros [[|]]; eexists _, _; (split; [vm_compute; reflexivity|]);
      repeat split; reflexivity.
Qed.

(** ** Balance of the assigned bytes *)



Section BalanceFacts.
Context {build : Build}.



End BalanceFacts.




(** ** Status *)

Lemma AddErrorMsg_not_ok s msg : ok (AddErrorMsg s msg) = false.
Proof.
  unfold AddErrorMsg. destruct (ok s) eqn:E; [reflexivity|].
  unfold ok in *. simpl. exact E.
Qed.

Lemma AddError_not_ok s other : ok s = false -> ok (AddError s other) = false.
Proof.
  intros Hs. unfold AddError. destruct (ok other); [exact Hs|].
  rewrite Hs. unfold ok in *. simpl. exact Hs.
Qed.

(** ** Vectors *)

Lemma vector_store_spec {A} (v : list A) : forall i x v',
  vector_store v i x = Returned v' ->
  length v' = length v /\ (i < length v)%nat /\
  forall j, nth_error v' j = if Nat.eqb j i then Some x else nth_error v j.
Proof.
  induction v as [|y v IH]; intros [|i] x v' Hs; simpl in Hs; try discriminate.
  - inversion Hs; subst. simpl. repeat split; [lia|]. intros [|j]; reflexivity.
  - destruct (vector_store v i x) as [v''| | |] eqn:E; simpl in Hs; try discriminate.
    inversion Hs; subst. destruct (IH _ _ _ E) as (Hlen & Hlt & Hnth).
    simpl. repeat split; [lia | lia |]. intros [|j]; [reflexivity | apply Hnth].
Qed.

Lemma vector_store_ok {A} (v : list A) : forall i x,
  (i < length v)%nat -> exists v', vector_store v i x = Returned v'.
Proof.
  induction v as [|y v IH]; intros [|i] x Hlt; simpl in *; try lia; eauto.
  destruct (IH i x) as (v' & ->); [lia|]. simpl. eauto.
Qed.

(** ** Cancellation *)

Lemma cancel_exec_state_failed env i es :
  ok (status es) = false -> cancel_exec_state env i es = (es, []).
Proof. intros H. unfold cancel_exec_state. now rewrite H. Qed.

Lemma record_cancel_result_not_ok es res :
  ok (status es) = false -> ok (status (record_cancel_result es res)) = false.
Proof.
  intros H. unfold record_cancel_result. destruct (ok res); [exact H|].
  simpl. apply AddErrorMsg_not_ok.
Qed.

Lemma cancel_exec_state_not_ok env i es :
  ok (status (fst (cancel_exec_state env i es))) = false.
Proof.
  unfold cancel_exec_state.
  destruct (ok (status es)) eqn:E; simpl; [|exact E].
  destruct (initiated es); simpl; [|reflexivity].
  destruct (done es); simpl; [reflexivity|].
  destruct (ok (cancel_GetClient env i)); simpl; [|reflexivity].
  destruct (cancel_first env i); simpl.
  - now apply record_cancel_result_not_ok.
  - destruct (ok (cancel_ReopenClient env i)); simpl.
    + destruct (cancel_retry env i); simpl.
      * now apply record_cancel_result_not_ok.
      * apply AddErrorMsg_not_ok.
    + now apply AddError_not_ok.
Qed.


Lemma cancel_rpcs_repeat i k n :
  cancel_rpcs i (repeat (EvCancelPlanFragment k) n) = if Nat.eqb i k then n else O.
Proof.
  unfold cancel_rpcs. induction n as [|n IH]; simpl.
  - destruct (Nat.eqb i k); reflexivity.
  - destruct (Nat.eqb i k); simpl; [now rewrite IH | exact IH].
Qed.

Lemma cancel_rpcs_app i evs evs' :
  cancel_rpcs i (evs ++ evs') = (cancel_rpcs i evs + cancel_rpcs i evs')%nat.
Proof. unfold cancel_rpcs. now rewrite filter_app, length_app. Qed.

(** The calls made for one exec state: none, one, or two when the first
    throws and the client could be reopened. *)
Lemma cancel_exec_state_events env k es :
  exists n,
    snd (cancel_exec_state env k es) = repeat (EvCancelPlanFragment k) n /\
    (n <= 2)%nat /\
    (0 < n -> ok (status es) = true /\ initiated es = true /\ done es = false /\
              ok (cancel_GetClient env k) = true)%nat /\
    (n = 2%nat -> (exists what, cancel_first env k = TransportException what) /\
                  ok (cancel_ReopenClient env k) = true).
Proof.
  unfold cancel_exec_state.
  destruct (ok (status es)) eqn:E1; simpl;
    [|exists O; repeat split; simpl; intros; lia].
  destruct (initiated es) eqn:E2; simpl;
    [|exists O; repeat split; simpl; intros; lia].
  destruct (done es) eqn:E3; simpl;
    [exists O; repeat split; simpl; intros; lia|].
  destruct (ok (cancel_GetClient env k)) eqn:E4; simpl;
    [|exists O; repeat split; simpl; intros; lia].
  destruct (cancel_first env k) as [res|what] eqn:E5; simpl.
  - exists 1%nat. repeat split; auto; intros; lia.
  - destruct (ok (cancel_ReopenClient env k)) eqn:E6; simpl.
    + destruct (cancel_retry env k); simpl;
        exists 2%nat; repeat split; eauto.
    + exists 1%nat. repeat split; auto; intros; lia.
Qed.

Lemma cancel_loop_spec env states : forall k states' evs,
  cancel_loop env k states = Returned (states', evs) ->
  length states' = length states /\
  (forall j, nth_error states j <> Some None) /\
  (forall j es, nth_error states j = Some (Some es) ->
                nth_error states' j = Some (Some (fst (cancel_exec_state env (k + j) es)))) /\
  (forall i, cancel_rpcs i evs =
             match nth_error states (i - k) with
             | Some (Some es) =>
                 if (k <=? i)%nat
                 then cancel_rpcs i (snd (cancel_exec_state env i es))
                 else O
             | _ => O
             end).
Proof.
  induction states as [|[es|] states IH]; intros k states' evs Hrun; simpl in Hrun.
  - inversion Hrun; subst. repeat split; intros.
    + destruct j; discriminate.
    + destruct j; discriminate.
    + destruct (i - k)%nat; reflexivity.
  - destruct (cancel_exec_state env k es) as [es' ev] eqn:Ec.
    destruct (cancel_loop env (S k) states) as [[states'' evs']| | |] eqn:El;
      simpl in Hrun; try discriminate.
    inversion Hrun; subst. destruct (IH _ _ _ El) as (Hlen & Hnone & Hnth & Hcount).
    repeat split.
    + simpl. lia.
    + intros [|j]; simpl; [discriminate | apply Hnone].
    + intros [|j] es0 Hj; cbn [nth_error] in *.
      * inversion Hj; subst. rewrite Nat.add_0_r, Ec. reflexivity.
      * rewrite (Hnth j es0 Hj). replace (k + S j)%nat with (S k + j)%nat by lia.
        reflexivity.
    + intros i. rewrite cancel_rpcs_app, Hcount.
      destruct (cancel_exec_state_events env k es) as (n & Hn & _).
      rewrite Ec in Hn. simpl in Hn. rewrite Hn, cancel_rpcs_repeat.
      destruct (Nat.eqb_spec i k) as [->|Hne].
      * rewrite Nat.sub_diag. cbn [nth_error]. rewrite Nat.leb_refl, Ec. simpl snd.
        rewrite Hn, cancel_rpcs_repeat, Nat.eqb_refl.
        replace (k - S k)%nat with O by lia.
        destruct (Nat.leb_spec (S k) k); [lia|].
        destruct (nth_error states 0) as [[?|]|]; lia.
      * destruct (Nat.leb_spec k i) as [Hle|Hgt].
        -- replace (i - k)%nat with (S (i - S k)) by lia. cbn [nth_error].
           destruct (Nat.leb_spec (S k) i); [reflexivity | lia].
        -- replace (i - k)%nat with O by lia. cbn [nth_error].
           destruct (Nat.leb_spec (S k) i); [lia|].
           destruct (nth_error states (i - S k)) as [[?|]|]; reflexivity.
  - discriminate.
Qed.

Section StatusReportFacts.
Context {build : Build}.

Lemma CancelInternal_spec env c c' evs :
  CancelInternal env c = Returned (c', evs) ->
  (exists states, c' = set_backend_exec_states_ c states) /\
  length (backend_exec_states_ c') = length (backend_exec_states_ c) /\
  (forall j, nth_error (backend_exec_states_ c) j <> Some None) /\
  (forall j es, nth_error (backend_exec_states_ c) j = Some (Some es) ->
                nth_error (backend_exec_states_ c') j =
                Some (Some (fst (cancel_exec_state env j es)))) /\
  (forall i, cancel_rpcs i evs =
             match nth_error (backend_exec_states_ c) i with
             | Some (Some es) => cancel_rpcs i (snd (cancel_exec_state env i es))
             | _ => O
             end).
Proof.
  unfold CancelInternal. intros Hrun. apply DCHECK_passed in Hrun.
  destruct (cancel_loop env 0 (backend_exec_states_ c)) as [[states evs0]| | |] eqn:El;
    simpl in Hrun; try discriminate.
  inversion Hrun; subst. clear Hrun.
  destruct (cancel_loop_spec _ _ _ _ _ El) as (Hlen & Hnone & Hnth & Hcount).
  split; [eauto|]. simpl.
  split; [exact Hlen|]. split; [exact Hnone|]. split; [exact Hnth|].
  intros i. rewrite !cancel_rpcs_app, Hcount, Nat.sub_0_r. simpl.
  assert (Hloc : cancel_rpcs i match executor_ c with
                               | Some _ => [EvExecutorCancel]
                               | None => []
                               end = O) by (destruct (executor_ c); reflexivity).
  rewrite Hloc. unfold cancel_rpcs at 2. simpl. lia.
Qed.

Lemma CancelInternal_keeps_failed env c c' evs i :
  CancelInternal env c = Returned (c', evs) ->
  instance_failed c i -> instance_failed c' i.
Proof.
  intros Hrun (es & Hnth & Hes).
  destruct (CancelInternal_spec _ _ _ _ Hrun) as (_ & _ & _ & Hstates & _).
  exists es. split; [|exact Hes].
  rewrite (Hstates i es Hnth), (cancel_exec_state_failed env i es Hes). reflexivity.
Qed.

Lemma UpdateStatus_keeps_failed env st c qst c' evs i :
  UpdateStatus env st c = Returned (qst, c', evs) ->
  instance_failed c i -> instance_failed c' i.
Proof.
  unfold UpdateStatus. intros Hrun Hi.
  destruct (ok st); [inversion Hrun; now subst|].
  destruct (ok (query_status_ c)); simpl in Hrun; [|inversion Hrun; now subst].
  destruct (CancelInternal env (set_query_status_ c st)) as [[c1 evs1]| | |] eqn:Ec;
    simpl in Hrun; try discriminate.
  inversion Hrun; subst.
  eapply CancelInternal_keeps_failed; [exact Ec | exact Hi].
Qed.

Lemma UpdateStatus_spec env st c q c' evs :
  UpdateStatus env st c = Returned (q, c', evs) ->
  q = query_status_ c' /\
  exists states qs, c' = set_backend_exec_states_ (set_query_status_ c qs) states.
Proof.
  unfold UpdateStatus. intros Hrun.
  assert (Hsame : c = set_backend_exec_states_ (set_query_status_ c (query_status_ c))
                                               (backend_exec_states_ c))
    by (destruct c; reflexivity).
  destruct (ok st); [inversion Hrun; subst; split; eauto|].
  destruct (ok (query_status_ c)); simpl in Hrun; [|inversion Hrun; subst; split; eauto].
  destruct (CancelInternal env (set_query_status_ c st)) as [[c1 evs1]| | |] eqn:Ec;
    simpl in Hrun; try discriminate.
  inversion Hrun; subst.
  destruct (CancelInternal_spec _ _ _ _ Ec) as ((states & ->) & _).
  split; eauto.
Qed.

Lemma UpdateNumScanRangesCompleted_status es es' delta :
  UpdateNumScanRangesCompleted es = Returned (es', delta) -> status es' = status es.
Proof.
  unfold UpdateNumScanRangesCompleted. intros Hrun.
  apply DCHECK_passed in Hrun. inversion Hrun. reflexivity.
Qed.

Lemma UpdateFragmentExecStatus_keeps_failed env params c st c' evs i :
  NDEBUG = false ->
  UpdateFragmentExecStatus env params c = Returned (st, c', evs) ->
  instance_failed c i -> instance_failed c' i.
Proof.
  unfold UpdateFragmentExecStatus. intros Hdebug Hrun Hi.
  destruct ((backend_num params <? 0)
            || (Z.of_nat (length (backend_exec_states_ c)) <=? backend_num params));
    [inversion Hrun; now subst|].
  set (k := Z.to_nat (backend_num params)) in *.
  destruct (nth_error (backend_exec_states_ c) k) as [[exec_state|]|] eqn:Ek;
    try discriminate.
  destruct (update_exec_state exec_state params) as [[es delta]| | |] eqn:Eu;
    simpl in Hrun; try discriminate.
  destruct (vector_store (backend_exec_states_ c) k (Some es)) as [states| | |] eqn:Ev;
    simpl in Hrun; try discriminate.
  destruct (vector_store_spec _ _ _ _ Ev) as (_ & _ & Hnth).
  (* the reported instance keeps a failed status, the others their state *)
  assert (Hes : status es = report_status params /\
                (ok (report_status params) = true -> ok (status exec_state) = true)).
  { unfold update_exec_state, DCHECK in Eu. rewrite Hdebug in Eu. cbn [orb] in Eu.
    destruct (ok (report_status params)) eqn:Er, (ok (status exec_state)) eqn:Es;
      simpl in Eu; try discriminate;
      apply UpdateNumScanRangesCompleted_status in Eu; simpl in Eu; auto. }
  destruct Hes as (Hst & Hok).
  match type of Hrun with
  | context [negb (ok (report_status params))] =>
      match type of Hrun with
      | (if _ then obind (UpdateStatus env _ ?c2) _ else _) = _ =>
          assert (Hi2 : instance_failed c2 i)
      end
  end.
  { destruct Hi as (e0 & Hn0 & He0).
    assert (Hgoal : exists e1, nth_error states i = Some (Some e1) /\ ok (status e1) = false).
    { rewrite Hnth. destruct (Nat.eqb_spec i k) as [->|Hne].
      - exists es. split; [reflexivity|].
        rewrite Hn0 in Ek. inversion Ek; subst e0.
        rewrite Hst. destruct (ok (report_status params)); [|reflexivity].
        rewrite Hok in He0 by reflexivity. discriminate.
      - exists e0. auto. }
    unfold instance_failed.
    destruct (report_done params), (insert_exec_status params); exact Hgoal. }
  destruct (negb (ok (report_status params))).
  - match type of Hrun with
    | obind (UpdateStatus env ?s ?c2) _ = _ =>
        destruct (UpdateStatus env s c2) as [[[q c3] evs3]| | |] eqn:Eus;
          simpl in Hrun; try discriminate
    end.
    inversion Hrun; subst.
    eapply UpdateStatus_keeps_failed; [exact Eus | exact Hi2].
  - destruct (report_done params).
    + apply DCHECK_passed in Hrun. inversion Hrun; subst. exact Hi2.
    + inversion Hrun; subst. exact Hi2.
Qed.

(** In a debug build the status of a backend exec state that is not OK is
    not OK after any run of [UpdateFragmentExecStatus] calls that returns,
    and a report for that instance that carries an OK status stops at the
    [DCHECK]. *)
Lemma backend_status_sticky_in_debug_build
    (env : BackendEnv) (reports : list TReportExecStatusParams)
    (c : Coordinator) (i : nat) :
  NDEBUG = false ->
  instance_failed c i ->
  (forall c' evs, run_reports env reports c = Returned (c', evs) ->
                  instance_failed c' i) /\
  (forall params, backend_num params = Z.of_nat i ->
                  ok (report_status params) = true ->
                  UpdateFragmentExecStatus env params c = DcheckFailed).
Proof.
  intros Hdebug Hi. split.
  - revert c Hi. induction reports as [|params reports IH]; intros c Hi c' evs Hrun.
    + inversion Hrun; now subst.
    + cbn [run_reports] in Hrun.
      destruct (UpdateFragmentExecStatus env params c) as [[[st c1] evs1]| | |] eqn:Eu;
        simpl in Hrun; try discriminate.
      destruct (run_reports env reports c1) as [[c2 evs2]| | |] eqn:Er;
        simpl in Hrun; try discriminate.
      inversion Hrun; subst.
      apply (IH c1) with (evs := evs2); [|exact Er].
      eapply UpdateFragmentExecStatus_keeps_failed; eauto.
  - intros params Hnum Hok. destruct Hi as (es & Hnth & Hes).
    unfold UpdateFragmentExecStatus. rewrite Hnum, Nat2Z.id.
    assert (Hlt : (i < length (backend_exec_states_ c))%nat)
      by (apply nth_error_Some; congruence).
    destruct (Z.ltb_spec (Z.of_nat i) 0); [lia|].
    destruct (Z.leb_spec (Z.of_nat (length (backend_exec_states_ c))) (Z.of_nat i)); [lia|].
    simpl. rewrite Hnth. unfold update_exec_state.
    rewrite Hok, Hes. simpl. now rewrite DCHECK_debug.
Qed.

End StatusReportFacts.

(** C1. The claim does not hold of the code: [UpdateFragmentExecStatus]
    only [DCHECK]s that a report does not take a status from an error back
    to OK and then assigns the reported status. After [Exec] and [Cancel]
    the status of backend 0 is CANCELLED; a progress report of that
    backend, which can be on its way when [Cancel] runs, carries the status
    OK. In a release build the report is stored and the status of backend
    0 is OK again; in a debug build the coordinator stops at the
    [DCHECK]. *)
Theorem OK_report_after_Cancel_overwrites_status :
  Cancel (build := release_build) backends_all_ok insert_running
  = Returned (insert_cancelled,
              [EvCancelPlanFragment 0; EvCancelPlanFragment 1; EvNotifyAll]) /\
  instance_status insert_cancelled 0 = Some Status_CANCELLED /\
  (exists c',
      UpdateFragmentExecStatus (build := release_build) backends_all_ok
                               (progress_report 0) insert_cancelled
      = Returned (Status_OK, c', []) /\
      instance_status c' 0 = Some Status_OK) /\
  UpdateFragmentExecStatus (build := debug_build) backends_all_ok
                           (progress_report 0) insert_cancelled
  = DcheckFailed.
Proof.
  split; [vm_compute; reflexivity|]. split; [reflexivity|]. split.
  - eexists. split; [vm_compute; reflexivity | reflexivity].
  - vm_compute. reflexivity.
Qed.

(** ** [Cancel] *)

Section CancelFacts.
Context {build : Build}.

Lemma Cancel_result env c c' evs :
  Cancel env c = Returned (c', evs) ->
  ok (query_status_ c') = false /\
  (ok (query_status_ c) = true -> query_status_ c' = Status_CANCELLED) /\
  (forall i, cancel_rpcs i evs =
             if ok (query_status_ c) then
               match nth_error (backend_exec_states_ c) i with
               | Some (Some es) => cancel_rpcs i (snd (cancel_exec_state env i es))
               | _ => O
               end
             else O).
Proof.
  unfold Cancel. destruct (ok (query_status_ c)) eqn:E; simpl; intros Hrun.
  - destruct (CancelInternal_spec _ _ _ _ Hrun) as ((states & ->) & _ & _ & _ & Hcount).
    simpl. repeat split; auto.
  - inversion Hrun; subst. repeat split; auto. discriminate.
Qed.

Lemma Cancel_after_Cancel envs : forall c,
  ok (query_status_ c) = false -> Cancel_sequence envs c = Returned (c, []).
Proof.
  induction envs as [|env envs IH]; intros c Hc; simpl; [reflexivity|].
  unfold Cancel. rewrite Hc. simpl. rewrite (IH c Hc). reflexivity.
Qed.

(** C5, as amended. Any number of [Cancel]s in a row does what the first
    of them does, to the coordinator and on the wire. A [Cancel] that finds
    the query status not OK does nothing; one that finds it OK sets it to
    CANCELLED and runs [CancelInternal]. The client's [CancelPlanFragment]
    is called only for instances that are initiated, not done and still OK,
    once per instance, and a second time only when the first call threw a
    transport exception and the client could be reopened. *)
Theorem Cancel_idempotent (env : BackendEnv) (envs : list BackendEnv) (c : Coordinator) :
  Cancel_sequence (env :: envs) c = Cancel env c /\
  (ok (query_status_ c) = false -> Cancel env c = Returned (c, [])) /\
  (ok (query_status_ c) = true ->
   Cancel env c = CancelInternal env (set_query_status_ c Status_CANCELLED)) /\
  (forall c' evs,
      Cancel env c = Returned (c', evs) ->
      ok (query_status_ c') = false /\
      (ok (query_status_ c) = true -> query_status_ c' = Status_CANCELLED) /\
      forall i,
        (cancel_rpcs i evs <= 2)%nat /\
        ((0 < cancel_rpcs i evs)%nat ->
         ok (query_status_ c) = true /\
         exists es, nth_error (backend_exec_states_ c) i = Some (Some es) /\
                    ok (status es) = true /\ initiated es = true /\ done es = false) /\
        (cancel_rpcs i evs = 2%nat ->
         (exists what, cancel_first env i = TransportException what) /\
         ok (cancel_ReopenClient env i) = true)).
Proof.
  split; [|split; [|split]].
  - cbn [Cancel_sequence].
    destruct (Cancel env c) as [[c' evs]| | |] eqn:E; simpl; try reflexivity.
    destruct (Cancel_result _ _ _ _ E) as (Hc' & _).
    rewrite (Cancel_after_Cancel envs c' Hc'). simpl. now rewrite app_nil_r.
  - intros Hc. unfold Cancel. now rewrite Hc.
  - intros Hc. unfold Cancel. now rewrite Hc.
  - intros c' evs Hrun. destruct (Cancel_result _ _ _ _ Hrun) as (Hc' & Hst & Hcount).
    split; [exact Hc'|]. split; [exact Hst|]. intros i. rewrite Hcount.
    destruct (ok (query_status_ c)); [|repeat split; intros; lia].
    destruct (nth_error (backend_exec_states_ c) i) as [[es|]|];
      try (repeat split; intros; lia).
    destruct (cancel_exec_state_events env i es) as (n & Hn & Hle & Hpos & Htwo).
    rewrite Hn, cancel_rpcs_repeat, Nat.eqb_refl.
    split; [exact Hle|]. split; [|exact Htwo].
    intros Hn0. split; [reflexivity|]. exists es. split; [reflexivity|].
    destruct (Hpos Hn0) as (H1 & H2 & H3 & _). auto.
Qed.

End CancelFacts.

(** The theorem at the running insert: three [Cancel]s leave what one
    leaves, with one [CancelPlanFragment] per backend. *)
Lemma Cancel_idempotent_witness :
  Cancel_sequence (build := release_build)
                  [backends_all_ok; backends_all_ok; backends_all_ok] insert_running
  = Returned (insert_cancelled,
              [EvCancelPlanFragment 0; EvCancelPlanFragment 1; EvNotifyAll]).
Proof.
  destruct (Cancel_idempotent (build := release_build)
                              backends_all_ok [backends_all_ok; backends_all_ok]
                              insert_running) as (Hseq & _).
  rewrite Hseq. reflexivity.
Defined.

(** C5 as stated fails in its last part: when the first [CancelPlanFragment]
    to a backend throws a transport exception and the client is reopened,
    one [Cancel] calls [CancelPlanFragment] on that backend twice. *)
Lemma Cancel_retry_calls_twice :
  ~ (forall (build : Build) env c c' evs i,
        Cancel env c = Returned (c', evs) -> (cancel_rpcs i evs <= 1)%nat).
Proof.
  intros Hclaim.
  destruct (Cancel (build := release_build) backends_cancel_retried insert_running)
    as [[c' evs]| | |] eqn:E;
    try (vm_compute in E; discriminate).
  specialize (Hclaim release_build backends_cancel_retried insert_running c' evs 0%nat E).
  vm_compute in E. inversion E; subst. vm_compute in Hclaim. lia.
Qed.

(** ** [GetNext] without a local executor *)

(** C10. With no local executor, [GetNext] called after [Wait] returns at
    once with a NULL batch and the query status, and changes nothing. *)
Theorem GetNext_without_executor {build : Build} (env : BackendEnv) (c : Coordinator) :
  executor_ c = None ->
  has_called_wait_ c = true ->
  GetNext env c = Returned (query_status_ c, None, c, []).
Proof.
  intros Hex Hwait. unfold GetNext. now rewrite Hwait, DCHECK_true, Hex.
Qed.

(** The theorem at the running insert once [Wait] has been called. *)
Lemma GetNext_without_executor_witness :
  GetNext (build := release_build) backends_all_ok
          (set_has_called_wait_ insert_running true)
  = Returned (Status_OK, None, set_has_called_wait_ insert_running true, []).
Proof.
  apply (GetNext_without_executor (build := release_build) backends_all_ok
           (set_has_called_wait_ insert_running true)); reflexivity.
Defined.

(** ** Finalization *)

Section FinalizerFacts.
Context {build : Build} {FS : Type} `{Hdfs FS}.

Lemma delete_existing_files_spec (listing : list hdfsFileInfo) : forall fs st fs' ops,
  delete_existing_files fs listing = (st, fs', ops) ->
  (st = Status_OK /\ ops = map deleted_ok (files_of listing)) \/
  (exists deleted failed rest,
      files_of listing = deleted ++ failed :: rest /\
      ops = map deleted_ok deleted ++ [OpDelete failed false] /\
      st = Status_msg (AppendHdfsErrorMessage
             "Failed to delete existing HDFS file as part of INSERT OVERWRITE query: "
             failed)).
Proof.
  unfold files_of.
  induction listing as [|info listing IH]; intros fs st fs' ops Hrun; simpl in Hrun.
  - inversion Hrun; subst. now left.
  - destruct (mKind info) eqn:Ek; simpl; rewrite Ek.
    + destruct (hdfsDelete fs (mName info)) as [[|] fs1] eqn:Ed.
      * destruct (delete_existing_files fs1 listing) as [[st1 fs2] ops1] eqn:Er.
        inversion Hrun; subst.
        destruct (IH _ _ _ _ Er) as [(-> & ->)|(deleted & failed & rest & Hf & -> & ->)].
        -- left. simpl. auto.
        -- right. exists (mName info :: deleted), failed, rest.
           simpl. rewrite Hf. auto.
      * inversion Hrun; subst. right. exists [], (mName info). simpl. eauto.
    + eapply IH; eauto.
Qed.

Lemma sset_insert_In (s : list string) k p :
  In p (sset_insert s k) -> p = k \/ In p s.
Proof.
  induction s as [|k' s IH]; simpl.
  - intros [<-|[]]. now left.
  - destruct (String.compare k k'); simpl; intros Hin.
    + now right.
    + destruct Hin as [<-|Hin]; auto.
    + destruct Hin as [<-|Hin]; auto. apply IH in Hin. tauto.
Qed.

Lemma move_files_spec (moves : FileMoveMap) : forall fs tmp st fs' ops tmp',
  move_files fs moves tmp = (st, fs', ops, tmp') ->
  (st = Status_OK /\ ops = map renamed_ok (renames_of moves) /\
   forall p, In p tmp' -> In p tmp \/ In (p, ""%string) moves) \/
  (exists moved src dst rest,
      renames_of moves = moved ++ (src, dst) :: rest /\
      ops = map renamed_ok moved ++ [OpRename src dst false] /\
      st = Status_msg (AppendHdfsErrorMessage
             ("Could not move HDFS file: " ++ src ++ " to desintation: " ++ dst) "")).
Proof.
  unfold renames_of.
  induction moves as [|[src dst] moves IH]; intros fs tmp st fs' ops tmp' Hrun;
    simpl in Hrun.
  - inversion Hrun; subst. left. auto.
  - simpl. destruct (String.eqb_spec dst "") as [->|Hne]; simpl.
    + destruct (IH _ _ _ _ _ _ Hrun) as [(-> & -> & Htmp)|Hfail]; [left | now right].
      repeat split; auto. intros p Hp. apply Htmp in Hp.
      destruct Hp as [Hp|Hp]; [|now right; right].
      apply sset_insert_In in Hp. destruct Hp as [->|Hp]; [right; now left | now left].
    + destruct (hdfsRename fs src dst) as [[|] fs1] eqn:Er.
      * destruct (move_files fs1 moves tmp) as [[[st1 fs2] ops1] tmp1] eqn:Em.
        inversion Hrun; subst.
        destruct (IH _ _ _ _ _ _ Em)
          as [(-> & -> & Htmp)|(moved & s0 & d0 & rest & Hf & -> & ->)].
        -- left. repeat split; auto. intros p Hp. apply Htmp in Hp.
           destruct Hp; [now left | now right; right].
        -- right. exists ((src, dst) :: moved), s0, d0, rest. simpl. rewrite Hf. auto.
      * inversion Hrun; subst. right. exists [], src, dst. simpl. eauto.
Qed.

Lemma delete_tmp_dirs_spec (dirs : list string) : forall fs st fs' ops,
  delete_tmp_dirs fs dirs = (st, fs', ops) ->
  (forall op, In op ops -> exists p b, op = OpDelete p b /\ In p dirs) /\
  (st = Status_OK \/
   exists p, In (OpDelete p false) ops /\
             st = Status_msg (AppendHdfsErrorMessage
                    "Failed to delete temporary directory: " p)).
Proof.
  induction dirs as [|d dirs IH]; intros fs st fs' ops Hrun; simpl in Hrun.
  - inversion Hrun; subst. split; [intros ? []|now left].
  - destruct (hdfsDelete fs d) as [[|] fs1] eqn:Ed.
    + destruct (delete_tmp_dirs fs1 dirs) as [[st1 fs2] ops1] eqn:Er.
      inversion Hrun; subst. destruct (IH _ _ _ _ Er) as (Hops & Hst). split.
      * intros op [<-|Hin]; [exists d, true; simpl; auto|].
        destruct (Hops op Hin) as (p & b & -> & Hp). exists p, b. simpl. auto.
      * destruct Hst as [->|(p & Hp & ->)]; [now left | right].
        exists p. simpl. auto.
    + inversion Hrun; subst. split.
      * intros op [<-|[]]. exists d, false. simpl. auto.
      * right. exists d. simpl. auto.
Qed.

(** What [FinalizeQuery] does for an OVERWRITE insert into an unpartitioned
    table, and what it returns. *)
Lemma overwrite_unpartitioned_finalization (fs : FS) (c : Coordinator) (n : Z) :
  has_called_wait_ c = true ->
  needs_finalization_ c = true ->
  is_overwrite (finalize_params_ c) = true ->
  partition_row_counts_ c = [(""%string, n)] ->
  let root := (hdfs_base_dir (finalize_params_ c) ++ "/" ++ "")%string in
  exists st fs' ops,
    FinalizeQuery fs c = Returned (st, fs', ops) /\
    match hdfsListDirectory fs root with
    | None =>
        st = Status_msg (AppendHdfsErrorMessage "Could not list directory: " root) /\
        fs' = fs /\ ops = [OpListDirectory root false]
    | Some listing =>
        (exists deleted failed rest,
            files_of listing = deleted ++ failed :: rest /\
            ops = OpListDirectory root true
                  :: map deleted_ok deleted ++ [OpDelete failed false] /\
            st = Status_msg (AppendHdfsErrorMessage
                   "Failed to delete existing HDFS file as part of INSERT OVERWRITE query: "
                   failed))
        \/
        (exists tail,
            ops = OpListDirectory root true
                  :: map deleted_ok (files_of listing)
                  ++ OpCreateDirectory root :: tail /\
            ((exists moved src dst rest,
                 renames_of (files_to_move_ c) = moved ++ (src, dst) :: rest /\
                 tail = map renamed_ok moved ++ [OpRename src dst false] /\
                 st = Status_msg (AppendHdfsErrorMessage
                        ("Could not move HDFS file: " ++ src ++ " to desintation: " ++ dst)
                        ""))
             \/
             (exists tmp_ops,
                 tail = map renamed_ok (renames_of (files_to_move_ c)) ++ tmp_ops /\
                 (forall op, In op tmp_ops ->
                             exists p b, op = OpDelete p b /\
                                         In (p, ""%string) (files_to_move_ c)) /\
                 (st = Status_OK \/
                  exists p, In (OpDelete p false) tmp_ops /\
                            st = Status_msg (AppendHdfsErrorMessage
                                   "Failed to delete temporary directory: " p)))))
    end.
Proof.
  intros Hwait Hneeds Hover Hparts root.
  unfold FinalizeQuery. rewrite Hwait, Hneeds, Hparts, !DCHECK_true.
  cbn [finalize_partitions length fst]. rewrite Hover.
  cbn [String.eqb Nat.eqb]. rewrite DCHECK_true. cbn [obind]. fold root.
  unfold overwrite_root.
  destruct (hdfsListDirectory fs root) as [listing|] eqn:El.
  - destruct (delete_existing_files fs listing) as [[dst fs1] dops] eqn:Ed.
    destruct (delete_existing_files_spec _ _ _ _ _ Ed)
      as [(-> & ->)|(deleted & failed & rest & Hf & -> & ->)].
    + cbn [ok status_code Status_OK negb obind finalize_partitions].
      destruct (move_files (hdfsCreateDirectory fs1 root) (files_to_move_ c) [])
        as [[[mst fs2] mops] tmp] eqn:Em.
      destruct (move_files_spec _ _ _ _ _ _ _ Em)
        as [(-> & -> & Htmp)|(moved & src & dst0 & rest & Hf & -> & ->)].
      * cbn [ok status_code Status_OK negb].
        destruct (delete_tmp_dirs fs2 tmp) as [[tst fs3] tops] eqn:Et.
        destruct (delete_tmp_dirs_spec _ _ _ _ _ Et) as (Hops & Hst).
        eexists _, _, _. split; [reflexivity|]. right.
        eexists. split.
        { cbn [app]. rewrite <- app_assoc. cbn [app]. reflexivity. }
        right. exists tops. split; [reflexivity|]. split; [|exact Hst].
        intros op Hin. destruct (Hops op Hin) as (p & b & -> & Hp).
        exists p, b. split; [reflexivity|].
        destruct (Htmp p Hp) as [[]|Hm]. exact Hm.
      * cbn [ok status_code Status_msg negb].
        eexists _, _, _. split; [reflexivity|]. right.
        eexists. split.
        { cbn [app]. rewrite <- app_assoc. cbn [app]. reflexivity. }
        left. exists moved, src, dst0, rest. auto.
    + cbn [ok status_code Status_msg negb obind].
      eexists _, _, _. split; [reflexivity|]. left.
      exists deleted, failed, rest. auto.
  - cbn [ok status_code Status_msg negb obind].
    eexists _, _, _. split; [reflexivity|]. auto.
Qed.

(** C7, as amended. For an OVERWRITE insert into an unpartitioned table (one
    row-count entry, with the empty partition key) [FinalizeQuery] returns,
    and what it did is one of:
    - the listing of the root directory failed: nothing else was done and
      the list error is the result;
    - the files of the listing were deleted in order up to one whose delete
      failed: nothing else was done and that delete error is the result;
    - every file of the listing, and no directory, was deleted and the root
      directory created; then the moves with a destination were renamed in
      order, either up to one whose rename failed, whose error is the
      result, or all of them, followed only by deletes of sources that were
      pending with an empty destination.
    The result is what the [Wait] that finalizes returns (here the [Wait]
    of a query without a coordinator fragment, all backends done and the
    query status OK), and it is not made the query status, which is as it
    was: the [GetNext] after that [Wait] returns OK also when the
    finalization failed. *)
Theorem FinalizeQuery_overwrite_unpartitioned (fs : FS) (c : Coordinator) (n : Z) :
  has_called_wait_ c = true ->
  needs_finalization_ c = true ->
  is_overwrite (finalize_params_ c) = true ->
  partition_row_counts_ c = [(""%string, n)] ->
  let root := (hdfs_base_dir (finalize_params_ c) ++ "/" ++ "")%string in
  exists st fs' ops,
    FinalizeQuery fs c = Returned (st, fs', ops) /\
    match hdfsListDirectory fs root with
    | None =>
        st = Status_msg (AppendHdfsErrorMessage "Could not list directory: " root) /\
        fs' = fs /\ ops = [OpListDirectory root false]
    | Some listing =>
        (exists deleted failed rest,
            files_of listing = deleted ++ failed :: rest /\
            ops = OpListDirectory root true
                  :: map deleted_ok deleted ++ [OpDelete failed false] /\
            st = Status_msg (AppendHdfsErrorMessage
                   "Failed to delete existing HDFS file as part of INSERT OVERWRITE query: "
                   failed))
        \/
        (exists tail,
            ops = OpListDirectory root true
                  :: map deleted_ok (files_of listing)
                  ++ OpCreateDirectory root :: tail /\
            ((exists moved src dst rest,
                 renames_of (files_to_move_ c) = moved ++ (src, dst) :: rest /\
                 tail = map renamed_ok moved ++ [OpRename src dst false] /\
                 st = Status_msg (AppendHdfsErrorMessage
                        ("Could not move HDFS file: " ++ src ++ " to desintation: " ++ dst)
                        ""))
             \/
             (exists tmp_ops,
                 tail = map renamed_ok (renames_of (files_to_move_ c)) ++ tmp_ops /\
                 (forall op, In op tmp_ops ->
                             exists p b, op = OpDelete p b /\
                                         In (p, ""%string) (files_to_move_ c)) /\
                 (st = Status_OK \/
                  exists p, In (OpDelete p false) tmp_ops /\
                            st = Status_msg (AppendHdfsErrorMessage
                                   "Failed to delete temporary directory: " p)))))
    end /\
    forall (env : BackendEnv) (c0 : Coordinator),
      set_has_called_wait_ c0 true = c ->
      has_called_wait_ c0 = false ->
      executor_ c0 = None ->
      num_remaining_backends_ c0 <= 0 ->
      ok (query_status_ c0) = true ->
      Wait env fs c0 = Returned (st, c, fs', map EvFs ops) /\
      query_status_ c = query_status_ c0 /\
      GetNext env c = Returned (query_status_ c0, None, c, []).
Proof.
  intros Hwait Hneeds Hover Hparts root.
  pose proof (overwrite_unpartitioned_finalization fs c n Hwait Hneeds Hover Hparts)
    as Hfin.
  cbv zeta in Hfin. destruct Hfin as (st & fs' & ops & Hrun & Hcases).
  exists st, fs', ops. split; [exact Hrun|]. split; [exact Hcases|].
  intros env c0 Hc Hw0 Hex Hrem Hok.
  assert (Hq : query_status_ c = query_status_ c0) by (now rewrite <- Hc).
  assert (Hexc : executor_ c = None) by (now rewrite <- Hc).
  assert (Hremc : num_remaining_backends_ c = num_remaining_backends_ c0)
    by (now rewrite <- Hc).
  split; [|split; [exact Hq|]].
  - unfold Wait. rewrite Hw0. cbv zeta. rewrite Hc, Hexc.
    unfold WaitForAllBackends. rewrite Hremc, Hq, Hok.
    destruct (Z.ltb_spec 0 (num_remaining_backends_ c0)) as [Hlt|_]; [lia|].
    cbn [andb obind]. rewrite Hok. cbn [negb]. rewrite Hneeds, Hrun. reflexivity.
  - unfold GetNext. rewrite Hwait, DCHECK_true, Hexc, Hq. reflexivity.
Qed.

End FinalizerFacts.

(** The theorem at the table directory with files [a], [b] and directory
    [sub], with moves [tmp1 -> a] and [tmp2 -> c]. *)
Lemma FinalizeQuery_overwrite_unpartitioned_witness :
  FinalizeQuery (build := release_build) overwrite_fs overwrite_coordinator
  = Returned (Status_OK,
              {| table_dir := [ {| mKind := kObjectKindDirectory; mName := "sub" |};
                                {| mKind := kObjectKindFile; mName := "a" |};
                                {| mKind := kObjectKindFile; mName := "c" |} ];
                 sink_files := [] |},
              [ OpListDirectory "/t/" true;
                OpDelete "a" true; OpDelete "b" true;
                OpCreateDirectory "/t/";
                OpRename "tmp1" "a" true; OpRename "tmp2" "c" true ]).
Proof.
  destruct (FinalizeQuery_overwrite_unpartitioned (build := release_build)
              overwrite_fs overwrite_coordinator 2 eq_refl eq_refl eq_refl eq_refl)
    as (st & fs' & ops & Hrun & _).
  rewrite Hrun. vm_compute in Hrun. inversion Hrun. reflexivity.
Defined.

(** C7 as stated fails: the first list, delete or rename error is returned
    by [FinalizeQuery], and by the [Wait] that runs it, and is not the
    query status, and the query has not failed. On a file system that does
    not list, on one that does not delete and on one where the source of a
    move is missing, the [Wait] of the OVERWRITE insert returns the error,
    and after it the query status is OK, [GetNext] returns OK and so does
    another [Wait]. *)
Lemma FinalizeQuery_error_is_not_query_status :
  (forall build : Build,
   exists c',
      Wait backends_all_ok unlistable overwrite_before_Wait
      = Returned (Status_msg (AppendHdfsErrorMessage "Could not list directory: " "/t/"),
                  c', unlistable, [EvFs (OpListDirectory "/t/" false)]) /\
      query_status_ c' = Status_OK /\
      GetNext backends_all_ok c' = Returned (Status_OK, None, c', []) /\
      Wait backends_all_ok unlistable c' = Returned (Status_OK, c', unlistable, [])) /\
  (forall build : Build,
   exists c',
      Wait backends_all_ok read_only overwrite_before_Wait
      = Returned (Status_msg (AppendHdfsErrorMessage
                    "Failed to delete existing HDFS file as part of INSERT OVERWRITE query: "
                    "a"),
                  c', read_only,
                  [EvFs (OpListDirectory "/t/" true); EvFs (OpDelete "a" false)]) /\
      query_status_ c' = Status_OK /\
      GetNext backends_all_ok c' = Returned (Status_OK, None, c', []) /\
      Wait backends_all_ok read_only c' = Returned (Status_OK, c', read_only, [])) /\
  (forall build : Build,
   exists c' fs',
      Wait backends_all_ok overwrite_fs_without_tmp2 overwrite_before_Wait
      = Returned (Status_msg (AppendHdfsErrorMessage
                    "Could not move HDFS file: tmp2 to desintation: c" ""),
                  c', fs',
                  [EvFs (OpListDirectory "/t/" true);
                   EvFs (OpDelete "a" true); EvFs (OpDelete "b" true);
                   EvFs (OpCreateDirectory "/t/");
                   EvFs (OpRename "tmp1" "a" true); EvFs (OpRename "tmp2" "c" false)]) /\
      query_status_ c' = Status_OK /\
      GetNext backends_all_ok c' = Returned (Status_OK, None, c', []) /\
      Wait backends_all_ok fs' c' = Returned (Status_OK, c', fs', [])).
Proof.
  split; [|split]; intros [[|]]; repeat eexists; vm_compute; reflexivity.
Qed.

(** ** [Wait] *)

Section WaitFacts.
Context {build : Build} {FS : Type} `{Hdfs FS}.

Lemma DCHECK_not_blocked {A} cond (k : outcome A) :
  k <> Blocked -> DCHECK cond k <> Blocked.
Proof. unfold DCHECK. destruct (NDEBUG || cond); [auto | discriminate]. Qed.

Lemma cancel_loop_not_blocked env states : forall i,
  cancel_loop env i states <> Blocked.
Proof.
  induction states as [|[es|] states IH]; intros i; cbn [cancel_loop];
    try discriminate.
  destruct (cancel_exec_state env i es) as [es' evs].
  specialize (IH (S i)).
  destruct (cancel_loop env (S i) states) as [[s e]| | |]; simpl; congruence.
Qed.

Lemma CancelInternal_not_blocked env c : CancelInternal env c <> Blocked.
Proof.
  unfold CancelInternal. apply DCHECK_not_blocked.
  pose proof (cancel_loop_not_blocked env (backend_exec_states_ c) 0%nat) as Hn.
  destruct (cancel_loop env 0 (backend_exec_states_ c)) as [[s e]| | |];
    simpl; congruence.
Qed.

Lemma UpdateStatus_not_blocked env st c : UpdateStatus env st c <> Blocked.
Proof.
  unfold UpdateStatus. destruct (ok st); [discriminate|].
  destruct (negb (ok (query_status_ c))); [discriminate|].
  pose proof (CancelInternal_not_blocked env (set_query_status_ c st)) as Hn.
  destruct (CancelInternal env (set_query_status_ c st)) as [[c' evs]| | |];
    simpl; congruence.
Qed.

Lemma finalize_partitions_not_blocked params n : forall partitions (fs : FS),
  finalize_partitions params n fs partitions <> Blocked.
Proof.
  induction partitions as [|partition partitions IH]; intros fs;
    cbn [finalize_partitions]; [discriminate|].
  match goal with
  | |- obind ?first _ <> _ =>
      assert (Hfirst : first <> Blocked);
        [|destruct first as [[[st fs1] ops1]| | |]; cbn [obind]; try congruence]
  end.
  { destruct (is_overwrite params); [|discriminate].
    destruct (String.eqb (fst partition) ""); [|discriminate].
    apply DCHECK_not_blocked. discriminate. }
  destruct (negb (ok st)); [discriminate|].
  match goal with
  | |- obind (finalize_partitions _ _ ?fs' _) _ <> _ =>
      pose proof (IH fs') as Hn;
        destruct (finalize_partitions params n fs' partitions)
          as [[[st' fs2] ops2]| | |]; cbn [obind]; congruence
  end.
Qed.

Lemma FinalizeQuery_not_blocked (fs : FS) c : FinalizeQuery fs c <> Blocked.
Proof.
  unfold FinalizeQuery. do 2 apply DCHECK_not_blocked.
  pose proof (finalize_partitions_not_blocked (finalize_params_ c)
                (length (partition_row_counts_ c)) (partition_row_counts_ c) fs) as Hn.
  destruct (finalize_partitions (finalize_params_ c) (length (partition_row_counts_ c))
              fs (partition_row_counts_ c)) as [[[st1 fs1] ops1]| | |];
    simpl; try congruence.
  destruct (negb (ok st1)); [discriminate|].
  destruct (move_files fs1 (files_to_move_ c) []) as [[[st2 fs2] ops2] tmp].
  destruct (negb (ok st2)); [discriminate|].
  destruct (delete_tmp_dirs fs2 tmp) as [[st3 fs3] ops3]. discriminate.
Qed.

(** With a local executor [Wait] never sleeps. *)
Lemma Wait_with_executor_not_blocked env (fs : FS) c :
  executor_ c <> None -> Wait env fs c <> Blocked.
Proof.
  intros Hex. unfold Wait. destruct (has_called_wait_ c); [discriminate|].
  cbv zeta.
  change (executor_ (set_has_called_wait_ c true)) with (executor_ c).
  destruct (executor_ c) as [executor|]; [clear Hex | congruence].
  pose proof (UpdateStatus_not_blocked env (open_result executor)
                (set_has_called_wait_ c true)) as Hn.
  destruct (UpdateStatus env (open_result executor) (set_has_called_wait_ c true))
    as [[[q c1] evs1]| | |]; cbn [obind]; try congruence.
  assert (Hlast : forall st c2 evs,
             (if negb (ok st) then Returned (st, c2, fs, evs)
              else if needs_finalization_ c2 then
                     ' (st', fs', ops) <- FinalizeQuery fs c2 ;;
                     Returned (st', c2, fs', evs ++ map EvFs ops)
                   else Returned (Status_OK, c2, fs, evs)) <> Blocked).
  { intros st c2 evs. destruct (negb (ok st)); [discriminate|].
    destruct (needs_finalization_ c2); [|discriminate].
    pose proof (FinalizeQuery_not_blocked fs c2) as Hf.
    destruct (FinalizeQuery fs c2) as [[[st' fs'] ops]| | |]; simpl; congruence. }
  destruct (negb (ok q)); [apply (Hlast q)|].
  unfold DCHECK.
  destruct (NDEBUG || Nat.eqb (length (files_to_move_ c1)) 0); [|discriminate].
  destruct (NDEBUG || Nat.eqb (length (partition_row_counts_ c1)) 0); [|discriminate].
  apply (Hlast Status_OK).
Qed.

(** C6, as amended. A [Wait] after the first returns OK at once and changes
    nothing, whatever the first call returned. The first call, for a query
    without a local executor, sleeps while backends remain and the query
    status is OK, so it returns only when none remains or the status is an
    error; for a query with a local executor it opens that executor and
    does not wait for the backends: it never sleeps, and when the executor
    opens, the query status is OK and nothing is to finalize, it returns
    OK with the executor's insert state recorded and the number of
    remaining backends as it was. When the first call finds the query
    status OK after that, it returns the result of [FinalizeQuery] if the
    query needs finalization, and OK otherwise; when it finds an error, it
    returns that error and does not finalize. *)
Theorem Wait_idempotent (env : BackendEnv) (fs : FS) (c : Coordinator) :
  (has_called_wait_ c = true -> Wait env fs c = Returned (Status_OK, c, fs, [])) /\
  (has_called_wait_ c = false -> executor_ c = None ->
   0 < num_remaining_backends_ c -> ok (query_status_ c) = true ->
   Wait env fs c = Blocked) /\
  (forall st c' fs' evs,
      Wait env fs c = Returned (st, c', fs', evs) ->
      has_called_wait_ c' = true /\
      (forall env2, Wait env2 fs' c' = Returned (Status_OK, c', fs', [])) /\
      (has_called_wait_ c = false ->
       (executor_ c = None ->
        num_remaining_backends_ c <= 0 \/ ok (query_status_ c) = false) /\
       (ok (query_status_ c') = false -> st = query_status_ c' /\ fs' = fs) /\
       (ok (query_status_ c') = true -> needs_finalization_ c = false ->
        st = Status_OK /\ fs' = fs) /\
       (ok (query_status_ c') = true -> needs_finalization_ c = true ->
        exists ops evs0,
          FinalizeQuery fs c' = Returned (st, fs', ops) /\
          evs = evs0 ++ map EvFs ops))) /\
  (has_called_wait_ c = false -> executor_ c <> None ->
   Wait env fs c <> Blocked) /\
  (forall executor,
      has_called_wait_ c = false -> executor_ c = Some executor ->
      ok (open_result executor) = true -> ok (query_status_ c) = true ->
      needs_finalization_ c = false ->
      files_to_move_ c = [] -> partition_row_counts_ c = [] ->
      exists c',
        Wait env fs c = Returned (Status_OK, c', fs, []) /\
        c' = set_insert_state (set_has_called_wait_ c true)
               (num_appended_rows executor) (hdfs_files_to_move executor) /\
        num_remaining_backends_ c' = num_remaining_backends_ c /\
        backend_exec_states_ c' = backend_exec_states_ c /\
        query_status_ c' = query_status_ c).
Proof.
  split; [|split; [|split; [|split]]].
  - intros Hw. unfold Wait. now rewrite Hw.
  - intros Hw Hex Hrem Hok. unfold Wait. rewrite Hw. simpl. rewrite Hex.
    unfold WaitForAllBackends. simpl. rewrite Hok.
    destruct (Z.ltb_spec 0 (num_remaining_backends_ c)); [reflexivity | lia].
  - intros st c' fs' evs Hrun.
    assert (Hagain : has_called_wait_ c' = true ->
                     forall env2, Wait env2 fs' c' = Returned (Status_OK, c', fs', [])).
    { intros Hw env2. unfold Wait. now rewrite Hw. }
    unfold Wait in Hrun.
    destruct (has_called_wait_ c) eqn:Hw.
    { inversion Hrun; subst. repeat split; auto; discriminate. }
    set (c0 := set_has_called_wait_ c true) in *.
    (* the part before finalization: its status is the query status *)
    assert (Hfirst : forall c1 evs1 st1,
               has_called_wait_ c1 = true ->
               needs_finalization_ c1 = needs_finalization_ c ->
               ok st1 = ok (query_status_ c1) ->
               (ok st1 = false -> st1 = query_status_ c1) ->
               (if negb (ok st1) then Returned (st1, c1, fs, evs1)
                else if needs_finalization_ c1 then
                       ' (st', fs2, ops) <- FinalizeQuery fs c1 ;;
                       Returned (st', c1, fs2, evs1 ++ map EvFs ops)
                     else Returned (Status_OK, c1, fs, evs1))
               = Returned (st, c', fs', evs) ->
               has_called_wait_ c' = true /\
               (ok (query_status_ c') = false -> st = query_status_ c' /\ fs' = fs) /\
               (ok (query_status_ c') = true -> needs_finalization_ c = false ->
                st = Status_OK /\ fs' = fs) /\
               (ok (query_status_ c') = true -> needs_finalization_ c = true ->
                exists ops evs0,
                  FinalizeQuery fs c' = Returned (st, fs', ops) /\
                  evs = evs0 ++ map EvFs ops)).
    { intros c1 evs1 st1 Hw1 Hn1 Hq1 Hst1 Hret.
      destruct (ok (query_status_ c1)) eqn:Hq; rewrite Hq1 in Hret; simpl in Hret.
      - rewrite Hn1 in Hret. destruct (needs_finalization_ c) eqn:Hn.
        + destruct (FinalizeQuery fs c1) as [[[st' fs2] ops]| | |] eqn:Ef;
            simpl in Hret; try discriminate.
          inversion Hret; subst. rewrite Hq.
          repeat split; auto; try discriminate. intros _ _. eauto.
        + inversion Hret; subst. rewrite Hq. repeat split; auto; discriminate.
      - inversion Hret; subst. rewrite Hq. repeat split; auto; discriminate. }
    destruct (executor_ c0) as [executor|] eqn:Hex.
    + destruct (UpdateStatus env (open_result executor) c0) as [[[q c1] evs1]| | |] eqn:Eu;
        simpl in Hrun; try discriminate.
      destruct (UpdateStatus_spec _ _ _ _ _ _ Eu) as (-> & states & qs & Hc1).
      assert (Hexc : executor_ c = Some executor) by exact Hex.
      destruct (ok (query_status_ c1)) eqn:Hq; simpl in Hrun.
      * apply DCHECK_bind_passed in Hrun. apply DCHECK_bind_passed in Hrun.
        simpl in Hrun.
        destruct (Hfirst (set_insert_state c1 (num_appended_rows executor)
                                           (hdfs_files_to_move executor))
                         evs1 Status_OK) as (H1 & H2 & H3 & H4).
        -- subst c1. reflexivity.
        -- subst c1. reflexivity.
        -- simpl. now rewrite Hq.
        -- discriminate.
        -- exact Hrun.
        -- split; [exact H1|]. split; [auto|]. intros _.
           split; [rewrite Hexc; discriminate|]. auto.
      * destruct (Hfirst c1 evs1 (query_status_ c1)) as (H1 & H2 & H3 & H4).
        -- subst c1. reflexivity.
        -- subst c1. reflexivity.
        -- reflexivity.
        -- reflexivity.
        -- exact Hrun.
        -- split; [exact H1|]. split; [auto|]. intros _.
           split; [rewrite Hexc; discriminate|]. auto.
    + destruct (WaitForAllBackends c0) as [wst| | |] eqn:Ew; simpl in Hrun;
        try discriminate.
      unfold WaitForAllBackends in Ew. simpl in Ew.
      destruct ((0 <? num_remaining_backends_ c) && ok (query_status_ c)) eqn:Eb;
        [discriminate|].
      inversion Ew; subst wst.
      destruct (Hfirst c0 [] (query_status_ c)) as (H1 & H2 & H3 & H4); auto.
      split; [exact H1|]. split; [auto|]. intros _.
      split; [|auto]. intros _.
      apply andb_false_iff in Eb. destruct Eb as [Eb|Eb]; [left | now right].
      apply Z.ltb_ge in Eb. exact Eb.
  - intros _ Hex. now apply Wait_with_executor_not_blocked.
  - intros executor Hw Hex Hopen Hok Hn Hfiles Hrows.
    eexists. split; [|split; [reflexivity|]]; [|repeat split].
    unfold Wait. rewrite Hw. cbv zeta.
    change (executor_ (set_has_called_wait_ c true)) with (executor_ c).
    rewrite Hex. unfold UpdateStatus. rewrite Hopen. cbn [obind].
    change (query_status_ (set_has_called_wait_ c true)) with (query_status_ c).
    rewrite Hok. cbn [negb].
    change (files_to_move_ (set_has_called_wait_ c true)) with (files_to_move_ c).
    change (partition_row_counts_ (set_has_called_wait_ c true))
      with (partition_row_counts_ c).
    rewrite Hfiles, Hrows. rewrite !DCHECK_true by reflexivity.
    cbn [obind negb ok Status_OK].
    change (needs_finalization_ (set_insert_state (set_has_called_wait_ c true)
              (num_appended_rows executor) (hdfs_files_to_move executor)))
      with (needs_finalization_ c).
    rewrite Hn. reflexivity.
Qed.

End WaitFacts.

(** The theorem at the OVERWRITE insert before [Wait] was called: the first
    call finalizes, the second returns OK and does nothing. *)
Lemma Wait_idempotent_witness :
  exists c' fs' evs,
    Wait (build := release_build) backends_all_ok overwrite_fs
         (set_has_called_wait_ overwrite_coordinator false)
    = Returned (Status_OK, c', fs', evs) /\
    In (EvFs (OpRename "tmp2" "c" true)) evs /\
    Wait (build := release_build) backends_all_ok fs' c'
    = Returned (Status_OK, c', fs', []).
Proof.
  destruct (Wait_idempotent (build := release_build) backends_all_ok overwrite_fs
              (set_has_called_wait_ overwrite_coordinator false))
    as (_ & _ & Hfirst & _).
  destruct (Wait (build := release_build) backends_all_ok overwrite_fs
              (set_has_called_wait_ overwrite_coordinator false))
    as [[[[st c'] fs'] evs]| | |] eqn:E; try (vm_compute in E; discriminate).
  destruct (Hfirst st c' fs' evs eq_refl) as (_ & Hagain & _).
  exists c', fs', evs. vm_compute in E. inversion E; subst.
  split; [reflexivity|]. split; [simpl; tauto|]. apply Hagain.
Defined.

(** C6 as stated fails in its first part: for a query with a coordinator
    fragment the first [Wait] returns once the local executor is open. At
    the select after [Exec] it returns OK with the query status OK while
    both remote backends are still running. *)
Lemma Wait_returns_before_backends_finish :
  has_called_wait_ select_running = false /\
  executor_ select_running <> None /\
  forall build : Build,
  exists c',
    Wait backends_all_ok overwrite_fs select_running
    = Returned (Status_OK, c', overwrite_fs, []) /\
    ok (query_status_ c') = true /\
    num_remaining_backends_ c' = 2.
Proof.
  split; [reflexivity|]. split; [discriminate|].
  intros [[|]]; eexists; (split; [vm_compute; reflexivity|]); split; reflexivity.
Qed.

(** ** Dispatch *)

Lemma ExecRemoteFragment_spec env i es :
  fresh_exec_state es ->
  fst (fst (ExecRemoteFragment env i es)) = dispatch_status env i /\
  dispatched_exec_state env i (snd (fst (ExecRemoteFragment env i es))) /\
  forall j, cancel_rpcs j (snd (ExecRemoteFragment env i es)) = O.
Proof.
  intros (Hi & Hd & Hs).
  unfold dispatched_exec_state.
  unfold ExecRemoteFragment, dispatch_status, record_exec_result.
  destruct (ok (exec_GetClient env i)) eqn:E1; simpl;
    [|rewrite Hi, Hd, E1; repeat split; auto; discriminate].
  destruct (exec_first env i) as [r|what]; simpl.
  - destruct (ok r) eqn:Er; simpl; rewrite ?Hi, ?Hd, ?Er;
      repeat split; auto; discriminate.
  - destruct (ok (exec_ReopenClient env i)) eqn:E2; simpl;
      [|rewrite Hi, Hd, E2; repeat split; auto; discriminate].
    destruct (exec_retry env i) as [r|what']; simpl.
    + destruct (ok r) eqn:Er; simpl; rewrite ?Hi, ?Hd, ?Er;
        repeat split; auto; discriminate.
    + rewrite Hi, Hd. repeat split; auto; discriminate.
Qed.

Lemma ParallelExecutor_Exec_spec env args : forall first st args' evs,
  Forall fresh_exec_state args ->
  ParallelExecutor_Exec (ExecRemoteFragment env) first args = (st, args', evs) ->
  length args' = length args /\
  (forall j es, nth_error args' j = Some es -> dispatched_exec_state env (first + j) es) /\
  (forall i, cancel_rpcs i evs = O) /\
  ((ok st = true /\
    forall j, (j < length args)%nat -> ok (dispatch_status env (first + j)) = true) \/
   (ok st = false /\
    exists k, (k < length args)%nat /\ st = dispatch_status env (first + k) /\
              forall j, (j < k)%nat -> ok (dispatch_status env (first + j)) = true)).
Proof.
  induction args as [|a args IH]; intros first st args' evs Hfresh Hrun; simpl in Hrun.
  - inversion Hrun; subst.
    split; [reflexivity|]. split; [intros [|j] es Hj; discriminate|].
    split; [reflexivity|].
    left. split; [reflexivity|]. simpl. intros; lia.
  - inversion Hfresh as [|? ? Ha Hrest]; subst.
    destruct (ExecRemoteFragment env first a) as [[st0 a'] ev0] eqn:Ea.
    destruct (ParallelExecutor_Exec (ExecRemoteFragment env) (S first) args)
      as [[st1 args1] ev1] eqn:Er.
    inversion Hrun; subst. clear Hrun.
    destruct (ExecRemoteFragment_spec env first a Ha) as (Hst & Hdisp & Hev).
    rewrite Ea in Hst, Hdisp, Hev. simpl in Hst, Hdisp, Hev.
    destruct (IH _ _ _ _ Hrest Er) as (Hlen & Hnth & Hev1 & Hres).
    split; [simpl; lia|]. split; [|split].
    + intros [|j] es Hj; simpl in Hj.
      * inversion Hj; subst. now rewrite Nat.add_0_r.
      * replace (first + S j)%nat with (S first + j)%nat by lia. now apply Hnth.
    + intros i. now rewrite cancel_rpcs_app, Hev, Hev1.
    + destruct (ok st0) eqn:E0.
      * destruct Hres as [(Hok & Hall)|(Hko & k & Hk & Hstk & Hbefore)].
        -- left. split; [exact Hok|]. intros [|j] Hj.
           ++ now rewrite Nat.add_0_r, <- Hst.
           ++ replace (first + S j)%nat with (S first + j)%nat by lia.
              apply Hall. simpl in Hj. lia.
        -- right. split; [exact Hko|]. exists (S k). split; [simpl; lia|].
           split; [now replace (first + S k)%nat with (S first + k)%nat by lia|].
           intros [|j] Hj.
           ++ now rewrite Nat.add_0_r, <- Hst.
           ++ replace (first + S j)%nat with (S first + j)%nat by lia.
              apply Hbefore. lia.
      * right. split; [exact E0|]. exists O. split; [simpl; lia|].
        split; [now rewrite Nat.add_0_r|]. intros; lia.
Qed.

Lemma new_BackendExecState_fresh fidx params idx es :
  new_BackendExecState fidx params idx = Returned es -> fresh_exec_state es.
Proof.
  unfold new_BackendExecState.
  destruct (nth_error (instance_ids params) idx), (nth_error (hosts params) idx);
    intros Hn; inversion Hn; subst. repeat split.
Qed.

Lemma set_up_exec_states_spec fidx params n : forall idx b states states' created,
  set_up_exec_states fidx params idx n b states = Returned (states', created) ->
  length states' = length states /\ length created = n /\
  Forall fresh_exec_state created /\
  (forall j, (j < b \/ b + n <= j)%nat -> nth_error states' j = nth_error states j).
Proof.
  induction n as [|n IH]; intros idx b states states' created Hrun; simpl in Hrun.
  - inversion Hrun; subst. repeat split; auto.
  - destruct (new_BackendExecState fidx params idx) as [es| | |] eqn:En;
      simpl in Hrun; try discriminate.
    destruct (vector_store states b (Some es)) as [states1| | |] eqn:Ev;
      simpl in Hrun; try discriminate.
    destruct (set_up_exec_states fidx params (S idx) n (S b) states1)
      as [[states2 created2]| | |] eqn:Es; simpl in Hrun; try discriminate.
    inversion Hrun; subst.
    destruct (vector_store_spec _ _ _ _ Ev) as (Hlen1 & Hlt & Hnth1).
    destruct (IH _ _ _ _ _ Es) as (Hlen2 & Hc & Hfresh & Hnth2).
    split; [lia|]. split; [simpl; lia|]. split.
    + constructor; [eapply new_BackendExecState_fresh; eauto | exact Hfresh].
    + intros j Hj. rewrite Hnth2 by lia. rewrite Hnth1.
      destruct (Nat.eqb_spec j b); [lia | reflexivity].
Qed.

Lemma store_exec_states_spec updated : forall states b states',
  store_exec_states states b updated = Returned states' ->
  length states' = length states /\
  (forall j, nth_error states' j =
             if ((b <=? j) && (j <? b + length updated))%nat
             then option_map Some (nth_error updated (j - b))
             else nth_error states j).
Proof.
  induction updated as [|es updated IH]; intros states b states' Hrun; simpl in Hrun.
  - inversion Hrun; subst. split; [reflexivity|]. intros j. simpl.
    rewrite Nat.add_0_r.
    destruct (Nat.leb_spec b j), (Nat.ltb_spec j b); simpl; auto; lia.
  - destruct (vector_store states b (Some es)) as [states1| | |] eqn:Ev;
      simpl in Hrun; try discriminate.
    destruct (vector_store_spec _ _ _ _ Ev) as (Hlen1 & Hlt & Hnth1).
    destruct (IH _ _ _ Hrun) as (Hlen2 & Hnth2).
    split; [lia|]. intros j. rewrite Hnth2, Hnth1. cbn [length].
    destruct (Nat.leb_spec (S b) j) as [H1|H1];
      destruct (Nat.ltb_spec j (S b + length updated)) as [H2|H2];
      destruct (Nat.leb_spec b j) as [H3|H3];
      destruct (Nat.ltb_spec j (b + S (length updated))) as [H4|H4];
      destruct (Nat.eqb_spec j b) as [H5|H5];
      cbn [andb]; try lia; try reflexivity.
    + replace (j - b)%nat with (S (j - S b)) by lia. reflexivity.
    + subst j. rewrite Nat.sub_diag. reflexivity.
Qed.

Lemma cancel_exec_state_sends env i es :
  ok (status es) = true -> initiated es = true -> done es = false ->
  ok (cancel_GetClient env i) = true ->
  (0 < cancel_rpcs i (snd (cancel_exec_state env i es)))%nat.
Proof.
  intros H1 H2 H3 H4. unfold cancel_exec_state. rewrite H1. simpl.
  rewrite H2, H3, H4. simpl. unfold cancel_rpcs.
  destruct (cancel_first env i); simpl; [rewrite Nat.eqb_refl; simpl; lia|].
  destruct (ok (cancel_ReopenClient env i)); simpl.
  - destruct (cancel_retry env i); simpl; rewrite Nat.eqb_refl; simpl; lia.
  - rewrite Nat.eqb_refl. simpl. lia.
Qed.


Section DispatchFacts.
Context {build : Build}.


End DispatchFacts.

(** ** The query status over runs of calls *)

Section QueryStatusFacts.
Context {build : Build}.

Lemma CancelInternal_query_status env c c' evs :
  CancelInternal env c = Returned (c', evs) -> query_status_ c' = query_status_ c.
Proof.
  intros Hrun. destruct (CancelInternal_spec _ _ _ _ Hrun) as ((states & ->) & _).
  reflexivity.
Qed.

Lemma Cancel_query_status env c c' evs :
  Cancel env c = Returned (c', evs) ->
  ok (query_status_ c') = false /\
  (ok (query_status_ c) = false -> c' = c /\ evs = []).
Proof.
  unfold Cancel. destruct (ok (query_status_ c)) eqn:E; simpl; intros Hrun.
  - rewrite (CancelInternal_query_status _ _ _ _ Hrun). simpl. split; [reflexivity | discriminate].
  - inversion Hrun; subst. auto.
Qed.

Lemma UpdateStatus_query_status env st c q c' evs :
  UpdateStatus env st c = Returned (q, c', evs) ->
  q = query_status_ c' /\
  (ok (query_status_ c) = false -> c' = c /\ evs = []) /\
  (ok st = true -> c' = c /\ evs = []) /\
  (ok (query_status_ c) = true -> ok st = false -> query_status_ c' = st).
Proof.
  unfold UpdateStatus. intros Hrun.
  destruct (ok st) eqn:Est.
  { inversion Hrun; subst. repeat split; auto; discriminate. }
  destruct (ok (query_status_ c)) eqn:Eq; simpl in Hrun.
  - destruct (CancelInternal env (set_query_status_ c st)) as [[c1 evs1]| | |] eqn:Ec;
      simpl in Hrun; try discriminate.
    inversion Hrun; subst.
    rewrite (CancelInternal_query_status _ _ _ _ Ec).
    repeat split; auto; discriminate.
  - inversion Hrun; subst. repeat split; auto; discriminate.
Qed.

Lemma UpdateFragmentExecStatus_query_status env params c st c' evs :
  UpdateFragmentExecStatus env params c = Returned (st, c', evs) ->
  (ok (query_status_ c) = false ->
   query_status_ c' = query_status_ c /\ forall i, cancel_rpcs i evs = O) /\
  (ok (query_status_ c') = true ->
   ok (query_status_ c) = true /\ forall i, cancel_rpcs i evs = O).
Proof.
  unfold UpdateFragmentExecStatus. intros Hrun.
  destruct ((backend_num params <? 0)
            || (Z.of_nat (length (backend_exec_states_ c)) <=? backend_num params)).
  { inversion Hrun; subst. split; intros Hq; auto. }
  set (k := Z.to_nat (backend_num params)) in *.
  destruct (nth_error (backend_exec_states_ c) k) as [[exec_state|]|];
    try discriminate.
  destruct (update_exec_state exec_state params) as [[es delta]| | |];
    simpl in Hrun; try discriminate.
  destruct (vector_store (backend_exec_states_ c) k (Some es)) as [states| | |];
    simpl in Hrun; try discriminate.
  match type of Hrun with
  | (if _ then obind (UpdateStatus env _ ?c2) _ else _) = _ =>
      assert (Hq2 : query_status_ c2 = query_status_ c)
        by (destruct (report_done params), (insert_exec_status params); reflexivity);
      set (c2' := c2) in *
  end.
  destruct (ok (report_status params)) eqn:Er; simpl in Hrun.
  - assert (Hc' : query_status_ c' = query_status_ c /\ forall i, cancel_rpcs i evs = O).
    { destruct (report_done params).
      - apply DCHECK_passed in Hrun. inversion Hrun; subst. simpl. split; [exact Hq2|].
        intros i. destruct (_ =? 0); reflexivity.
      - inversion Hrun; subst. auto. }
    destruct Hc' as (Hc' & Hev). rewrite Hc'. split; auto.
  - destruct (UpdateStatus env (report_status params) c2') as [[[q c3] evs3]| | |] eqn:Eu;
      simpl in Hrun; try discriminate.
    inversion Hrun; subst.
    destruct (UpdateStatus_query_status _ _ _ _ _ _ Eu) as (_ & Hfailed & _ & Hfirst).
    rewrite Hq2 in Hfailed, Hfirst. split.
    + intros Hq. destruct (Hfailed Hq) as (-> & ->). auto.
    + intros Hok. destruct (ok (query_status_ c)) eqn:Eq.
      * rewrite (Hfirst eq_refl Er) in Hok. congruence.
      * destruct (Hfailed eq_refl) as (-> & _). congruence.
Qed.

Lemma GetNext_query_status env c st batch c' evs :
  GetNext env c = Returned (st, batch, c', evs) ->
  (ok (query_status_ c) = false ->
   query_status_ c' = query_status_ c /\ forall i, cancel_rpcs i evs = O) /\
  (ok (query_status_ c') = true ->
   ok (query_status_ c) = true /\ forall i, cancel_rpcs i evs = O).
Proof.
  unfold GetNext. intros Hrun. apply DCHECK_passed in Hrun.
  destruct (executor_ c) as [executor|].
  2:{ inversion Hrun; subst. split; auto. }
  destruct (executor_GetNext executor) as [[est b] executor'].
  set (c0 := set_executor_ c (Some executor')) in *.
  destruct (UpdateStatus env est c0) as [[[q c1] evs1]| | |] eqn:Eu;
    simpl in Hrun; try discriminate.
  destruct (UpdateStatus_query_status _ _ _ _ _ _ Eu) as (-> & Hfailed & Hsame & Hfirst).
  change (query_status_ c0) with (query_status_ c) in *.
  assert (Hc' : query_status_ c' = query_status_ c1 /\ evs = evs1).
  { destruct (ok (query_status_ c1)); simpl in Hrun; [|inversion Hrun; now subst].
    destruct b.
    - inversion Hrun; subst. auto.
    - destruct (WaitForAllBackends c1) as [wst| | |]; simpl in Hrun; try discriminate.
      destruct (ok wst); inversion Hrun; subst; auto. }
  destruct Hc' as (Hc' & ->). rewrite Hc'. split.
  - intros Hq. destruct (Hfailed Hq) as (-> & ->). auto.
  - intros Hok. destruct (ok (query_status_ c)) eqn:Eq.
    + destruct (ok est) eqn:Ee.
      * destruct (Hsame eq_refl) as (_ & ->). auto.
      * rewrite (Hfirst eq_refl eq_refl) in Hok. congruence.
    + destruct (Hfailed eq_refl) as (-> & _). simpl in Hok. congruence.
Qed.

End QueryStatusFacts.

Section RunFacts.
Context {build : Build} {FS : Type} `{Hdfs FS}.

Lemma cancel_rpcs_EvFs i (ops : list FsOp) : cancel_rpcs i (map EvFs ops) = O.
Proof. unfold cancel_rpcs. induction ops; simpl; auto. Qed.

Lemma Wait_query_status env (fs : FS) c st c' fs' evs :
  Wait env fs c = Returned (st, c', fs', evs) ->
  (ok (query_status_ c) = false ->
   query_status_ c' = query_status_ c /\ forall i, cancel_rpcs i evs = O) /\
  (ok (query_status_ c') = true ->
   ok (query_status_ c) = true /\ forall i, cancel_rpcs i evs = O).
Proof.
  unfold Wait. intros Hrun.
  destruct (has_called_wait_ c).
  { inversion Hrun; subst. split; auto. }
  set (c0 := set_has_called_wait_ c true) in *.
  (* the part before finalization *)
  match type of Hrun with
  | obind ?first _ = _ =>
      destruct first as [[[st1 c1] evs1]| | |] eqn:Efirst; simpl in Hrun; try discriminate
  end.
  assert (Hlast : c' = c1 /\ forall i, cancel_rpcs i evs = cancel_rpcs i evs1).
  { destruct (ok st1); simpl in Hrun; [|inversion Hrun; now subst].
    destruct (needs_finalization_ c1); [|inversion Hrun; now subst].
    destruct (FinalizeQuery fs c1) as [[[st' fs2] ops]| | |]; simpl in Hrun;
      try discriminate.
    inversion Hrun; subst. split; [reflexivity|].
    intros i. rewrite cancel_rpcs_app, cancel_rpcs_EvFs. lia. }
  destruct Hlast as (-> & Hev). clear Hrun.
  assert (Hfirst : (ok (query_status_ c) = false ->
                    query_status_ c1 = query_status_ c /\
                    forall i, cancel_rpcs i evs1 = O) /\
                   (ok (query_status_ c1) = true ->
                    ok (query_status_ c) = true /\ forall i, cancel_rpcs i evs1 = O)).
  { destruct (executor_ c0) as [executor|].
    - destruct (UpdateStatus env (open_result executor) c0) as [[[q c2] evs2]| | |] eqn:Eu;
        simpl in Efirst; try discriminate.
      destruct (UpdateStatus_query_status _ _ _ _ _ _ Eu) as (-> & Hfailed & Hsame & Hfst).
      change (query_status_ c0) with (query_status_ c) in *.
      assert (Hc1 : query_status_ c1 = query_status_ c2 /\ evs1 = evs2).
      { destruct (ok (query_status_ c2)); simpl in Efirst; [|inversion Efirst; now subst].
        apply DCHECK_passed in Efirst. apply DCHECK_passed in Efirst.
        inversion Efirst; subst. auto. }
      destruct Hc1 as (Hc1 & ->). rewrite Hc1. split.
      + intros Hq. destruct (Hfailed Hq) as (-> & ->). auto.
      + intros Hok. destruct (ok (query_status_ c)) eqn:Eq.
        * destruct (ok (open_result executor)) eqn:Eo.
          -- destruct (Hsame eq_refl) as (_ & ->). auto.
          -- rewrite (Hfst eq_refl eq_refl) in Hok. congruence.
        * destruct (Hfailed eq_refl) as (-> & _). simpl in Hok. congruence.
    - destruct (WaitForAllBackends c0) as [wst| | |]; simpl in Efirst; try discriminate.
      inversion Efirst; subst. split; auto. }
  destruct Hfirst as (H1 & H2). split.
  - intros Hq. destruct (H1 Hq) as (Hs & He). split; [exact Hs|].
    intros i. now rewrite Hev.
  - intros Hok. destruct (H2 Hok) as (Hs & He). split; [exact Hs|].
    intros i. now rewrite Hev.
Qed.

Lemma run_call_query_status call (fs : FS) c c' fs' evs :
  run_call call fs c = Returned (c', fs', evs) ->
  (ok (query_status_ c) = false ->
   query_status_ c' = query_status_ c /\ forall i, cancel_rpcs i evs = O) /\
  (ok (query_status_ c') = true ->
   ok (query_status_ c) = true /\ forall i, cancel_rpcs i evs = O).
Proof.
  destruct call as [env|env st|env params|env|env]; cbn [run_call]; intros Hrun.
  - destruct (Cancel env c) as [[c1 evs1]| | |] eqn:E; simpl in Hrun; try discriminate.
    inversion Hrun; subst.
    destruct (Cancel_query_status _ _ _ _ E) as (Hko & Hfailed). split.
    + intros Hq. destruct (Hfailed Hq) as (-> & ->). auto.
    + congruence.
  - destruct (UpdateStatus env st c) as [[[q c1] evs1]| | |] eqn:E; simpl in Hrun;
      try discriminate.
    inversion Hrun; subst.
    destruct (UpdateStatus_query_status _ _ _ _ _ _ E) as (_ & Hfailed & Hsame & Hfst).
    split.
    + intros Hq. destruct (Hfailed Hq) as (-> & ->). auto.
    + intros Hok. destruct (ok (query_status_ c)) eqn:Eq.
      * destruct (ok st) eqn:Es.
        -- destruct (Hsame eq_refl) as (_ & ->). auto.
        -- rewrite (Hfst eq_refl eq_refl) in Hok. congruence.
      * destruct (Hfailed eq_refl) as (-> & _). congruence.
  - destruct (UpdateFragmentExecStatus env params c) as [[[q c1] evs1]| | |] eqn:E;
      simpl in Hrun; try discriminate.
    inversion Hrun; subst. eapply UpdateFragmentExecStatus_query_status; eauto.
  - destruct (Wait env fs c) as [[[[q c1] fs1] evs1]| | |] eqn:E;
      simpl in Hrun; try discriminate.
    inversion Hrun; subst. eapply Wait_query_status; eauto.
  - destruct (GetNext env c) as [[[[q b] c1] evs1]| | |] eqn:E;
      simpl in Hrun; try discriminate.
    inversion Hrun; subst. eapply GetNext_query_status; eauto.
Qed.

(** X1. Over any run of [Cancel], [UpdateStatus], [UpdateFragmentExecStatus],
    [Wait] and [GetNext] calls that returns: once [query_status_] is an
    error no call changes it and no call sends a [CancelPlanFragment]; and
    when [query_status_] is OK after the run it was OK before it and no
    [CancelPlanFragment] was sent during it. So the query status changes at
    most once, from OK to the first error, and only then is anything
    cancelled. *)
Theorem query_status_changes_at_most_once
    (calls : list CoordinatorCall) (fs : FS) (c c' : Coordinator) (fs' : FS)
    (evs : list Event) :
  run_calls calls fs c = Returned (c', fs', evs) ->
  (ok (query_status_ c) = false ->
   query_status_ c' = query_status_ c /\ forall i, cancel_rpcs i evs = O) /\
  (ok (query_status_ c') = true ->
   ok (query_status_ c) = true /\ forall i, cancel_rpcs i evs = O).
Proof.
  revert fs c c' fs' evs.
  induction calls as [|call calls IH]; intros fs c c' fs' evs Hrun; cbn [run_calls] in Hrun.
  - inversion Hrun; subst. split; auto.
  - destruct (run_call call fs c) as [[[c1 fs1] evs1]| | |] eqn:E1; simpl in Hrun;
      try discriminate.
    destruct (run_calls calls fs1 c1) as [[[c2 fs2] evs2]| | |] eqn:E2; simpl in Hrun;
      try discriminate.
    inversion Hrun; subst.
    destruct (run_call_query_status _ _ _ _ _ _ E1) as (Ha1 & Hb1).
    destruct (IH _ _ _ _ _ E2) as (Ha2 & Hb2). split.
    + intros Hq. destruct (Ha1 Hq) as (Hs1 & He1).
      destruct Ha2 as (Hs2 & He2); [congruence|].
      split; [congruence|]. intros i. now rewrite cancel_rpcs_app, He1, He2.
    + intros Hok. destruct (Hb2 Hok) as (Hok1 & He2).
      destruct (Hb1 Hok1) as (Hok0 & He1).
      split; [exact Hok0|]. intros i. now rewrite cancel_rpcs_app, He1, He2.
Qed.

End RunFacts.

(** The theorem at the cancelled insert: a late error report, a second
    [Cancel], [Wait] and [GetNext] leave the status CANCELLED. *)
Lemma query_status_changes_at_most_once_witness :
  exists c' fs' evs,
    run_calls (build := release_build)
      [ CallUpdateFragmentExecStatus backends_all_ok
          {| backend_num := 1; report_status := Status_msg "disk failure";
             report_done := true; report_profile := [];
             report_error_log := None; insert_exec_status := None |};
        CallCancel backends_all_ok;
        CallWait backends_all_ok;
        CallGetNext backends_all_ok ]
      overwrite_fs insert_cancelled
    = Returned (c', fs', evs) /\
    query_status_ c' = Status_CANCELLED.
Proof.
  match goal with
  | |- exists c' fs' evs, ?run = _ /\ _ =>
      destruct run as [[[c' fs'] evs]| | |] eqn:E; try (vm_compute in E; discriminate)
  end.
  exists c', fs', evs. split; [reflexivity|].
  destruct (query_status_changes_at_most_once _ _ _ _ _ _ E) as (Hfailed & _).
  destruct Hfailed as (Hq & _); [reflexivity | exact Hq].
Defined.

(** ** Cancellation, once more *)

Lemma cancel_exec_state_only_status env i es :
  fst (cancel_exec_state env i es)
  = set_status es (status (fst (cancel_exec_state env i es))).
Proof.
  assert (Hes : forall s, set_status (set_status es s) = set_status es)
    by reflexivity.
  assert (Hsame : es = set_status es (status es)) by (destruct es; reflexivity).
  unfold cancel_exec_state, record_cancel_result.
  repeat match goal with
         | |- context [if ?b then _ else _] => destruct b eqn:?; cbn [fst]
         | |- context [match ?x with Reply _ => _ | TransportException _ => _ end] =>
             destruct x; cbn [fst]
         end; try reflexivity; exact Hsame.
Qed.

Lemma cancel_loop_failed env states : forall k,
  Forall (fun o => exists es, o = Some es /\ ok (status es) = false) states ->
  cancel_loop env k states = Returned (states, []).
Proof.
  induction states as [|o states IH]; intros k Hall; [reflexivity|].
  inversion Hall as [|? ? (es & -> & Hes) Hrest]; subst.
  cbn [cancel_loop]. rewrite (cancel_exec_state_failed env k es Hes), (IH (S k) Hrest).
  reflexivity.
Qed.

Section CancelInternalFacts.
Context {build : Build}.

Lemma DCHECK_holds {A B} (cond : bool) (k : outcome A) (x : A) (k' : outcome B) :
  DCHECK cond k = Returned x -> DCHECK cond k' = k'.
Proof. unfold DCHECK. destruct (NDEBUG || cond); [reflexivity | discriminate]. Qed.

Lemma CancelInternal_notifies env c c' evs :
  CancelInternal env c = Returned (c', evs) ->
  exists evs0, evs = evs0 ++ [EvNotifyAll].
Proof.
  unfold CancelInternal. intros Hrun. apply DCHECK_passed in Hrun.
  destruct (cancel_loop env 0 (backend_exec_states_ c)) as [[states evs1]| | |];
    simpl in Hrun; try discriminate.
  inversion Hrun; subst. eexists. rewrite app_assoc. reflexivity.
Qed.

(** X2. When [CancelInternal] returns, every backend exec state exists and
    has a status that is not OK; of an exec state only the status has
    changed, and not at all when it was an error already. A
    [CancelInternal] that follows, in whatever environment, then calls no
    backend: it cancels the local executor, notifies the waiters again, and
    leaves the coordinator as it is. *)
Theorem CancelInternal_marks_every_instance
    (env : BackendEnv) (c c' : Coordinator) (evs : list Event) :
  CancelInternal env c = Returned (c', evs) ->
  length (backend_exec_states_ c') = length (backend_exec_states_ c) /\
  (forall i, (i < length (backend_exec_states_ c))%nat ->
     exists es es',
       nth_error (backend_exec_states_ c) i = Some (Some es) /\
       nth_error (backend_exec_states_ c') i = Some (Some es') /\
       ok (status es') = false /\
       es' = set_status es (status es') /\
       (ok (status es) = false -> es' = es)) /\
  (forall env2,
     CancelInternal env2 c'
     = Returned (c', match executor_ c with
                     | Some _ => [EvExecutorCancel]
                     | None => []
                     end ++ [EvNotifyAll])).
Proof.
  intros Hrun.
  destruct (CancelInternal_spec _ _ _ _ Hrun) as ((states & Hc') & Hlen & Hnone & Hnth & _).
  assert (Hinst : forall i, (i < length (backend_exec_states_ c))%nat ->
            exists es es',
              nth_error (backend_exec_states_ c) i = Some (Some es) /\
              nth_error (backend_exec_states_ c') i = Some (Some es') /\
              ok (status es') = false /\
              es' = set_status es (status es') /\
              (ok (status es) = false -> es' = es)).
  { intros i Hi.
    destruct (nth_error (backend_exec_states_ c) i) as [[es|]|] eqn:En.
    - exists es, (fst (cancel_exec_state env i es)).
      split; [reflexivity|]. split; [now apply Hnth|].
      split; [apply cancel_exec_state_not_ok|].
      split; [apply cancel_exec_state_only_status|].
      intros Hes. now rewrite cancel_exec_state_failed.
    - exfalso. now apply (Hnone i).
    - apply nth_error_None in En. lia. }
  split; [exact Hlen|]. split; [exact Hinst|].
  intros env2. unfold CancelInternal in *.
  assert (Hq : query_status_ c' = query_status_ c) by (subst c'; reflexivity).
  assert (He : executor_ c' = executor_ c) by (subst c'; reflexivity).
  rewrite Hq, He. rewrite (DCHECK_holds _ _ _ _ Hrun).
  rewrite cancel_loop_failed.
  - simpl. replace (set_backend_exec_states_ c' (backend_exec_states_ c')) with c'
      by (destruct c'; reflexivity).
    reflexivity.
  - apply Forall_forall. intros o Ho.
    apply In_nth_error in Ho. destruct Ho as (i & Hi).
    assert (Hlt : (i < length (backend_exec_states_ c))%nat).
    { rewrite <- Hlen. apply nth_error_Some. congruence. }
    destruct (Hinst i Hlt) as (es & es' & _ & Hn' & Hko & _).
    rewrite Hn' in Hi. inversion Hi; subst. eauto.
Qed.

End CancelInternalFacts.

(** The theorem at the running insert with its query status set to
    CANCELLED, as [Cancel] does before it calls [CancelInternal]. *)
Lemma CancelInternal_marks_every_instance_witness :
  CancelInternal (build := debug_build) backends_cancel_retried insert_cancelled
  = Returned (insert_cancelled, [EvNotifyAll]).
Proof.
  destruct (CancelInternal (build := debug_build) backends_all_ok
              (set_query_status_ insert_running Status_CANCELLED))
    as [[c' evs]| | |] eqn:E; try (vm_compute in E; discriminate).
  destruct (CancelInternal_marks_every_instance _ _ _ _ E) as (_ & _ & Hagain).
  vm_compute in E. inversion E; subst. apply Hagain.
Defined.

(** ** Status reports, once more *)

Section ReportFacts.
Context {build : Build}.

Lemma update_exec_state_status exec_state params es delta :
  update_exec_state exec_state params = Returned (es, delta) ->
  status es = report_status params /\ done es = report_done params /\
  initiated es = initiated exec_state /\ hostport es = hostport exec_state /\
  fragment_instance_id es = fragment_instance_id exec_state.
Proof.
  unfold update_exec_state. intros Hrun. apply DCHECK_passed in Hrun.
  unfold UpdateNumScanRangesCompleted in Hrun. apply DCHECK_passed in Hrun.
  inversion Hrun; subst. simpl. auto.
Qed.

(** What a report with an OK status does, for a backend number in range. *)
Lemma UpdateFragmentExecStatus_ok_report env params c st c' evs :
  ok (report_status params) = true ->
  0 <= backend_num params < Z.of_nat (length (backend_exec_states_ c)) ->
  UpdateFragmentExecStatus env params c = Returned (st, c', evs) ->
  st = Status_OK /\
  length (backend_exec_states_ c') = length (backend_exec_states_ c) /\
  query_status_ c' = query_status_ c /\
  (forall j, j <> Z.to_nat (backend_num params) ->
             nth_error (backend_exec_states_ c') j = nth_error (backend_exec_states_ c) j) /\
  num_remaining_backends_ c' =
    (if report_done params then wrap32 (num_remaining_backends_ c - 1)
     else num_remaining_backends_ c) /\
  evs = (if report_done params && (wrap32 (num_remaining_backends_ c - 1) =? 0)
         then [EvNotifyAll] else []).
Proof.
  intros Hok Hrange. unfold UpdateFragmentExecStatus.
  destruct (Z.ltb_spec (backend_num params) 0); [lia|].
  destruct (Z.leb_spec (Z.of_nat (length (backend_exec_states_ c))) (backend_num params));
    [lia|].
  cbn [orb]. set (k := Z.to_nat (backend_num params)).
  destruct (nth_error (backend_exec_states_ c) k) as [[exec_state|]|];
    try discriminate.
  destruct (update_exec_state exec_state params) as [[es delta]| | |];
    simpl; try discriminate.
  destruct (vector_store (backend_exec_states_ c) k (Some es)) as [states| | |] eqn:Ev;
    simpl; try discriminate.
  destruct (vector_store_spec _ _ _ _ Ev) as (Hlen & _ & Hnth).
  rewrite Hok. cbn [negb].
  match goal with
  | |- context [set_num_remaining_backends_ ?c2 _] =>
      assert (Hc2 : backend_exec_states_ c2 = states /\
                    query_status_ c2 = query_status_ c /\
                    num_remaining_backends_ c2 = num_remaining_backends_ c)
        by (destruct (report_done params), (insert_exec_status params); auto);
      set (c2' := c2) in *
  end.
  destruct Hc2 as (Hs2 & Hq2 & Hn2).
  assert (Hnth' : forall j, j <> k -> nth_error states j = nth_error (backend_exec_states_ c) j).
  { intros j Hj. rewrite Hnth. destruct (Nat.eqb_spec j k); [contradiction | reflexivity]. }
  destruct (report_done params); intros Hrun.
  - apply DCHECK_passed in Hrun. cbv zeta in Hrun. injection Hrun as <- <- <-.
    cbn [backend_exec_states_ query_status_ num_remaining_backends_
         set_num_remaining_backends_ andb].
    rewrite Hs2, Hq2, Hn2. auto 10.
  - injection Hrun as <- <- <-. rewrite Hs2, Hq2, Hn2. auto 10.
Qed.

(** X3. [UpdateFragmentExecStatus] answers a report whose backend number is
    negative or not below the number of backend exec states with the
    internal error [unknown backend number] and does nothing else. Every
    other report that it returns from it answers with OK, also when the
    report carries an error, and the number of exec states stays the same;
    a report with an OK status changes no exec state but the reporter's. *)
Theorem UpdateFragmentExecStatus_unknown_backend
    (env : BackendEnv) (params : TReportExecStatusParams) (c : Coordinator) :
  (backend_num params < 0 \/
   Z.of_nat (length (backend_exec_states_ c)) <= backend_num params ->
   UpdateFragmentExecStatus env params c
   = Returned ({| status_code := INTERNAL_ERROR;
                  error_msgs := ["unknown backend number"%string] |}, c, [])) /\
  (0 <= backend_num params < Z.of_nat (length (backend_exec_states_ c)) ->
   forall st c' evs,
     UpdateFragmentExecStatus env params c = Returned (st, c', evs) ->
     st = Status_OK /\
     length (backend_exec_states_ c') = length (backend_exec_states_ c) /\
     (ok (report_status params) = true ->
      forall j, j <> Z.to_nat (backend_num params) ->
                nth_error (backend_exec_states_ c') j
                = nth_error (backend_exec_states_ c) j)).
Proof.
  split.
  - intros Hout. unfold UpdateFragmentExecStatus.
    destruct (Z.ltb_spec (backend_num params) 0); [reflexivity|].
    destruct (Z.leb_spec (Z.of_nat (length (backend_exec_states_ c))) (backend_num params));
      [reflexivity | lia].
  - intros Hrange st c' evs Hrun.
    destruct (ok (report_status params)) eqn:Hok.
    + destruct (UpdateFragmentExecStatus_ok_report _ _ _ _ _ _ Hok Hrange Hrun)
        as (Hst & Hlen & _ & Hnth & _).
      auto.
    + unfold UpdateFragmentExecStatus in Hrun.
      destruct (Z.ltb_spec (backend_num params) 0); [lia|].
      destruct (Z.leb_spec (Z.of_nat (length (backend_exec_states_ c))) (backend_num params));
        [lia|].
      cbn [orb] in Hrun. set (k := Z.to_nat (backend_num params)) in *.
      destruct (nth_error (backend_exec_states_ c) k) as [[exec_state|]|];
        try discriminate.
      destruct (update_exec_state exec_state params) as [[es delta]| | |];
        simpl in Hrun; try discriminate.
      destruct (vector_store (backend_exec_states_ c) k (Some es)) as [states| | |] eqn:Ev;
        simpl in Hrun; try discriminate.
      destruct (vector_store_spec _ _ _ _ Ev) as (Hlen & _).
      rewrite Hok in Hrun. cbn [negb] in Hrun.
      match type of Hrun with
      | obind (UpdateStatus env ?s ?c2) _ = _ =>
          assert (Hs2 : backend_exec_states_ c2 = states)
            by (destruct (report_done params), (insert_exec_status params); reflexivity);
          destruct (UpdateStatus env s c2) as [[[q c3] evs3]| | |] eqn:Eu;
            simpl in Hrun; try discriminate
      end.
      inversion Hrun; subst.
      split; [reflexivity|]. split; [|discriminate].
      unfold UpdateStatus in Eu. rewrite Hok in Eu.
      match type of Eu with
      | (if negb (ok (query_status_ ?c2)) then _ else _) = _ =>
          destruct (ok (query_status_ c2)); simpl in Eu
      end.
      * match type of Eu with
        | obind (CancelInternal env ?c0) _ = _ =>
            destruct (CancelInternal env c0) as [[c4 evs4]| | |] eqn:Ec;
              simpl in Eu; try discriminate
        end.
        inversion Eu; subst.
        destruct (CancelInternal_spec _ _ _ _ Ec) as (_ & Hlen4 & _).
        simpl in Hlen4. rewrite Hlen4, Hs2. exact Hlen.
      * inversion Eu; subst. rewrite Hs2. exact Hlen.
Qed.

(** X4. A report with an error status for a backend in range, received
    while the query status is OK, makes its status the query status and
    the reporter's status and has [CancelInternal] run: the reporter is
    not sent a [CancelPlanFragment], every other instance that is
    initiated, not done, OK and whose client can be obtained is, and the
    waiters are notified. The report is answered with OK, and the number of
    remaining backends is not counted down, also when the report says
    done. *)
Theorem error_report_cancels_the_other_instances
    (env : BackendEnv) (params : TReportExecStatusParams) (c : Coordinator)
    (st : Status) (c' : Coordinator) (evs : list Event) :
  ok (query_status_ c) = true ->
  ok (report_status params) = false ->
  0 <= backend_num params < Z.of_nat (length (backend_exec_states_ c)) ->
  UpdateFragmentExecStatus env params c = Returned (st, c', evs) ->
  let k := Z.to_nat (backend_num params) in
  st = Status_OK /\
  query_status_ c' = report_status params /\
  instance_status c' k = Some (report_status params) /\
  cancel_rpcs k evs = O /\
  num_remaining_backends_ c' = num_remaining_backends_ c /\
  (forall i es,
     i <> k ->
     nth_error (backend_exec_states_ c) i = Some (Some es) ->
     ok (status es) = true -> initiated es = true -> done es = false ->
     ok (cancel_GetClient env i) = true ->
     (0 < cancel_rpcs i evs)%nat /\ instance_failed c' i) /\
  (exists evs0, evs = evs0 ++ [EvNotifyAll]).
Proof.
  intros Hq Hko Hrange Hrun k. unfold UpdateFragmentExecStatus in Hrun.
  destruct (Z.ltb_spec (backend_num params) 0); [lia|].
  destruct (Z.leb_spec (Z.of_nat (length (backend_exec_states_ c))) (backend_num params));
    [lia|].
  cbn [orb] in Hrun. fold k in Hrun.
  destruct (nth_error (backend_exec_states_ c) k) as [[exec_state|]|];
    try discriminate.
  destruct (update_exec_state exec_state params) as [[es delta]| | |] eqn:Eu;
    simpl in Hrun; try discriminate.
  destruct (update_exec_state_status _ _ _ _ Eu) as (Hes & _).
  destruct (vector_store (backend_exec_states_ c) k (Some es)) as [states| | |] eqn:Ev;
    simpl in Hrun; try discriminate.
  destruct (vector_store_spec _ _ _ _ Ev) as (Hlen & _ & Hnth).
  rewrite Hko in Hrun. cbn [negb] in Hrun.
  match type of Hrun with
  | obind (UpdateStatus env ?s ?c2) _ = _ =>
      assert (Hc2 : backend_exec_states_ c2 = states /\
                    query_status_ c2 = query_status_ c /\
                    num_remaining_backends_ c2 = num_remaining_backends_ c)
        by (destruct (report_done params), (insert_exec_status params); auto);
      set (c2' := c2) in *;
      destruct (UpdateStatus env s c2') as [[[q c3] evs3]| | |] eqn:Eus;
        simpl in Hrun; try discriminate
  end.
  destruct Hc2 as (Hs2 & Hq2 & Hn2).
  inversion Hrun; subst c3 evs3 st. clear Hrun.
  unfold UpdateStatus in Eus. rewrite Hko, Hq2, Hq in Eus. cbn [negb] in Eus.
  destruct (CancelInternal env (set_query_status_ c2' (report_status params)))
    as [[c4 evs4]| | |] eqn:Ec; simpl in Eus; try discriminate.
  inversion Eus; subst q c4 evs4. clear Eus.
  destruct (CancelInternal_notifies _ _ _ _ Ec) as (evs0 & Hlast).
  destruct (CancelInternal_spec _ _ _ _ Ec)
    as ((states' & Hc') & _ & _ & Hnth' & Hcount).
  cbn [backend_exec_states_ set_query_status_] in Hnth', Hcount.
  rewrite Hs2 in Hnth', Hcount.
  assert (Hk : nth_error states k = Some (Some es)) by (rewrite Hnth, Nat.eqb_refl; reflexivity).
  assert (Hesko : ok (status es) = false) by (rewrite Hes; exact Hko).
  split; [reflexivity|].
  split; [subst c'; reflexivity|].
  split.
  { unfold instance_status. rewrite (Hnth' k es Hk), (cancel_exec_state_failed env k es Hesko).
    simpl. now rewrite Hes. }
  split.
  { rewrite Hcount, Hk, (cancel_exec_state_failed env k es Hesko). reflexivity. }
  split; [subst c'; simpl; exact Hn2|].
  split; [|eauto].
  intros i es0 Hik Hi H1 H2 H3 H4.
  assert (Hi' : nth_error states i = Some (Some es0)).
  { rewrite Hnth. destruct (Nat.eqb_spec i k); [contradiction | exact Hi]. }
  split.
  - rewrite Hcount, Hi'. now apply cancel_exec_state_sends.
  - exists (fst (cancel_exec_state env i es0)).
    split; [now apply Hnth' | apply cancel_exec_state_not_ok].
Qed.

Lemma run_reports_ok_reports env reports : forall c c' evs,
  Forall (fun p => ok (report_status p) = true /\
                   0 <= backend_num p < Z.of_nat (length (backend_exec_states_ c)))
         reports ->
  Z.of_nat (length (filter report_done reports)) <= num_remaining_backends_ c < 2 ^ 31 ->
  run_reports env reports c = Returned (c', evs) ->
  length (backend_exec_states_ c') = length (backend_exec_states_ c) /\
  num_remaining_backends_ c'
  = num_remaining_backends_ c - Z.of_nat (length (filter report_done reports)) /\
  query_status_ c' = query_status_ c /\
  (forall ev, In ev evs ->
              ev = EvNotifyAll /\ num_remaining_backends_ c' = 0 /\
              filter report_done reports <> []) /\
  (filter report_done reports <> [] -> num_remaining_backends_ c' = 0 ->
   In EvNotifyAll evs).
Proof.
  induction reports as [|p reports IH]; intros c c' evs Hall Hn Hrun;
    cbn [run_reports] in Hrun.
  - inversion Hrun; subst. simpl.
    split; [reflexivity|]. split; [lia|]. split; [reflexivity|].
    split; [intros ev [] | congruence].
  - inversion Hall as [|? ? (Hok & Hrange) Hrest]; subst.
    destruct (UpdateFragmentExecStatus env p c) as [[[st c1] evs1]| | |] eqn:Eu;
      simpl in Hrun; try discriminate.
    destruct (run_reports env reports c1) as [[c2 evs2]| | |] eqn:Er;
      simpl in Hrun; try discriminate.
    inversion Hrun; subst c2 evs. clear Hrun.
    destruct (UpdateFragmentExecStatus_ok_report _ _ _ _ _ _ Hok Hrange Eu)
      as (_ & Hlen1 & Hq1 & _ & Hn1 & Hev1).
    cbn [filter] in *.
    destruct (report_done p) eqn:Ed; cbn [length andb] in *.
    + assert (Hw : wrap32 (num_remaining_backends_ c - 1) = num_remaining_backends_ c - 1).
      { unfold wrap32. rewrite Z.mod_small; lia. }
      rewrite Hw in Hn1, Hev1.
      destruct (IH c1 c' evs2) as (Hlen2 & Hn2 & Hq2 & Hevs2 & Hnot2).
      { rewrite Hlen1. exact Hrest. }
      { lia. }
      { exact Er. }
      split; [lia|]. split; [lia|]. split; [congruence|].
      split.
      * intros ev Hin. apply in_app_or in Hin. destruct Hin as [Hin|Hin].
        -- destruct (Z.eqb_spec (num_remaining_backends_ c - 1) 0) as [H0|H0];
             subst evs1; [|destruct Hin].
           destruct Hin as [<-|[]]. split; [reflexivity|]. split; [lia | discriminate].
        -- destruct (Hevs2 ev Hin) as (-> & H0 & _). split; [reflexivity|].
           split; [exact H0 | discriminate].
      * intros _ H0. apply in_or_app.
        destruct (filter report_done reports) eqn:Ef.
        -- left. simpl in *.
           destruct (Z.eqb_spec (num_remaining_backends_ c - 1) 0); [subst evs1; now left | lia].
        -- right. apply Hnot2; [discriminate | exact H0].
    + subst evs1.
      destruct (IH c1 c' evs2) as (Hlen2 & Hn2 & Hq2 & Hevs2 & Hnot2).
      { rewrite Hlen1. exact Hrest. }
      { lia. }
      { exact Er. }
      split; [lia|]. split; [lia|]. split; [congruence|].
      split; [exact Hevs2 | exact Hnot2].
Qed.

(** X5. A run of reports that all carry an OK status, for backends in
    range, counts [num_remaining_backends_] down by one for each report
    that says done, whichever backend it is from, and changes nothing of
    the query status. It sends nothing to any backend, and it notifies the
    waiters exactly when a done report brings the count to zero. After the
    run [WaitForAllBackends] returns the query status when the count is
    zero, and blocks when backends remain and the query status is OK. *)
Theorem done_reports_count_down
    (env : BackendEnv) (reports : list TReportExecStatusParams)
    (c c' : Coordinator) (evs : list Event) :
  Forall (fun p => ok (report_status p) = true /\
                   0 <= backend_num p < Z.of_nat (length (backend_exec_states_ c)))
         reports ->
  Z.of_nat (length (filter report_done reports)) <= num_remaining_backends_ c < 2 ^ 31 ->
  run_reports env reports c = Returned (c', evs) ->
  num_remaining_backends_ c'
  = num_remaining_backends_ c - Z.of_nat (length (filter report_done reports)) /\
  query_status_ c' = query_status_ c /\
  (forall ev, In ev evs -> ev = EvNotifyAll) /\
  (In EvNotifyAll evs <->
   filter report_done reports <> [] /\ num_remaining_backends_ c' = 0) /\
  (num_remaining_backends_ c' = 0 ->
   WaitForAllBackends c' = Returned (query_status_ c)) /\
  (0 < num_remaining_backends_ c' -> ok (query_status_ c) = true ->
   WaitForAllBackends c' = Blocked).
Proof.
  intros Hall Hn Hrun.
  destruct (run_reports_ok_reports _ _ _ _ _ Hall Hn Hrun)
    as (_ & Hn' & Hq' & Hevs & Hnot).
  split; [exact Hn'|]. split; [exact Hq'|].
  split; [intros ev Hin; now destruct (Hevs ev Hin)|].
  split.
  { split.
    - intros Hin. destruct (Hevs _ Hin) as (_ & H0 & Hf). auto.
    - intros (Hf & H0). now apply Hnot. }
  unfold WaitForAllBackends. rewrite Hq'. split.
  - intros H0. rewrite H0. reflexivity.
  - intros Hpos Hok. rewrite Hok.
    destruct (Z.ltb_spec 0 (num_remaining_backends_ c')); [reflexivity | lia].
Qed.

End ReportFacts.

(** The theorem at the running insert, which has two backends. *)
Lemma UpdateFragmentExecStatus_unknown_backend_witness :
  UpdateFragmentExecStatus (build := debug_build) backends_all_ok
    (progress_report 2) insert_running
  = Returned ({| status_code := INTERNAL_ERROR;
                 error_msgs := ["unknown backend number"%string] |},
              insert_running, []).
Proof.
  destruct (UpdateFragmentExecStatus_unknown_backend (build := debug_build)
              backends_all_ok (progress_report 2) insert_running) as (Hout & _).
  apply Hout. right. vm_compute. discriminate.
Defined.

(** The theorem at the running insert, when backend 0 reports a failure:
    backend 1 is cancelled, backend 0 is not. *)
Lemma error_report_cancels_the_other_instances_witness :
  exists c' evs,
    UpdateFragmentExecStatus (build := debug_build) backends_all_ok
      (failed_report 0) insert_running
    = Returned (Status_OK, c', evs) /\
    query_status_ c' = Status_msg "disk failure" /\
    cancel_rpcs 0 evs = O /\ (0 < cancel_rpcs 1 evs)%nat /\
    num_remaining_backends_ c' = 2.
Proof.
  destruct (UpdateFragmentExecStatus (build := debug_build) backends_all_ok
              (failed_report 0) insert_running)
    as [[[st c'] evs]| | |] eqn:E; try (vm_compute in E; discriminate).
  destruct (error_report_cancels_the_other_instances (build := debug_build)
              backends_all_ok (failed_report 0) insert_running st c' evs
              eq_refl eq_refl (conj (Z.le_refl 0) eq_refl) E)
    as (-> & Hq & _ & H0 & Hn & Hothers & _).
  exists c', evs. split; [reflexivity|]. split; [exact Hq|]. split; [exact H0|].
  split; [|exact Hn].
  destruct (nth_error (backend_exec_states_ insert_running) 1) as [[es|]|] eqn:En;
    try (vm_compute in En; discriminate).
  assert (Hes : ok (status es) = true /\ initiated es = true /\ done es = false)
    by (vm_compute in En; inversion En; subst; auto).
  destruct Hes as (H1 & H2 & H3).
  apply (Hothers 1%nat es); auto; discriminate.
Defined.

(** The theorem at the running insert, when both backends report done. *)
Lemma done_reports_count_down_witness :
  exists c',
    run_reports (build := debug_build) backends_all_ok
      [done_report 1; progress_report 0; done_report 0] insert_running
    = Returned (c', [EvNotifyAll]) /\
    num_remaining_backends_ c' = 0 /\
    WaitForAllBackends c' = Returned Status_OK.
Proof.
  destruct (run_reports (build := debug_build) backends_all_ok
              [done_report 1; progress_report 0; done_report 0] insert_running)
    as [[c' evs]| | |] eqn:E; try (vm_compute in E; discriminate).
  assert (Hevs : evs = [EvNotifyAll]) by (vm_compute in E; inversion E; reflexivity).
  subst evs. exists c'. split; [reflexivity|].
  refine ((fun Hthm => _)
            (done_reports_count_down (build := debug_build) backends_all_ok
               [done_report 1; progress_report 0; done_report 0]
               insert_running c' [EvNotifyAll] _ _ E)).
  - destruct Hthm as (Hn & _ & _ & _ & Hwait & _).
    split; [exact Hn | apply (Hwait Hn)].
  - repeat constructor; vm_compute; congruence.
  - vm_compute. split; congruence.
Defined.

(** ** [GetNext] with a local executor *)

Section GetNextFacts.
Context {build : Build}.

(** X6. What [GetNext] returns tells the state of the query: the status
    returned is OK exactly when [query_status_] is OK afterwards, and a
    status that is not OK is [query_status_] itself, whatever the local
    executor answered. With a local executor a NULL batch is returned with
    OK only when no backend remains, and the rows of a batch returned with
    OK, and of no other, are added to [num_rows_]. *)
Theorem GetNext_returns_query_status
    (env : BackendEnv) (c : Coordinator) (st : Status) (batch : option Z)
    (c' : Coordinator) (evs : list Event) :
  GetNext env c = Returned (st, batch, c', evs) ->
  ok st = ok (query_status_ c') /\
  (ok st = false -> st = query_status_ c') /\
  (executor_ c <> None -> ok st = true -> batch = None ->
   num_remaining_backends_ c' <= 0) /\
  num_rows_ c' = match batch with
                 | Some rows => if ok st then wrap32 (num_rows_ c + rows)
                                else num_rows_ c
                 | None => num_rows_ c
                 end.
Proof.
  unfold GetNext. intros Hrun. apply DCHECK_passed in Hrun.
  destruct (executor_ c) as [executor|].
  2:{ inversion Hrun; subst. repeat split; auto. congruence. }
  destruct (executor_GetNext executor) as [[est b] executor'].
  set (c0 := set_executor_ c (Some executor')) in *.
  destruct (UpdateStatus env est c0) as [[[q c1] evs1]| | |] eqn:Eu;
    simpl in Hrun; try discriminate.
  destruct (UpdateStatus_spec _ _ _ _ _ _ Eu) as (-> & states & qs & Hc1).
  assert (Hrows : num_rows_ c1 = num_rows_ c) by (rewrite Hc1; reflexivity).
  destruct (ok (query_status_ c1)) eqn:Hq; simpl in Hrun.
  - destruct b as [rows|].
    + inversion Hrun; subst st batch c' evs. simpl. rewrite Hq, Hrows.
      repeat split; auto; discriminate.
    + unfold WaitForAllBackends in Hrun. rewrite Hq in Hrun.
      destruct (Z.ltb_spec 0 (num_remaining_backends_ c1)); simpl in Hrun;
        [discriminate|].
      rewrite Hq in Hrun. simpl in Hrun.
      inversion Hrun; subst st batch c' evs. simpl. rewrite Hq.
      repeat split; auto; discriminate.
  - inversion Hrun; subst st batch c' evs. rewrite Hq.
    repeat split; auto; try discriminate.
    destruct b; auto.
Qed.

End GetNextFacts.

(** The theorem at the select whose local executor has a batch of five
    rows. *)
Lemma GetNext_returns_query_status_witness :
  exists c' evs,
    GetNext (build := debug_build) backends_all_ok select_with_batch
    = Returned (Status_OK, Some 5, c', evs) /\
    query_status_ c' = Status_OK /\ num_rows_ c' = 5.
Proof.
  destruct (GetNext (build := debug_build) backends_all_ok select_with_batch)
    as [[[[st batch] c'] evs]| | |] eqn:E; try (vm_compute in E; discriminate).
  destruct (GetNext_returns_query_status _ _ _ _ _ _ E) as (Hok & _ & _ & Hrows).
  assert (Hst : st = Status_OK /\ batch = Some 5)
    by (vm_compute in E; inversion E; auto).
  destruct Hst as (-> & ->).
  exists c', evs. split; [reflexivity|]. split; [|exact Hrows].
  vm_compute in E. inversion E. reflexivity.
Defined.

(** ** [ExecRemoteFragment] on any exec state *)

Lemma exec_rpcs_repeat i k n :
  exec_rpcs i (repeat (EvExecPlanFragment k) n) = if Nat.eqb i k then n else O.
Proof.
  unfold exec_rpcs. induction n as [|n IH]; simpl.
  - destruct (Nat.eqb i k); reflexivity.
  - destruct (Nat.eqb i k); simpl; [now rewrite IH | exact IH].
Qed.

Lemma exec_rpcs_app i evs evs' :
  exec_rpcs i (evs ++ evs') = (exec_rpcs i evs + exec_rpcs i evs')%nat.
Proof. unfold exec_rpcs. now rewrite filter_app, length_app. Qed.

(** X7. [ExecRemoteFragment] calls [ExecPlanFragment] on no client but the
    backend's own, at most twice, and not at all exactly when the client
    could not be obtained; the second call is made only after the first
    threw a transport exception and the client was reopened. It changes
    nothing of the exec state but its status and [initiated]: the instance
    becomes initiated exactly when the status returned is OK. When the
    client cannot be obtained, that error is returned and the exec state is
    as it was; so it is when the first call threw and the client cannot be
    reopened. In every other case the status returned is the instance's
    status afterwards: the status of the reply of the last call made, or
    the status made of the transport exception of the second call. *)
Theorem ExecRemoteFragment_outcome
    (env : BackendEnv) (i : nat) (es : BackendExecState) :
  exists n,
    snd (ExecRemoteFragment env i es) = repeat (EvExecPlanFragment i) n /\
    (n <= 2)%nat /\
    (n = O <-> ok (exec_GetClient env i) = false) /\
    (n = 2%nat -> (exists what, exec_first env i = TransportException what) /\
                  ok (exec_ReopenClient env i) = true) /\
    let st := fst (fst (ExecRemoteFragment env i es)) in
    let es' := snd (fst (ExecRemoteFragment env i es)) in
    es' = set_initiated (set_status es (status es')) (initiated es') /\
    initiated es' = (initiated es || ok st) /\
    (ok st = true -> status es' = st) /\
    (ok (exec_GetClient env i) = false ->
     st = exec_GetClient env i /\ es' = es) /\
    (ok (exec_GetClient env i) = true ->
     match exec_first env i with
     | Reply result => st = result /\ status es' = result
     | TransportException _ =>
         if ok (exec_ReopenClient env i) then
           match exec_retry env i with
           | Reply result => st = result /\ status es' = result
           | TransportException what =>
               st = Status_msg (exec_rpc_failed what) /\
               status es' = Status_msg (exec_rpc_failed what)
           end
         else st = exec_ReopenClient env i /\ es' = es
     end).
Proof.
  assert (Hsame : forall e : BackendExecState,
             e = set_initiated (set_status e (status e)) (initiated e))
    by (intros e; destruct e; reflexivity).
  unfold ExecRemoteFragment, record_exec_result.
  destruct (ok (exec_GetClient env i)) eqn:E1; simpl.
  2:{ exists O. rewrite E1, orb_false_r. repeat split; auto; try lia; discriminate. }
  destruct (exec_first env i) as [r|what]; simpl.
  - exists 1%nat. destruct (ok r) eqn:Er; simpl; rewrite ?Er, ?orb_true_r, ?orb_false_r;
      repeat split; auto; try lia; try discriminate.
  - destruct (ok (exec_ReopenClient env i)) eqn:E2; simpl.
    + destruct (exec_retry env i) as [r|what']; simpl.
      * exists 2%nat. destruct (ok r) eqn:Er; simpl;
          rewrite ?Er, ?orb_true_r, ?orb_false_r;
          repeat split; eauto; try lia; try discriminate.
      * exists 2%nat. rewrite orb_false_r.
        repeat split; eauto; try lia; try discriminate.
    + exists 1%nat. rewrite E2, orb_false_r.
      repeat split; auto; try lia; try discriminate.
Qed.

(** ** Finalization, in general *)

Lemma Forall_not_failed_map_deleted ps :
  Forall (fun op => op_failed op = false) (map deleted_ok ps).
Proof. induction ps; simpl; constructor; auto. Qed.

Lemma Forall_not_failed_map_renamed ms :
  Forall (fun op => op_failed op = false) (map renamed_ok ms).
Proof. induction ms; simpl; constructor; auto. Qed.

Lemma stopped_at_first_failure_app st ops1 ops2 :
  Forall (fun op => op_failed op = false) ops1 ->
  stopped_at_first_failure st ops2 ->
  stopped_at_first_failure st (ops1 ++ ops2).
Proof.
  unfold stopped_at_first_failure. intros H1 H2. destruct (ok st).
  - apply Forall_app. auto.
  - destruct H2 as (before & failed & -> & Hf & Hb).
    exists (ops1 ++ before), failed. rewrite app_assoc.
    split; [reflexivity|]. split; [exact Hf|]. apply Forall_app. auto.
Qed.

Lemma stopped_failed msg before failed :
  op_failed failed = true ->
  Forall (fun op => op_failed op = false) before ->
  stopped_at_first_failure (Status_msg msg) (before ++ [failed]).
Proof. intros Hf Hb. exists before, failed. auto. Qed.

Lemma sset_insert_mono (s : list string) k p :
  p = k \/ In p s -> In p (sset_insert s k).
Proof.
  induction s as [|k' s IH]; simpl.
  - intros [->|[]]. now left.
  - destruct (String.compare k k') eqn:E; simpl.
    + apply String.compare_eq_iff in E. subst k'. intros [->|Hin]; auto.
    + intros [->|Hin]; auto.
    + intros [->|[<-|Hin]]; auto.
Qed.

Section FinalizerTraces.
Context {build : Build} {FS : Type} `{Hdfs FS}.

Lemma delete_tmp_dirs_trace (dirs : list string) : forall fs st fs' ops,
  delete_tmp_dirs fs dirs = (st, fs', ops) ->
  (st = Status_OK /\ ops = map deleted_ok dirs) \/
  (exists deleted failed rest,
      dirs = deleted ++ failed :: rest /\
      ops = map deleted_ok deleted ++ [OpDelete failed false] /\
      st = Status_msg (AppendHdfsErrorMessage
             "Failed to delete temporary directory: " failed)).
Proof.
  induction dirs as [|d dirs IH]; intros fs st fs' ops Hrun; simpl in Hrun.
  - inversion Hrun; subst. now left.
  - destruct (hdfsDelete fs d) as [[|] fs1] eqn:Ed.
    + destruct (delete_tmp_dirs fs1 dirs) as [[st1 fs2] ops1] eqn:Er.
      inversion Hrun; subst.
      destruct (IH _ _ _ _ Er) as [(-> & ->)|(deleted & failed & rest & -> & -> & ->)].
      * now left.
      * right. exists (d :: deleted), failed, rest. auto.
    + inversion Hrun; subst. right. exists [], d, dirs. auto.
Qed.

Lemma move_files_tmp_dirs (moves : FileMoveMap) : forall fs tmp st fs' ops tmp',
  move_files fs moves tmp = (st, fs', ops, tmp') ->
  ok st = true ->
  forall p, In p tmp \/ In (p, ""%string) moves -> In p tmp'.
Proof.
  induction moves as [|[src dst] moves IH]; intros fs tmp st fs' ops tmp' Hrun Hok p Hp;
    simpl in Hrun.
  - inversion Hrun; subst. destruct Hp as [Hp|[]]. exact Hp.
  - destruct (String.eqb_spec dst "") as [->|Hne]; simpl in Hrun.
    + apply (IH _ _ _ _ _ _ Hrun Hok).
      destruct Hp as [Hp|[Hp|Hp]]; [| |now right].
      * left. apply sset_insert_mono. now right.
      * inversion Hp; subst. left. apply sset_insert_mono. now left.
    + destruct (hdfsRename fs src dst) as [[|] fs1] eqn:Er.
      * destruct (move_files fs1 moves tmp) as [[[st1 fs2] ops1] tmp1] eqn:Em.
        inversion Hrun; subst.
        apply (IH _ _ _ _ _ _ Em Hok).
        destruct Hp as [Hp|[Hp|Hp]]; [now left | | now right].
        inversion Hp; subst. contradiction.
      * inversion Hrun; subst. discriminate.
Qed.

Lemma overwrite_root_stopped fs dir st fs' ops :
  overwrite_root fs dir = (st, fs', ops) -> stopped_at_first_failure st ops.
Proof.
  unfold overwrite_root. destruct (hdfsListDirectory fs dir) as [listing|].
  - destruct (delete_existing_files fs listing) as [[dst fs1] dops] eqn:Ed.
    intros Hrun. inversion Hrun; subst.
    destruct (delete_existing_files_spec _ _ _ _ _ Ed)
      as [(-> & ->)|(deleted & failed & rest & _ & -> & ->)].
    + constructor; [reflexivity | apply Forall_not_failed_map_deleted].
    + apply (stopped_failed _ (OpListDirectory dir true :: map deleted_ok deleted));
        [reflexivity|].
      constructor; [reflexivity | apply Forall_not_failed_map_deleted].
  - intros Hrun. inversion Hrun; subst. now apply (stopped_failed _ []).
Qed.

Lemma overwrite_partition_stopped fs dir st fs' ops :
  overwrite_partition fs dir = (st, fs', ops) -> stopped_at_first_failure st ops.
Proof.
  unfold overwrite_partition. destruct (hdfsExists fs dir).
  - destruct (hdfsDelete fs dir) as [[|] fs1]; intros Hrun; inversion Hrun; subst.
    + repeat constructor.
    + apply (stopped_failed _ [OpExists dir true]); [reflexivity | repeat constructor].
  - intros Hrun. inversion Hrun; subst. repeat constructor.
Qed.

Lemma finalize_partitions_stopped params n (parts : PartitionRowCount) :
  forall fs st fs' ops,
  finalize_partitions params n fs parts = Returned (st, fs', ops) ->
  stopped_at_first_failure st ops /\
  (ok st = true ->
   forall partition, In partition parts ->
                     In (OpCreateDirectory (partition_dir params (fst partition))) ops).
Proof.
  induction parts as [|partition parts IH]; intros fs st fs' ops Hrun;
    cbn [finalize_partitions] in Hrun.
  - inversion Hrun; subst. split; [constructor | intros _ ? []].
  - fold (partition_dir params (fst partition)) in Hrun.
    set (dir := partition_dir params (fst partition)) in *.
    match type of Hrun with
    | obind ?first _ = _ =>
        assert (Hfirst : forall st1 fs1 ops1,
                   first = Returned (st1, fs1, ops1) ->
                   stopped_at_first_failure st1 ops1);
        [|destruct first as [[[st1 fs1] ops1]| | |] eqn:Ef; simpl in Hrun;
          try discriminate]
    end.
    { intros st1 fs1 ops1. destruct (is_overwrite params).
      - destruct (String.eqb (fst partition) "").
        + intros Hd. apply DCHECK_passed in Hd. inversion Hd as [Hd'].
          eapply overwrite_root_stopped; eauto.
        + intros Hd. inversion Hd as [Hd']. eapply overwrite_partition_stopped; eauto.
      - intros Hd. inversion Hd; subst. constructor. }
    specialize (Hfirst _ _ _ eq_refl).
    destruct (ok st1) eqn:E1; simpl in Hrun.
    + destruct (finalize_partitions params n (hdfsCreateDirectory fs1 dir) parts)
        as [[[st2 fs2] ops2]| | |] eqn:Er; simpl in Hrun; try discriminate.
      inversion Hrun; subst. destruct (IH _ _ _ _ Er) as (Hstop & Hall).
      unfold stopped_at_first_failure in Hfirst. rewrite E1 in Hfirst. split.
      * apply stopped_at_first_failure_app; [exact Hfirst|].
        apply (stopped_at_first_failure_app st [OpCreateDirectory dir] ops2);
          [repeat constructor | exact Hstop].
      * intros Hok p [<-|Hp]; apply in_or_app; right; [now left|].
        right. now apply Hall.
    + inversion Hrun; subst. split; [exact Hfirst | congruence].
Qed.

(** X8. [FinalizeQuery] stops at the first list, delete or rename that
    fails ([op_failed]; the result of [hdfsCreateDirectory] is not looked
    at, and an [hdfsExists] that fails counts as the answer no): when it
    returns an error, the last call it made was a list, delete or rename
    that failed, and none before it failed; when it returns OK, no list,
    delete or rename failed, and then [hdfsCreateDirectory] was called for
    the directory of every partition, the rename of every pending move
    with a destination succeeded, and so did the delete of every source
    pending with an empty destination. *)
Theorem FinalizeQuery_stops_at_first_failure
    (fs : FS) (c : Coordinator) (st : Status) (fs' : FS) (ops : list FsOp) :
  FinalizeQuery fs c = Returned (st, fs', ops) ->
  stopped_at_first_failure st ops /\
  (ok st = true ->
   (forall partition, In partition (partition_row_counts_ c) ->
      In (OpCreateDirectory (partition_dir (finalize_params_ c) (fst partition))) ops) /\
   (forall src dst, In (src, dst) (files_to_move_ c) -> dst <> ""%string ->
      In (OpRename src dst true) ops) /\
   (forall src, In (src, ""%string) (files_to_move_ c) -> In (OpDelete src true) ops)).
Proof.
  unfold FinalizeQuery. intros Hrun.
  apply DCHECK_passed in Hrun. apply DCHECK_passed in Hrun.
  destruct (finalize_partitions (finalize_params_ c) (length (partition_row_counts_ c))
                                fs (partition_row_counts_ c))
    as [[[st1 fs1] ops1]| | |] eqn:Ep; simpl in Hrun; try discriminate.
  destruct (finalize_partitions_stopped _ _ _ _ _ _ _ Ep) as (Hstop1 & Hdirs).
  destruct (ok st1) eqn:E1; simpl in Hrun.
  2:{ inversion Hrun; subst. split; [exact Hstop1 | congruence]. }
  unfold stopped_at_first_failure in Hstop1. rewrite E1 in Hstop1.
  destruct (move_files fs1 (files_to_move_ c) []) as [[[st2 fs2] ops2] tmp] eqn:Em.
  destruct (move_files_spec _ _ _ _ _ _ _ Em)
    as [(-> & -> & _)|(moved & src & dst & rest & _ & -> & ->)]; simpl in Hrun.
  2:{ inversion Hrun; subst. split; [|discriminate].
      apply stopped_at_first_failure_app; [exact Hstop1|].
      apply stopped_failed; [reflexivity | apply Forall_not_failed_map_renamed]. }
  assert (Htmp := move_files_tmp_dirs _ _ _ _ _ _ _ Em eq_refl).
  destruct (delete_tmp_dirs fs2 tmp) as [[st3 fs3] ops3] eqn:Et.
  inversion Hrun; subst st3 fs3 ops. clear Hrun.
  destruct (delete_tmp_dirs_trace _ _ _ _ _ Et)
    as [(-> & ->)|(deleted & failed & rest & _ & -> & ->)].
  - split.
    + apply Forall_app. split; [exact Hstop1|].
      apply Forall_app. split;
        [apply Forall_not_failed_map_renamed | apply Forall_not_failed_map_deleted].
    + intros _. split; [|split].
      * intros p Hp. apply in_or_app. left. now apply Hdirs.
      * intros src dst Hin Hne. apply in_or_app. right. apply in_or_app. left.
        apply (in_map renamed_ok _ (src, dst)). unfold renames_of.
        apply filter_In. split; [exact Hin|]. simpl.
        destruct (String.eqb_spec dst ""); [contradiction | reflexivity].
      * intros src Hin. apply in_or_app. right. apply in_or_app. right.
        apply (in_map deleted_ok). apply Htmp. now right.
  - split; [|discriminate].
    apply stopped_at_first_failure_app; [exact Hstop1|].
    apply stopped_at_first_failure_app; [apply Forall_not_failed_map_renamed|].
    apply stopped_failed; [reflexivity | apply Forall_not_failed_map_deleted].
Qed.

End FinalizerTraces.

(** The theorem at the OVERWRITE insert into the table directory with the
    files [a] and [b]. *)
Lemma FinalizeQuery_stops_at_first_failure_witness :
  exists fs' ops,
    FinalizeQuery (build := debug_build) overwrite_fs overwrite_coordinator
    = Returned (Status_OK, fs', ops) /\
    In (OpCreateDirectory "/t/") ops /\ In (OpRename "tmp2" "c" true) ops.
Proof.
  destruct (FinalizeQuery (build := debug_build) overwrite_fs overwrite_coordinator)
    as [[[st fs'] ops]| | |] eqn:E; try (vm_compute in E; discriminate).
  destruct (FinalizeQuery_stops_at_first_failure _ _ _ _ _ E) as (_ & Hdone).
  assert (Hst : st = Status_OK) by (vm_compute in E; inversion E; reflexivity).
  subst st. destruct (Hdone eq_refl) as (Hdirs & Hmoves & _).
  exists fs', ops. split; [reflexivity|]. split.
  - apply (Hdirs (""%string, 2)). simpl. auto.
  - apply Hmoves; [simpl; auto | discriminate].
Defined.

Section FinalizerReach.
Context {build : Build} {FS : Type} `{Hdfs FS}.

Lemma partition_call_mono params keys keys' ops ops' op :
  (forall k, In k keys -> In k keys') ->
  (forall o, In o ops -> In o ops') ->
  partition_call params keys ops op -> partition_call params keys' ops' op.
Proof.
  intros Hk Ho (k & Hin & Hop). exists k. split; [auto|].
  destruct Hop as [Hop|(Hov & [Hop|(Hop & Hex)])]; auto 10.
Qed.

Lemma finalize_partitions_calls params n (parts : PartitionRowCount) : forall fs,
  (is_overwrite params = true -> ~ In ""%string (map fst parts)) ->
  exists st fs' ops,
    finalize_partitions params n fs parts = Returned (st, fs', ops) /\
    forall op, In op ops -> partition_call params (map fst parts) ops op.
Proof.
  induction parts as [|partition parts IH]; intros fs Hroot; cbn [finalize_partitions].
  - exists Status_OK, fs, []. split; [reflexivity | intros op []].
  - fold (partition_dir params (fst partition)).
    set (dir := partition_dir params (fst partition)).
    assert (Hrest : is_overwrite params = true -> ~ In ""%string (map fst parts)).
    { intros Hov Hin. apply (Hroot Hov). now right. }
    (* the calls for this partition *)
    assert (Hfirst : exists st1 fs1 ops1,
               (if is_overwrite params then
                  if String.eqb (fst partition) ""
                  then DCHECK (n =? 1)%nat (Returned (overwrite_root fs dir))
                  else Returned (overwrite_partition fs dir)
                else Returned (Status_OK, fs, []))
               = Returned (st1, fs1, ops1) /\
               forall op, In op ops1 ->
                          partition_call params [fst partition] ops1 op).
    { destruct (is_overwrite params) eqn:Hov.
      - destruct (String.eqb_spec (fst partition) "") as [He|_].
        { exfalso. apply (Hroot eq_refl). left. exact He. }
        unfold overwrite_partition. fold dir.
        destruct (hdfsExists fs dir).
        + destruct (hdfsDelete fs dir) as [[|] fs1]; eexists _, _, _;
            (split; [reflexivity|]); intros op Hop; exists (fst partition);
            (split; [now left|]); right; (split; [exact Hov|]);
            destruct Hop as [<-|[<-|[]]]; fold dir; simpl; eauto 10.
        + eexists _, _, _. split; [reflexivity|]. intros op [<-|[]].
          exists (fst partition). split; [now left|]. right. split; [exact Hov|].
          left. eauto.
      - exists Status_OK, fs, []. split; [reflexivity | intros op []]. }
    destruct Hfirst as (st1 & fs1 & ops1 & -> & Hops1). cbn [obind].
    destruct (ok st1); cbn [negb].
    + destruct (IH (hdfsCreateDirectory fs1 dir) Hrest) as (st2 & fs2 & ops2 & -> & Hops2).
      cbn [obind]. eexists _, _, _. split; [reflexivity|].
      intros op Hop. apply in_app_or in Hop. destruct Hop as [Hop|[<-|Hop]].
      * apply (partition_call_mono params [fst partition] _ ops1); auto.
        -- intros k [<-|[]]. now left.
        -- intros o Ho. apply in_or_app. now left.
      * exists (fst partition). split; [now left | now left].
      * apply (partition_call_mono params (map fst parts) _ ops2); auto.
        -- intros k Hk. now right.
        -- intros o Ho. apply in_or_app. right. now right.
    + eexists _, _, _. split; [reflexivity|].
      intros op Hop. apply (partition_call_mono params [fst partition] _ ops1); auto.
      intros k [<-|[]]. now left.
Qed.

(** X9. Unless it is an OVERWRITE that writes to the root directory of the
    table (the partition with the empty key), [FinalizeQuery] returns, and
    all it does to the file system is: create the directories of the
    partitions written to; for an OVERWRITE, ask whether such a directory
    exists and delete it, which it does only to a directory that it was
    told exists; rename the pending moves that have a destination; delete
    the sources that are pending with an empty destination. It lists no
    directory, and without OVERWRITE it deletes nothing but those
    sources. *)
Theorem FinalizeQuery_touches_partitions_and_moves_only
    (fs : FS) (c : Coordinator) :
  has_called_wait_ c = true ->
  needs_finalization_ c = true ->
  (is_overwrite (finalize_params_ c) = true ->
   ~ In ""%string (map fst (partition_row_counts_ c))) ->
  exists st fs' ops,
    FinalizeQuery fs c = Returned (st, fs', ops) /\
    forall op, In op ops ->
      partition_call (finalize_params_ c) (map fst (partition_row_counts_ c)) ops op \/
      (exists src dst renamed,
          op = OpRename src dst renamed /\
          In (src, dst) (files_to_move_ c) /\ dst <> ""%string) \/
      (exists p deleted,
          op = OpDelete p deleted /\ In (p, ""%string) (files_to_move_ c)).
Proof.
  intros Hwait Hneeds Hroot. unfold FinalizeQuery.
  rewrite Hwait, Hneeds, !DCHECK_true.
  destruct (finalize_partitions_calls (finalize_params_ c)
              (length (partition_row_counts_ c)) (partition_row_counts_ c) fs Hroot)
    as (st1 & fs1 & ops1 & -> & Hops1).
  cbn [obind].
  assert (Hmono : forall ops' op,
             In op ops1 ->
             partition_call (finalize_params_ c) (map fst (partition_row_counts_ c))
                            (ops1 ++ ops') op).
  { intros ops' op Hop.
    apply (partition_call_mono _ (map fst (partition_row_counts_ c)) _ ops1); auto.
    intros o Ho. apply in_or_app. now left. }
  destruct (ok st1); cbn [negb].
  2:{ eexists _, _, _. split; [reflexivity|]. intros op Hop. left.
      rewrite <- (app_nil_r ops1). now apply Hmono. }
  destruct (move_files fs1 (files_to_move_ c) []) as [[[st2 fs2] ops2] tmp] eqn:Em.
  assert (Hrename : forall m, In m (renames_of (files_to_move_ c)) ->
                      In (fst m, snd m) (files_to_move_ c) /\ snd m <> ""%string).
  { intros [src dst] Hm. unfold renames_of in Hm. apply filter_In in Hm.
    destruct Hm as (Hin & Hne). simpl in *. split; [exact Hin|].
    destruct (String.eqb_spec dst ""); [discriminate | assumption]. }
  destruct (move_files_spec _ _ _ _ _ _ _ Em)
    as [(-> & -> & Htmp)|(moved & src & dst & rest & Hsplit & -> & ->)]; cbn [ok status_code Status_OK Status_msg negb].
  - destruct (delete_tmp_dirs fs2 tmp) as [[st3 fs3] ops3] eqn:Et.
    destruct (delete_tmp_dirs_spec _ _ _ _ _ Et) as (Hops3 & _).
    eexists _, _, _. split; [reflexivity|].
    intros op Hop. apply in_app_or in Hop. destruct Hop as [Hop|Hop]; [left; now apply Hmono|].
    right. apply in_app_or in Hop. destruct Hop as [Hop|Hop].
    + left. apply in_map_iff in Hop. destruct Hop as (m & <- & Hm).
      destruct (Hrename m Hm) as (Hin & Hne). exists (fst m), (snd m), true. auto.
    + right. destruct (Hops3 op Hop) as (p & b & -> & Hp).
      exists p, b. split; [reflexivity|].
      destruct (Htmp p Hp) as [[]|Hm]. exact Hm.
  - eexists _, _, _. split; [reflexivity|].
    intros op Hop. apply in_app_or in Hop. destruct Hop as [Hop|Hop]; [left; now apply Hmono|].
    right. left. apply in_app_or in Hop. destruct Hop as [Hop|[<-|[]]].
    + apply in_map_iff in Hop. destruct Hop as (m & <- & Hm).
      destruct (Hrename m) as (Hin & Hne).
      { rewrite Hsplit. apply in_or_app. now left. }
      exists (fst m), (snd m), true. auto.
    + destruct (Hrename (src, dst)) as (Hin & Hne).
      { rewrite Hsplit. apply in_elt. }
      exists src, dst, false. auto.
Qed.

End FinalizerReach.

(** The theorem at an insert without OVERWRITE into two partitions: two
    directories are created, one file is renamed and one tmp directory
    deleted. *)
Lemma FinalizeQuery_touches_partitions_and_moves_only_witness :
  exists st fs' ops,
    FinalizeQuery (build := debug_build) overwrite_fs append_coordinator
    = Returned (st, fs', ops) /\
    forall p deleted, In (OpDelete p deleted) ops -> p = "tmp2"%string.
Proof.
  destruct (FinalizeQuery_touches_partitions_and_moves_only (build := debug_build)
              overwrite_fs append_coordinator eq_refl eq_refl)
    as (st & fs' & ops & Hrun & Hops).
  { discriminate. }
  exists st, fs', ops. split; [exact Hrun|].
  intros p deleted Hin.
  destruct (Hops _ Hin) as [(k & _ & [Hc|(Hov & _)])|[(src & dst & b & Hr & _)|(q & b & Hd & Hq)]];
    try discriminate.
  inversion Hd; subst q b. simpl in Hq.
  destruct Hq as [Hq|[Hq|[]]]; inversion Hq. reflexivity.
Defined.

(** ** Dispatch, when it succeeds *)

Lemma ExecRemoteFragment_rpcs env i es :
  (forall j, j <> i -> exec_rpcs j (snd (ExecRemoteFragment env i es)) = O) /\
  (ok (dispatch_status env i) = true ->
   (0 < exec_rpcs i (snd (ExecRemoteFragment env i es)))%nat).
Proof.
  assert (Hrep : forall n j, j <> i ->
             exec_rpcs j (repeat (EvExecPlanFragment i) n) = O).
  { intros n j Hj. rewrite exec_rpcs_repeat.
    destruct (Nat.eqb_spec j i); [contradiction | reflexivity]. }
  assert (Hpos : forall n, (0 < n)%nat ->
             (0 < exec_rpcs i (repeat (EvExecPlanFragment i) n))%nat).
  { intros n Hn. now rewrite exec_rpcs_repeat, Nat.eqb_refl. }
  unfold ExecRemoteFragment, dispatch_status, record_exec_result.
  destruct (ok (exec_GetClient env i)) eqn:E1; simpl.
  2:{ rewrite E1. split; [reflexivity | discriminate]. }
  destruct (exec_first env i) as [r|what]; simpl.
  - destruct (ok r); simpl; split; intros;
      try apply (Hrep 1%nat); try apply (Hpos 1%nat); auto.
  - destruct (ok (exec_ReopenClient env i)) eqn:E2; simpl.
    + destruct (exec_retry env i) as [r|what']; simpl.
      * destruct (ok r); simpl; split; intros;
          try apply (Hrep 2%nat); try apply (Hpos 2%nat); auto.
      * split; intros; try apply (Hrep 2%nat); try apply (Hpos 2%nat); auto.
    + split; intros; try apply (Hrep 1%nat); try apply (Hpos 1%nat); auto.
Qed.

Lemma ParallelExecutor_Exec_rpcs env args : forall first st args' evs,
  ParallelExecutor_Exec (ExecRemoteFragment env) first args = (st, args', evs) ->
  (forall j, (j < first \/ first + length args <= j)%nat -> exec_rpcs j evs = O) /\
  (forall j, (first <= j < first + length args)%nat ->
             ok (dispatch_status env j) = true -> (0 < exec_rpcs j evs)%nat).
Proof.
  induction args as [|a args IH]; intros first st args' evs Hrun; simpl in Hrun.
  - inversion Hrun; subst. split; [reflexivity | simpl; intros; lia].
  - destruct (ExecRemoteFragment env first a) as [[st0 a'] ev0] eqn:Ea.
    destruct (ParallelExecutor_Exec (ExecRemoteFragment env) (S first) args)
      as [[st1 args1] ev1] eqn:Er.
    inversion Hrun; subst. clear Hrun.
    destruct (ExecRemoteFragment_rpcs env first a) as (Hother & Hself).
    rewrite Ea in Hother, Hself. simpl in Hother, Hself.
    destruct (IH _ _ _ _ Er) as (Hout & Hin). simpl length. split.
    + intros j Hj. rewrite exec_rpcs_app, Hother, Hout; lia.
    + intros j Hj Hok. rewrite exec_rpcs_app.
      destruct (Nat.eq_dec j first) as [->|Hne].
      * specialize (Hself Hok). lia.
      * assert (0 < exec_rpcs j ev1)%nat by (apply Hin; [lia | exact Hok]). lia.
Qed.

Lemma assign_ids_loop_length {build : Build} q n rem : forall j ids,
  assign_ids_loop q n j rem = Returned ids -> length ids = length rem.
Proof.
  induction rem as [|h rem IH]; intros j ids Hrun; cbn [assign_ids_loop] in Hrun.
  - inversion Hrun. reflexivity.
  - apply DCHECK_passed in Hrun. cbv zeta in Hrun.
    destruct (assign_ids_loop q n (wrap32 (j + 1)) rem) as [ids'| | |] eqn:E;
      simpl in Hrun; try discriminate.
    inversion Hrun; subst. simpl. f_equal. eapply IH; eauto.
Qed.

Lemma assign_instance_ids_hosts {build : Build} q fep : forall n fep' n',
  assign_instance_ids q n fep = Returned (fep', n') ->
  map hosts fep' = map hosts fep /\
  Forall (fun p' => (length (hosts p') <= length (instance_ids p'))%nat) fep'.
Proof.
  induction fep as [|p fep IH]; intros n fep' n' Hrun; cbn [assign_instance_ids] in Hrun.
  - inversion Hrun; subst. split; [reflexivity | constructor].
  - destruct (assign_ids_loop q n 0 (hosts p)) as [ids| | |] eqn:Ei; simpl in Hrun;
      try discriminate.
    match type of Hrun with
    | obind (assign_instance_ids q ?m fep) _ = _ =>
        destruct (assign_instance_ids q m fep) as [[rest k]| | |] eqn:Er;
          simpl in Hrun; try discriminate
    end.
    inversion Hrun; subst. destruct (IH _ _ _ Er) as (Hh & Hall).
    simpl. split; [now rewrite Hh|]. constructor; [|exact Hall].
    simpl. rewrite length_app, (assign_ids_loop_length _ _ _ _ _ Ei). lia.
Qed.

Lemma total_instances_hosts fep fep' :
  map hosts fep' = map hosts fep -> total_instances fep' = total_instances fep.
Proof. unfold total_instances. now intros ->. Qed.

Lemma total_instances_cons p fep :
  total_instances (p :: fep) = (length (hosts p) + total_instances fep)%nat.
Proof. unfold total_instances. simpl. now rewrite length_app. Qed.

Section DispatchSuccess.
Context {build : Build}.

Lemma start_fragments_success env params_list : forall fidx b c st c' evs,
  dispatched_prefix env (backend_exec_states_ c) b ->
  start_fragments env fidx params_list b c = Returned (st, c', evs) ->
  ok st = true ->
  st = Status_OK /\
  (exists states, c' = set_backend_exec_states_ c states) /\
  length (backend_exec_states_ c') = length (backend_exec_states_ c) /\
  (b + total_instances params_list <= length (backend_exec_states_ c))%nat /\
  dispatched_prefix env (backend_exec_states_ c') (b + total_instances params_list) /\
  (forall i, cancel_rpcs i evs = O) /\
  (forall i, (i < b \/ b + total_instances params_list <= i)%nat -> exec_rpcs i evs = O) /\
  (forall i, (b <= i < b + total_instances params_list)%nat ->
             (0 < exec_rpcs i evs)%nat).
Proof.
  induction params_list as [|params params_list IH];
    intros fidx b c st c' evs Hpre Hrun Hst; cbn [start_fragments] in Hrun.
  - injection Hrun as <- <- <-. unfold total_instances. simpl. rewrite Nat.add_0_r.
    split; [reflexivity|]. split; [exists (backend_exec_states_ c); now destruct c|].
    split; [reflexivity|]. split.
    { destruct Hpre as (Hbelow & _). destruct b as [|b]; [lia|].
      destruct (Hbelow b) as (es & Hn & _); [lia|].
      assert (b < length (backend_exec_states_ c))%nat
        by (apply nth_error_Some; congruence).
      lia. }
    split; [exact Hpre|]. repeat split; intros; try reflexivity; lia.
  - destruct Hpre as (Hbelow & Hnull).
    apply DCHECK_passed in Hrun.
    destruct (set_up_exec_states fidx params 0 (length (hosts params)) b
                                 (backend_exec_states_ c))
      as [[states created]| | |] eqn:Es; simpl in Hrun; try discriminate.
    destruct (ParallelExecutor_Exec (ExecRemoteFragment env) b created)
      as [[fst_ updated] evs1] eqn:Ep.
    destruct (store_exec_states states b updated) as [states'| | |] eqn:Et;
      simpl in Hrun; try discriminate.
    destruct (set_up_exec_states_spec _ _ _ _ _ _ _ _ Es) as (Hlen & Hcr & Hfresh & Hout).
    destruct (ParallelExecutor_Exec_spec _ _ _ _ _ _ Hfresh Ep)
      as (Hlenu & Hdisp & Hev1 & Hres).
    destruct (ParallelExecutor_Exec_rpcs _ _ _ _ _ _ Ep) as (Hrout & Hrin).
    destruct (store_exec_states_spec _ _ _ _ Et) as (Hlen' & Hnth').
    set (n := length (hosts params)) in *.
    assert (Hlu : length updated = n) by lia.
    rewrite Hcr in Hrout, Hrin.
    assert (Hlow : forall j, (j < b)%nat ->
                   nth_error states' j = nth_error (backend_exec_states_ c) j).
    { intros j Hj. rewrite Hnth'.
      destruct (Nat.leb_spec b j); [lia|]. simpl. apply Hout. lia. }
    assert (Hmid : forall j, (b <= j < b + n)%nat ->
                   exists es, nth_error states' j = Some (Some es) /\
                              dispatched_exec_state env j es).
    { intros j Hj. rewrite Hnth', Hlu.
      destruct (Nat.leb_spec b j); [|lia].
      destruct (Nat.ltb_spec j (b + n)); [|lia]. simpl.
      destruct (nth_error updated (j - b)) as [es|] eqn:En.
      - exists es. split; [reflexivity|].
        replace j with (b + (j - b))%nat by lia. now apply Hdisp.
      - apply nth_error_None in En. lia. }
    assert (Hhigh : forall j, (b + n <= j)%nat -> (j < length states')%nat ->
                    nth_error states' j = Some None).
    { intros j Hj Hjl. rewrite Hnth', Hlu.
      destruct (Nat.ltb_spec j (b + n)); [lia|]. rewrite andb_false_r.
      rewrite Hout by lia. apply Hnull; lia. }
    destruct (ok fst_) eqn:Ef; simpl in Hrun.
    2:{ apply DCHECK_passed in Hrun.
        match type of Hrun with
        | obind (CancelInternal env ?c1) _ = _ =>
            destruct (CancelInternal env c1) as [[c2 evs2]| | |];
              simpl in Hrun; try discriminate
        end.
        inversion Hrun; subst. congruence. }
    match type of Hrun with
    | obind (start_fragments env ?f ?pl ?b' ?c1) _ = _ =>
        destruct (start_fragments env f pl b' c1) as [[[st2 c2] evs2]| | |] eqn:Er;
          simpl in Hrun; try discriminate
    end.
    inversion Hrun; subst st2 c2 evs. clear Hrun.
    destruct Hres as [(_ & Hall)|(Hko & _)]; [|congruence].
    rewrite Hcr in Hall.
    assert (Hprefix : dispatched_prefix env (backend_exec_states_
                        (set_backend_exec_states_ c states')) (b + n)).
    { split; [|exact Hhigh].
      intros j Hj. destruct (le_lt_dec b j) as [Hle|Hlt].
      - destruct (Hmid j (conj Hle Hj)) as (es & H1 & H2).
        exists es. split; [exact H1|]. split; [exact H2|].
        replace j with (b + (j - b))%nat by lia. apply Hall. lia.
      - destruct (Hbelow j Hlt) as (es & H1 & H2).
        exists es. split; [|exact H2]. simpl. rewrite Hlow by lia. exact H1. }
    destruct (IH _ _ _ _ _ _ Hprefix Er Hst)
      as (-> & (states2 & Hc') & Hlen2 & Hfit & Hpre2 & Hc2 & Hout2 & Hin2).
    cbn [backend_exec_states_ set_backend_exec_states_] in Hlen2, Hfit.
    rewrite total_instances_cons. fold n.
    replace (b + (n + total_instances params_list))%nat
      with (b + n + total_instances params_list)%nat by lia.
    split; [reflexivity|].
    split; [exists states2; rewrite Hc'; reflexivity|].
    split; [lia|]. split; [lia|]. split; [exact Hpre2|].
    split; [intros i; now rewrite cancel_rpcs_app, Hev1, Hc2|].
    split.
    + intros i Hi. rewrite exec_rpcs_app, Hrout, Hout2; lia.
    + intros i Hi. rewrite exec_rpcs_app.
      destruct (le_lt_dec (b + n) i) as [Hge|Hlt].
      * assert (0 < exec_rpcs i evs2)%nat by (apply Hin2; lia). lia.
      * assert (0 < exec_rpcs i evs1)%nat.
        { apply Hrin; [lia|]. replace i with (b + (i - b))%nat by lia.
          apply Hall. lia. }
        lia.
Qed.

End DispatchSuccess.

(** ** Dispatch, when a fragment that is not the last fails *)

Lemma cancel_loop_null env states : forall k m,
  (forall j, (j < m)%nat -> exists es, nth_error states j = Some (Some es)) ->
  nth_error states m = Some None ->
  cancel_loop env k states = InvalidAccess.
Proof.
  induction states as [|o states IH]; intros k m Hsome Hnull.
  - destruct m; discriminate.
  - destruct m as [|m].
    + simpl in Hnull. inversion Hnull; subst. reflexivity.
    + destruct (Hsome O) as (es & Hes); [lia|]. simpl in Hes. inversion Hes; subst.
      cbn [cancel_loop]. destruct (cancel_exec_state env k es) as [es' evs].
      rewrite (IH (S k) m); [reflexivity | | exact Hnull].
      intros j Hj. apply (Hsome (S j)). lia.
Qed.

Lemma set_up_exec_states_ok fidx params n : forall idx b states,
  (idx + n <= length (instance_ids params))%nat ->
  (idx + n <= length (hosts params))%nat ->
  (b + n <= length states)%nat ->
  exists states' created,
    set_up_exec_states fidx params idx n b states = Returned (states', created).
Proof.
  induction n as [|n IH]; intros idx b states Hids Hhosts Hlen; cbn [set_up_exec_states].
  - eauto.
  - unfold new_BackendExecState.
    destruct (nth_error (instance_ids params) idx) as [id|] eqn:Ei.
    2:{ apply nth_error_None in Ei. lia. }
    destruct (nth_error (hosts params) idx) as [host|] eqn:Eh.
    2:{ apply nth_error_None in Eh. lia. }
    cbn [obind].
    match goal with
    | |- context [vector_store states b ?x] =>
        destruct (vector_store_ok states b x) as (states1 & Hs); [lia|];
        rewrite Hs; destruct (vector_store_spec _ _ _ _ Hs) as (Hlen1 & _)
    end.
    cbn [obind].
    destruct (IH (S idx) (S b) states1) as (states2 & created & ->); try lia.
    cbn [obind]. eauto.
Qed.

Lemma store_exec_states_ok updated : forall states b,
  (b + length updated <= length states)%nat ->
  exists states', store_exec_states states b updated = Returned states'.
Proof.
  induction updated as [|es updated IH]; intros states b Hlen; cbn [store_exec_states].
  - eauto.
  - simpl in Hlen.
    destruct (vector_store_ok states b (Some es)) as (states1 & Hs); [lia|].
    rewrite Hs. destruct (vector_store_spec _ _ _ _ Hs) as (Hlen1 & _). cbn [obind].
    apply IH. lia.
Qed.

Lemma total_instances_app fep fep' :
  total_instances (fep ++ fep') = (total_instances fep + total_instances fep')%nat.
Proof. unfold total_instances. now rewrite map_app, concat_app, length_app. Qed.

Section DispatchNull.
Context {build : Build}.

Lemma start_fragments_null env pre : forall fidx b c f post,
  dispatched_prefix env (backend_exec_states_ c) b ->
  ok (query_status_ c) = true ->
  Forall (fun p => hosts p <> [] /\
                   (length (hosts p) <= length (instance_ids p))%nat) (pre ++ [f]) ->
  (forall j, (b <= j < b + total_instances pre)%nat ->
             ok (dispatch_status env j) = true) ->
  (exists j, (b + total_instances pre <= j
              < b + total_instances pre + length (hosts f))%nat /\
             ok (dispatch_status env j) = false) ->
  (b + total_instances pre + length (hosts f) < length (backend_exec_states_ c))%nat ->
  start_fragments env fidx (pre ++ f :: post) b c = InvalidAccess.
Proof.
  induction pre as [|p pre IH];
    intros fidx b c f post (Hbelow & Hnull) Hq Hready Hoks (jf & Hjf & Hfail) Hsize.
  - (* the failing fragment *)
    inversion Hready as [|? ? (Hhosts & Hids) _]; subst.
    unfold total_instances in Hjf, Hsize. simpl in Hjf, Hsize.
    rewrite Nat.add_0_r in Hjf, Hsize.
    cbn [app start_fragments]. set (n := length (hosts f)) in *.
    assert (Hn : (0 < n)%nat) by (unfold n; destruct (hosts f); [congruence | simpl; lia]).
    replace (0 <? n)%nat with true by (symmetry; apply Nat.ltb_lt; exact Hn).
    rewrite DCHECK_true.
    destruct (set_up_exec_states_ok fidx f n 0 b (backend_exec_states_ c))
      as (states & created & Es); try (unfold n; lia).
    rewrite Es. cbn [obind].
    destruct (ParallelExecutor_Exec (ExecRemoteFragment env) b created)
      as [[fst_ updated] evs1] eqn:Ep.
    destruct (set_up_exec_states_spec _ _ _ _ _ _ _ _ Es) as (Hlen & Hcr & Hfresh & Hout).
    destruct (ParallelExecutor_Exec_spec _ _ _ _ _ _ Hfresh Ep)
      as (Hlenu & Hdisp & _ & Hres).
    destruct (store_exec_states_ok updated states b) as (states' & Et); [lia|].
    rewrite Et. cbn [obind].
    destruct (store_exec_states_spec _ _ _ _ Et) as (Hlen' & Hnth').
    assert (Hko : ok fst_ = false).
    { destruct Hres as [(_ & Hall)|(Hko & _)]; [|exact Hko].
      specialize (Hall (jf - b)%nat). replace (b + (jf - b))%nat with jf in Hall by lia.
      rewrite Hall in Hfail by lia. discriminate. }
    rewrite Hko. cbn [negb query_status_ set_backend_exec_states_].
    rewrite Hq, DCHECK_true. unfold CancelInternal.
    cbn [query_status_ set_query_status_ backend_exec_states_ set_backend_exec_states_
         executor_].
    rewrite Hko. cbn [negb]. rewrite DCHECK_true.
    rewrite (cancel_loop_null env states' 0 (b + n)); [reflexivity | |].
    + intros j Hj. rewrite Hnth'.
      destruct (Nat.leb_spec b j) as [Hle|Hlt]; cbn [andb].
      * destruct (Nat.ltb_spec j (b + length updated)); [|lia].
        destruct (nth_error updated (j - b)) as [es|] eqn:En; simpl; [eauto|].
        apply nth_error_None in En. lia.
      * rewrite Hout by lia. destruct (Hbelow j Hlt) as (es & -> & _). eauto.
    + rewrite Hnth'.
      destruct (Nat.ltb_spec (b + n) (b + length updated)); [lia|].
      rewrite andb_false_r, Hout by lia. apply Hnull; lia.
  - (* a fragment that starts *)
    inversion Hready as [|? ? (Hhosts & Hids) Hready']; subst.
    rewrite total_instances_cons in Hoks, Hjf, Hsize.
    cbn [app start_fragments]. set (n := length (hosts p)) in *.
    assert (Hn : (0 < n)%nat) by (unfold n; destruct (hosts p); [congruence | simpl; lia]).
    replace (0 <? n)%nat with true by (symmetry; apply Nat.ltb_lt; exact Hn).
    rewrite DCHECK_true.
    destruct (set_up_exec_states_ok fidx p n 0 b (backend_exec_states_ c))
      as (states & created & Es); try (unfold n; lia).
    rewrite Es. cbn [obind].
    destruct (ParallelExecutor_Exec (ExecRemoteFragment env) b created)
      as [[fst_ updated] evs1] eqn:Ep.
    destruct (set_up_exec_states_spec _ _ _ _ _ _ _ _ Es) as (Hlen & Hcr & Hfresh & Hout).
    destruct (ParallelExecutor_Exec_spec _ _ _ _ _ _ Hfresh Ep)
      as (Hlenu & Hdisp & _ & Hres).
    destruct (store_exec_states_ok updated states b) as (states' & Et); [lia|].
    rewrite Et. cbn [obind].
    destruct (store_exec_states_spec _ _ _ _ Et) as (Hlen' & Hnth').
    assert (Hall : ok fst_ = true /\
                   forall j, (j < n)%nat -> ok (dispatch_status env (b + j)) = true).
    { destruct Hres as [(Hok & Hall)|(Hko & k & Hk & Hstk & _)].
      - split; [exact Hok|]. intros j Hj. apply Hall. lia.
      - rewrite Hstk, Hoks in Hko by lia. discriminate. }
    destruct Hall as (Hok & Hall). rewrite Hok. cbn [negb].
    rewrite (IH (S fidx) (b + n)%nat (set_backend_exec_states_ c states') f post);
      [reflexivity | | exact Hq | exact Hready' | | | ].
    + split.
      * intros j Hj. cbn [backend_exec_states_ set_backend_exec_states_].
        rewrite Hnth'.
        destruct (Nat.leb_spec b j) as [Hle|Hlt]; cbn [andb].
        -- destruct (Nat.ltb_spec j (b + length updated)); [|lia].
           destruct (nth_error updated (j - b)) as [es|] eqn:En.
           ++ exists es. split; [reflexivity|]. split.
              ** replace j with (b + (j - b))%nat by lia. now apply Hdisp.
              ** replace j with (b + (j - b))%nat by lia. apply Hall. lia.
           ++ apply nth_error_None in En. lia.
        -- rewrite Hout by lia. apply Hbelow. exact Hlt.
      * intros j Hj Hjl. cbn [backend_exec_states_ set_backend_exec_states_] in *.
        rewrite Hnth'.
        destruct (Nat.ltb_spec j (b + length updated)); [lia|].
        rewrite andb_false_r, Hout by lia. apply Hnull; lia.
    + intros j Hj. apply Hoks. lia.
    + exists jf. split; [lia | exact Hfail].
    + cbn [backend_exec_states_ set_backend_exec_states_]. lia.
Qed.

End DispatchNull.

(** ** [Exec] *)


Lemma Forall_skipn {A} (P : A -> Prop) (l : list A) k :
  Forall P l -> Forall P (skipn k l).
Proof.
  intros Hall. rewrite <- (firstn_skipn k l) in Hall.
  apply Forall_app in Hall. tauto.
Qed.

Lemma vector_resize_nil {A} n : vector_resize (@nil (option A)) n = repeat None n.
Proof. unfold vector_resize. rewrite firstn_nil. simpl. now rewrite Nat.sub_0_r. Qed.

Lemma dispatched_prefix_new env n :
  dispatched_prefix env (repeat None n) 0.
Proof.
  split; [intros; lia|]. intros j _ Hj. rewrite repeat_length in Hj.
  now apply nth_error_repeat.
Qed.

Section ExecFacts.
Context {build : Build}.

(** *** Planning *)

Lemma compute_hosts_loop_length env request : forall n fep st fep',
  compute_hosts_loop env request n fep = Returned (st, fep') ->
  length fep' = length fep.
Proof.
  induction n as [|n IH]; intros fep st fep' Hrun; cbn [compute_hosts_loop] in Hrun.
  - now inversion Hrun.
  - destruct (nth_error (fragments request) n) as [fragment|]; [|discriminate].
    destruct (nth_error fep n) as [params|]; [|discriminate].
    destruct (compute_fragment_hosts env request fep n fragment params)
      as [[status params']| | |]; simpl in Hrun; try discriminate.
    destruct (vector_store fep n params') as [fep1| | |] eqn:Es; simpl in Hrun;
      try discriminate.
    destruct (vector_store_spec _ _ _ _ Es) as (Hlen & _).
    destruct (negb (ok status)).
    + inversion Hrun; subst. exact Hlen.
    + rewrite (IH _ _ _ Hrun). exact Hlen.
Qed.

Lemma vector_resize_with_length {A} (x : A) v n :
  length (vector_resize_with x v n) = n.
Proof.
  unfold vector_resize_with. rewrite length_app, length_firstn, repeat_length. lia.
Qed.

Lemma ComputeFragmentExecParams_spec env query_id request fep nb0 params nb :
  ComputeFragmentExecParams env query_id request fep nb0 = Returned (params, nb) ->
  fragments request <> [] /\
  length params = length (fragments request) /\
  Forall (fun p => (length (hosts p) <= length (instance_ids p))%nat) params.
Proof.
  unfold ComputeFragmentExecParams. intros Hrun.
  destruct (ComputeFragmentHosts env request _) as [[status with_hosts]| | |] eqn:Eh;
    simpl in Hrun; try discriminate.
  destruct (assign_instance_ids query_id nb0 with_hosts) as [[with_ids n]| | |] eqn:Ei;
    simpl in Hrun; try discriminate.
  destruct (fragments request) as [|root rest] eqn:Ef; [discriminate|].
  destruct (ComputeDestinations with_ids request (exec_info request)) as [d| | |];
    simpl in Hrun; try discriminate.
  inversion Hrun; subst. clear Hrun.
  destruct (assign_instance_ids_hosts _ _ _ _ _ Ei) as (Hhosts & Hids).
  split; [discriminate|]. split; [|exact Hids].
  unfold ComputeFragmentHosts in Eh. apply DCHECK_passed in Eh.
  apply compute_hosts_loop_length in Eh.
  rewrite vector_resize_with_length in Eh.
  rewrite <- Eh, <- (length_map hosts params), Hhosts. apply length_map.
Qed.

(** [Exec] on a request for which planning goes through. *)
Lemma Exec_planned env query_id request c params num_backends asg :
  ComputeFragmentExecParams env query_id request
                            (fragment_exec_params_ c) (num_backends_ c)
  = Returned (params, num_backends) ->
  ComputeScanRangeAssignment_request request params = Returned asg ->
  Exec env query_id request c
  = start_planned env query_id request c params num_backends.
Proof.
  intros Hp Ha. unfold Exec.
  destruct (ComputeFragmentExecParams_spec _ _ _ _ _ _ _ Hp) as (Hne & _).
  replace (0 <? length (fragments request))%nat with true.
  2:{ symmetry. apply Nat.ltb_lt. destruct (fragments request); [congruence | simpl; lia]. }
  rewrite DCHECK_true, Hp. cbn [obind]. rewrite Ha. reflexivity.
Qed.

(** An [Exec] that returns has planned. *)
Lemma Exec_returned env query_id request c r :
  Exec env query_id request c = Returned r ->
  exists params num_backends asg,
    ComputeFragmentExecParams env query_id request
                              (fragment_exec_params_ c) (num_backends_ c)
    = Returned (params, num_backends) /\
    ComputeScanRangeAssignment_request request params = Returned asg /\
    start_planned env query_id request c params num_backends = Returned r.
Proof.
  unfold Exec. intros Hrun. apply DCHECK_passed in Hrun.
  destruct (ComputeFragmentExecParams env query_id request _ _)
    as [[params nb]| | |] eqn:Ep; simpl in Hrun; try discriminate.
  destruct (ComputeScanRangeAssignment_request request params) as [asg| | |] eqn:Ea;
    simpl in Hrun; try discriminate.
  exists params, nb, asg. auto.
Qed.

(** What [start_planned] has done when it returns: [Prepare] failed, or
    the fragments were started on a coordinator sized for the backends. *)
Lemma start_planned_returned env query_id request c params nb st c' evs :
  start_planned env query_id request c params nb = Returned (st, c', evs) ->
  let coord := has_coordinator_fragment request in
  (coord = true /\ ok (prepare_result (local_executor env)) = false /\
   st = prepare_result (local_executor env) /\ evs = [] /\
   c' = planned c query_id request params nb (Some (local_executor env))
                (backend_exec_states_ c))
  \/
  ((coord = true -> ok (prepare_result (local_executor env)) = true) /\
   0 <= nb /\
   exists st2 c2,
     start_fragments (backends env) (if coord then 1 else 0)
                     (skipn (if coord then 1 else 0) params) 0
                     (sized_for_backends
                        (planned c query_id request params nb
                                 (if coord then Some (local_executor env) else None)
                                 (backend_exec_states_ c)))
     = Returned (st2, c2, evs) /\
     ((ok st2 = false /\ st = st2 /\ c' = c2) \/
      (ok st2 = true /\ st = Status_OK /\ c' = set_progress_ c2 0 /\
       PrintBackendInfo (length (fragments request)) c2 = Returned tt))).
Proof.
  intros Hrun coord. unfold start_planned in Hrun. cbv zeta in Hrun. fold coord in Hrun.
  match type of Hrun with
  | obind ?check _ = _ => destruct check as [[]| | |]; simpl in Hrun; try discriminate
  end.
  destruct (coord && negb (ok (prepare_result (local_executor env)))) eqn:Eprep.
  - apply andb_true_iff in Eprep. destruct Eprep as (Ec & Ep).
    apply negb_true_iff in Ep. inversion Hrun; subst. left. auto.
  - right. split.
    { intros Ec. rewrite Ec in Eprep. simpl in Eprep. now apply negb_false_iff in Eprep. }
    destruct (Z.ltb_spec nb 0) as [|Hnb]; [discriminate|]. split; [exact Hnb|].
    match type of Hrun with
    | obind (start_fragments ?e ?f ?pl ?b ?c1) _ = _ =>
        destruct (start_fragments e f pl b c1) as [[[st2 c2] evs2]| | |] eqn:Er;
          simpl in Hrun; try discriminate
    end.
    exists st2, c2. destruct (ok st2) eqn:E2; simpl in Hrun.
    + destruct (PrintBackendInfo (length (fragments request)) c2) as [[]| | |] eqn:Epr;
        simpl in Hrun; try discriminate.
      inversion Hrun; subst. split; [reflexivity|]. right. auto.
    + inversion Hrun; subst. split; [reflexivity|]. left. auto.
Qed.

(** *** A dispatch that fails in the last fragment *)


End ExecFacts.

(** *** Which instance an exec state is *)

Lemma ExecRemoteFragment_identity env i es :
  let es' := snd (fst (ExecRemoteFragment env i es)) in
  fragment_idx es' = fragment_idx es /\ hostport es' = hostport es /\
  fragment_instance_id es' = fragment_instance_id es.
Proof.
  unfold ExecRemoteFragment, record_exec_result.
  destruct (ok (exec_GetClient env i)); simpl; [|auto].
  destruct (exec_first env i) as [r|what]; simpl.
  - destruct (ok r); simpl; auto.
  - destruct (ok (exec_ReopenClient env i)); simpl; [|auto].
    destruct (exec_retry env i) as [r|what']; simpl; [|auto].
    destruct (ok r); simpl; auto.
Qed.

Lemma ParallelExecutor_Exec_identity env args : forall first st args' evs,
  ParallelExecutor_Exec (ExecRemoteFragment env) first args = (st, args', evs) ->
  forall j es', nth_error args' j = Some es' ->
    exists es, nth_error args j = Some es /\
      fragment_idx es' = fragment_idx es /\ hostport es' = hostport es /\
      fragment_instance_id es' = fragment_instance_id es.
Proof.
  induction args as [|a args IH]; intros first st args' evs Hrun j es' Hj;
    simpl in Hrun.
  - inversion Hrun; subst. destruct j; discriminate.
  - destruct (ExecRemoteFragment env first a) as [[st0 a'] ev0] eqn:Ea.
    destruct (ParallelExecutor_Exec (ExecRemoteFragment env) (S first) args)
      as [[st1 args1] ev1] eqn:Er.
    inversion Hrun; subst. clear Hrun.
    destruct j as [|j]; simpl in Hj.
    + inversion Hj; subst. exists a. split; [reflexivity|].
      pose proof (ExecRemoteFragment_identity env first a) as Hid.
      rewrite Ea in Hid. exact Hid.
    + simpl. eapply IH; eauto.
Qed.

Section IdentityFacts.
Context {build : Build}.

Lemma set_up_exec_states_created fidx params n : forall idx b states states' created,
  set_up_exec_states fidx params idx n b states = Returned (states', created) ->
  forall j es, nth_error created j = Some es ->
    fragment_idx es = fidx /\
    nth_error (hosts params) (idx + j) = Some (hostport es) /\
    nth_error (instance_ids params) (idx + j) = Some (fragment_instance_id es).
Proof.
  induction n as [|n IH]; intros idx b states states' created Hrun j es Hj;
    simpl in Hrun.
  - inversion Hrun; subst. destruct j; discriminate.
  - destruct (new_BackendExecState fidx params idx) as [es0| | |] eqn:En;
      simpl in Hrun; try discriminate.
    destruct (vector_store states b (Some es0)) as [states1| | |] eqn:Ev;
      simpl in Hrun; try discriminate.
    destruct (set_up_exec_states fidx params (S idx) n (S b) states1)
      as [[states2 created2]| | |] eqn:Es; simpl in Hrun; try discriminate.
    inversion Hrun; subst. clear Hrun.
    destruct j as [|j]; simpl in Hj.
    + inversion Hj; subst. rewrite Nat.add_0_r.
      unfold new_BackendExecState in En.
      destruct (nth_error (instance_ids params) idx) as [id|]; [|discriminate].
      destruct (nth_error (hosts params) idx) as [host|]; [|discriminate].
      inversion En; subst. simpl. auto.
    + replace (idx + S j)%nat with (S idx + j)%nat by lia. eapply IH; eauto.
Qed.

(** The exec states of the fragments that [start_fragments] has started
    are those of their instances, fragment by fragment and host by host;
    the exec states before them are as they were. *)
Lemma start_fragments_instances env params_list : forall fidx b c st c' evs,
  start_fragments env fidx params_list b c = Returned (st, c', evs) ->
  ok st = true ->
  (forall i, (i < b)%nat ->
     nth_error (backend_exec_states_ c') i = nth_error (backend_exec_states_ c) i) /\
  (forall i es, (b <= i < b + total_instances params_list)%nat ->
     nth_error (backend_exec_states_ c') i = Some (Some es) ->
     nth_instance fidx params_list (i - b)
     = Some (fragment_idx es, hostport es, fragment_instance_id es)).
Proof.
  induction params_list as [|params params_list IH];
    intros fidx b c st c' evs Hrun Hst; cbn [start_fragments] in Hrun.
  - injection Hrun as <- <- <-. split; [reflexivity|].
    unfold total_instances. simpl. intros; lia.
  - apply DCHECK_passed in Hrun.
    destruct (set_up_exec_states fidx params 0 (length (hosts params)) b
                                 (backend_exec_states_ c))
      as [[states created]| | |] eqn:Es; simpl in Hrun; try discriminate.
    destruct (ParallelExecutor_Exec (ExecRemoteFragment env) b created)
      as [[fst_ updated] evs1] eqn:Ep.
    destruct (store_exec_states states b updated) as [states'| | |] eqn:Et;
      simpl in Hrun; try discriminate.
    destruct (set_up_exec_states_spec _ _ _ _ _ _ _ _ Es) as (Hlen & Hcr & Hfresh & Hout).
    destruct (ParallelExecutor_Exec_spec _ _ _ _ _ _ Hfresh Ep) as (Hlenu & _).
    destruct (store_exec_states_spec _ _ _ _ Et) as (Hlen' & Hnth').
    set (n := length (hosts params)) in *.
    assert (Hlu : length updated = n) by lia.
    destruct (ok fst_) eqn:Ef; simpl in Hrun.
    2:{ apply DCHECK_passed in Hrun.
        match type of Hrun with
        | obind (CancelInternal env ?c1) _ = _ =>
            destruct (CancelInternal env c1) as [[c2 evs2]| | |];
              simpl in Hrun; try discriminate
        end.
        inversion Hrun; subst. congruence. }
    match type of Hrun with
    | obind (start_fragments env ?f ?pl ?b' ?c1) _ = _ =>
        destruct (start_fragments env f pl b' c1) as [[[st2 c2] evs2]| | |] eqn:Er;
          simpl in Hrun; try discriminate
    end.
    inversion Hrun; subst st2 c2 evs. clear Hrun.
    destruct (IH _ _ _ _ _ _ Er Hst) as (Hkeep & Hinst).
    cbn [backend_exec_states_ set_backend_exec_states_] in Hkeep.
    rewrite total_instances_cons. fold n. split.
    + intros i Hi. rewrite Hkeep by lia. rewrite Hnth'.
      destruct (Nat.leb_spec b i); [lia|]. cbn [andb]. apply Hout. lia.
    + intros i es Hi He. cbn [nth_instance]. fold n.
      destruct (Nat.ltb_spec (i - b) n) as [Hin|Hge].
      * rewrite Hkeep in He by lia. rewrite Hnth', Hlu in He.
        destruct (Nat.leb_spec b i); [|lia].
        destruct (Nat.ltb_spec i (b + n)); [|lia]. cbn [andb] in He.
        destruct (nth_error updated (i - b)) as [es'|] eqn:Eu; [|discriminate].
        simpl in He. inversion He; subst es'.
        destruct (ParallelExecutor_Exec_identity _ _ _ _ _ _ Ep _ _ Eu)
          as (es0 & He0 & H1 & H2 & H3).
        destruct (set_up_exec_states_created _ _ _ _ _ _ _ _ Es _ _ He0)
          as (G1 & G2 & G3).
        simpl in G2, G3. rewrite G2, G3, H1, H2, H3, G1. reflexivity.
      * replace (i - b - n)%nat with (i - (b + n))%nat by lia.
        apply Hinst; [lia | exact He].
Qed.

End IdentityFacts.

Section ExecTheorems.
Context {build : Build}.

Lemma planned_root_ready request params :
  fragments request <> [] ->
  length params = length (fragments request) ->
  Forall (fun p => (length (hosts p) <= length (instance_ids p))%nat) params ->
  Forall (fun p => hosts p <> []) params ->
  match params with
  | root_params :: _ =>
      match instance_ids root_params, hosts root_params with
      | _ :: _, _ :: _ => Returned tt
      | _, _ => InvalidAccess
      end
  | [] => InvalidAccess
  end = Returned tt.
Proof.
  intros Hne Hlen Hids Hhosts.
  destruct params as [|root rest].
  - destruct (fragments request); [congruence | discriminate].
  - inversion Hids as [|? ? Hi _]; subst. inversion Hhosts as [|? ? Hh _]; subst.
    destruct (hosts root); [congruence|]. destruct (instance_ids root); [simpl in Hi; lia|].
    reflexivity.
Qed.

(** [start_planned] when the local executor, if any, can be prepared and
    every fragment has a host. *)
Lemma start_planned_dispatches env query_id request c params nb :
  fragments request <> [] ->
  length params = length (fragments request) ->
  Forall (fun p => (length (hosts p) <= length (instance_ids p))%nat) params ->
  Forall (fun p => hosts p <> []) params ->
  (has_coordinator_fragment request = true ->
   ok (prepare_result (local_executor env)) = true) ->
  0 <= nb ->
  let coord := has_coordinator_fragment request in
  start_planned env query_id request c params nb
  = ' (st, c2, evs) <-
      start_fragments (backends env) (if coord then 1 else 0)
                      (skipn (if coord then 1 else 0) params) 0
                      (sized_for_backends
                         (planned c query_id request params nb
                                  (if coord then Some (local_executor env) else None)
                                  (backend_exec_states_ c))) ;;
    if negb (ok st) then Returned (st, c2, evs)
    else
      _ <- PrintBackendInfo (length (fragments request)) c2 ;;
      Returned (Status_OK, set_progress_ c2 0, evs).
Proof.
  intros Hne Hlen Hids Hhosts Hprep Hnb coord. unfold start_planned. cbv zeta.
  fold coord.
  replace (coord && negb (ok (prepare_result (local_executor env)))) with false.
  2:{ destruct coord eqn:Ec; [|reflexivity]. unfold coord in Ec.
      now rewrite (Hprep Ec). }
  replace (nb <? 0) with false by (symmetry; apply Z.ltb_ge; exact Hnb).
  destruct coord; [|reflexivity].
  rewrite (planned_root_ready request params Hne Hlen Hids Hhosts). reflexivity.
Qed.


(** X10. When [Exec] on a new coordinator returns OK, planning has gone
    through and [Exec] has started the instances of all fragments but the
    coordinator's: there are as many exec states as these fragments have
    hosts, which is [num_backends_]; every one exists, is initiated, not
    done and OK, and its dispatch succeeded; the exec states are in the
    order of the fragments and, within a fragment, of its hosts, each with
    the index of its fragment, its host and its instance id. Each of these
    backends and no other was sent [ExecPlanFragment], and none a
    [CancelPlanFragment]. All backends count as remaining, the progress is
    zero, the local executor is there exactly when the first fragment is
    unpartitioned, and the query status is unchanged. *)
Theorem Exec_success_starts_every_instance
    (env : ExecEnv) (query_id : TUniqueId) (request : TQueryExecRequest)
    (c : Coordinator) (st : Status) (c' : Coordinator) (evs : list Event) :
  backend_exec_states_ c = [] ->
  Exec env query_id request c = Returned (st, c', evs) ->
  ok st = true ->
  let remote :=
    skipn (if has_coordinator_fragment request then 1 else 0)
          (fragment_exec_params_ c') in
  let n := total_instances remote in
  st = Status_OK /\
  ComputeFragmentExecParams env query_id request
                            (fragment_exec_params_ c) (num_backends_ c)
  = Returned (fragment_exec_params_ c', num_backends_ c') /\
  progress_ c' = 0 /\
  num_remaining_backends_ c' = num_backends_ c' /\
  num_backends_ c' = Z.of_nat n /\
  length (backend_exec_states_ c') = n /\
  (forall i, (i < n)%nat ->
     exists es, nth_error (backend_exec_states_ c') i = Some (Some es) /\
                initiated es = true /\ done es = false /\ ok (status es) = true /\
                ok (dispatch_status (backends env) i) = true /\
                nth_instance (if has_coordinator_fragment request then 1 else 0)
                             remote i
                = Some (fragment_idx es, hostport es, fragment_instance_id es)) /\
  (forall i, cancel_rpcs i evs = O) /\
  (forall i, (0 < exec_rpcs i evs)%nat <-> (i < n)%nat) /\
  executor_ c' = (if has_coordinator_fragment request
                  then Some (local_executor env) else None) /\
  query_status_ c' = query_status_ c.
Proof.
  intros Hstates Hrun Hst remote n.
  destruct (Exec_returned _ _ _ _ _ Hrun) as (params & nb & asg & Hp & Ha & Hstart).
  destruct (start_planned_returned _ _ _ _ _ _ _ _ _ Hstart)
    as [(_ & Hprep & -> & _)|(Hprep & Hnb & st2 & c2 & Er & Hres)].
  { rewrite Hprep in Hst. discriminate. }
  destruct Hres as [(Hko & -> & _)|(Hok & -> & -> & Hprint)]; [congruence|].
  match type of Er with
  | start_fragments _ _ _ _ ?c1' = _ => set (c1 := c1') in *
  end.
  assert (Hc1 : backend_exec_states_ c1 = repeat None (Z.to_nat nb)).
  { unfold c1, sized_for_backends, planned.
    cbn [backend_exec_states_ set_num_remaining_backends_ set_backend_exec_states_
         num_backends_].
    now rewrite Hstates, vector_resize_nil. }
  assert (Hpre : dispatched_prefix (backends env) (backend_exec_states_ c1) 0)
    by (rewrite Hc1; apply dispatched_prefix_new).
  destruct (start_fragments_success _ _ _ _ _ _ _ _ Hpre Er Hok)
    as (_ & (states2 & Hc2) & Hlen2 & Hfit & (Hbelow & Hnull) & Hcancel & Hout & Hin).
  cbn [Nat.add] in *.
  assert (Hparams : fragment_exec_params_ (set_progress_ c2 0) = params)
    by (rewrite Hc2; reflexivity).
  assert (Hn : n = total_instances
                     (skipn (if has_coordinator_fragment request then 1 else 0)%nat
                            params))
    by (unfold n, remote; now rewrite Hparams).
  rewrite <- Hn in *.
  rewrite Hc1, repeat_length in Hlen2, Hfit.
  (* [PrintBackendInfo] has found every exec state *)
  assert (Hall : length (backend_exec_states_ c2) = n).
  { destruct (Nat.eq_dec (length (backend_exec_states_ c2)) n) as [|Hne]; [assumption|].
    exfalso. assert (Hlt : (n < length (backend_exec_states_ c2))%nat) by lia.
    specialize (Hnull n (Nat.le_refl n) Hlt).
    unfold PrintBackendInfo in Hprint.
    destruct (forallb _ (backend_exec_states_ c2)) eqn:Ef; [|discriminate].
    rewrite forallb_forall in Ef.
    apply nth_error_In in Hnull. specialize (Ef _ Hnull). discriminate. }
  split; [reflexivity|].
  split; [rewrite Hparams, Hc2; exact Hp|].
  split; [reflexivity|].
  split; [rewrite Hc2; reflexivity|].
  split; [rewrite Hc2; cbn; lia|].
  split; [exact Hall|].
  split.
  { intros i Hi. destruct (Hbelow i Hi) as (es & He & (H1 & H2 & H3) & Hok').
    exists es. cbn [backend_exec_states_ set_progress_].
    split; [exact He|]. rewrite Hok' in H1.
    split; [exact H1|]. split; [exact H2|]. split; [auto|]. split; [exact Hok'|].
    destruct (start_fragments_instances _ _ _ _ _ _ _ _ Er Hok) as (_ & Hinst).
    unfold remote. rewrite Hparams.
    rewrite <- (Nat.sub_0_r i) at 1. apply Hinst; [lia | exact He]. }
  split; [exact Hcancel|].
  split.
  { intros i. split.
    - intros Hpos. destruct (le_lt_dec n i) as [Hge|Hlt]; [|exact Hlt].
      rewrite Hout in Hpos by lia. lia.
    - intros Hi. apply Hin. lia. }
  split; [rewrite Hc2; reflexivity | rewrite Hc2; reflexivity].
Qed.

(** X11. When the first fragment is unpartitioned and [Prepare] of the
    local executor fails, an [Exec] that returns returns that error before
    it starts any backend: no exec state is created and nothing is sent.
    The error is not made the query status, which stays as it was. *)
Theorem Exec_prepare_failure_starts_nothing
    (env : ExecEnv) (query_id : TUniqueId) (request : TQueryExecRequest)
    (c : Coordinator) (st : Status) (c' : Coordinator) (evs : list Event) :
  has_coordinator_fragment request = true ->
  ok (prepare_result (local_executor env)) = false ->
  Exec env query_id request c = Returned (st, c', evs) ->
  st = prepare_result (local_executor env) /\
  evs = [] /\
  backend_exec_states_ c' = backend_exec_states_ c /\
  num_remaining_backends_ c' = num_remaining_backends_ c /\
  query_status_ c' = query_status_ c /\
  executor_ c' = Some (local_executor env).
Proof.
  intros Hcoord Hprep Hrun.
  destruct (Exec_returned _ _ _ _ _ Hrun) as (params & nb & asg & Hp & Ha & Hstart).
  destruct (start_planned_returned _ _ _ _ _ _ _ _ _ Hstart)
    as [(_ & _ & -> & -> & ->)|(Hok & _)].
  - auto 10.
  - rewrite (Hok Hcoord) in Hprep. discriminate.
Qed.

(** X12. [Exec] sizes [backend_exec_states_] for all backends before it
    starts the first fragment and fills it fragment by fragment. When a
    dispatch fails in a fragment behind which another fragment is still to
    start, [CancelInternal] runs over the exec states, reaches the NULL
    entry of the first instance not yet set up and dereferences it: on a
    new coordinator, for a request that planning accepts with a host for
    every fragment, such an [Exec] does not return. *)
Theorem Exec_failure_before_last_fragment_is_invalid
    (env : ExecEnv) (query_id : TUniqueId) (request : TQueryExecRequest)
    (c : Coordinator) (params : list FragmentExecParams) (num_backends : Z)
    (asg : list FragmentScanRangeAssignment)
    (started : list FragmentExecParams) (failing : FragmentExecParams)
    (waiting : list FragmentExecParams) :
  backend_exec_states_ c = [] ->
  ok (query_status_ c) = true ->
  ComputeFragmentExecParams env query_id request
                            (fragment_exec_params_ c) (num_backends_ c)
  = Returned (params, num_backends) ->
  ComputeScanRangeAssignment_request request params = Returned asg ->
  (has_coordinator_fragment request = true ->
   ok (prepare_result (local_executor env)) = true) ->
  Forall (fun p => hosts p <> []) params ->
  skipn (if has_coordinator_fragment request then 1 else 0) params
  = started ++ failing :: waiting ->
  waiting <> [] ->
  num_backends = Z.of_nat (total_instances (started ++ failing :: waiting)) ->
  (forall j, (j < total_instances started)%nat ->
             ok (dispatch_status (backends env) j) = true) ->
  (exists j, (total_instances started <= j
              < total_instances started + length (hosts failing))%nat /\
             ok (dispatch_status (backends env) j) = false) ->
  Exec env query_id request c = InvalidAccess.
Proof.
  intros Hstates Hq Hp Ha Hprep Hhosts Hsplit Hwait Hnb Hoks Hfail.
  destruct (ComputeFragmentExecParams_spec _ _ _ _ _ _ _ Hp) as (Hne & Hlen & Hids).
  rewrite (Exec_planned _ _ _ _ _ _ _ Hp Ha).
  rewrite (start_planned_dispatches env query_id request c params num_backends
             Hne Hlen Hids Hhosts Hprep); [|lia].
  cbv zeta. rewrite Hsplit.
  set (k0 := if has_coordinator_fragment request then 1%nat else 0%nat) in *.
  match goal with
  | |- context [start_fragments _ _ _ _ ?c1'] => set (c1 := c1')
  end.
  assert (Hc1 : backend_exec_states_ c1
                = repeat None (total_instances (started ++ failing :: waiting))).
  { unfold c1, sized_for_backends, planned.
    cbn [backend_exec_states_ set_num_remaining_backends_ set_backend_exec_states_
         num_backends_].
    rewrite Hstates, vector_resize_nil, Hnb, Nat2Z.id. reflexivity. }
  assert (Hready : Forall (fun p => hosts p <> [] /\
                     (length (hosts p) <= length (instance_ids p))%nat)
                          (started ++ failing :: waiting)).
  { rewrite <- Hsplit. apply Forall_skipn.
    rewrite Forall_forall in *. intros p Hp'. split; auto. }
  rewrite (start_fragments_null (backends env) started k0 0 c1 failing waiting);
    [reflexivity | | | | | |].
  - rewrite Hc1. apply dispatched_prefix_new.
  - exact Hq.
  - apply Forall_app in Hready. destruct Hready as (Hr1 & Hr2).
    inversion Hr2 as [|? ? Hrf _]; subst.
    apply Forall_app. split; [exact Hr1 | constructor; [exact Hrf | constructor]].
  - intros j Hj. apply Hoks. lia.
  - destruct Hfail as (j & Hj & Hko). exists j. split; [lia | exact Hko].
  - rewrite Hc1, repeat_length, total_instances_app, total_instances_cons.
    apply Forall_app in Hready. destruct Hready as (_ & Hr2).
    inversion Hr2 as [|? ? _ Hr3]; subst.
    destruct waiting as [|w waiting]; [congruence|].
    inversion Hr3 as [|? ? (Hw & _) _]; subst.
    rewrite total_instances_cons.
    destruct (hosts w); [congruence | simpl; lia].
Qed.

End ExecTheorems.



(** The theorem at the select: two backends are started. *)
Lemma Exec_success_starts_every_instance_witness :
  exists c' evs,
    Exec (build := debug_build) select_env example_query_id exchange_request
         new_Coordinator
    = Returned (Status_OK, c', evs) /\
    num_remaining_backends_ c' = 2 /\
    length (backend_exec_states_ c') = 2%nat /\
    (0 < exec_rpcs 0 evs)%nat /\ (0 < exec_rpcs 1 evs)%nat /\ exec_rpcs 2 evs = O.
Proof.
  destruct (Exec (build := debug_build) select_env example_query_id exchange_request
                 new_Coordinator)
    as [[[st c'] evs]| | |] eqn:E; try (vm_compute in E; discriminate).
  assert (Hst : st = Status_OK) by (vm_compute in E; inversion E; reflexivity).
  subst st.
  destruct (Exec_success_starts_every_instance (build := debug_build)
              select_env example_query_id exchange_request new_Coordinator
              Status_OK c' evs eq_refl E eq_refl)
    as (_ & _ & _ & Hrem & Hnb & Hlen & _ & _ & Hrpcs & _).
  assert (Hn : total_instances (skipn 1 (fragment_exec_params_ c')) = 2%nat)
    by (vm_compute in E; inversion E; reflexivity).
  change (if has_coordinator_fragment exchange_request then 1%nat else 0%nat)
    with 1%nat in *.
  rewrite Hn in *.
  exists c', evs. split; [reflexivity|].
  split; [rewrite Hrem, Hnb; reflexivity|].
  split; [exact Hlen|].
  split; [apply Hrpcs; lia|].
  split; [apply Hrpcs; lia|].
  destruct (exec_rpcs 2 evs) eqn:E2; [reflexivity|].
  assert (H2 : (0 < exec_rpcs 2 evs)%nat) by lia.
  apply Hrpcs in H2. lia.
Defined.

(** The theorem at the select whose local executor cannot be prepared. *)
Lemma Exec_prepare_failure_starts_nothing_witness :
  exists c',
    Exec (build := debug_build) select_env_prepare_fails example_query_id
         exchange_request new_Coordinator
    = Returned (Status_msg "cannot open plan", c', []) /\
    backend_exec_states_ c' = [] /\ query_status_ c' = Status_OK.
Proof.
  destruct (Exec (build := debug_build) select_env_prepare_fails example_query_id
                 exchange_request new_Coordinator)
    as [[[st c'] evs]| | |] eqn:E; try (vm_compute in E; discriminate).
  destruct (Exec_prepare_failure_starts_nothing (build := debug_build)
              select_env_prepare_fails example_query_id exchange_request new_Coordinator
              st c' evs eq_refl eq_refl E)
    as (-> & -> & Hstates & _ & Hq & _).
  exists c'. split; [reflexivity|]. split; [exact Hstates | exact Hq].
Defined.

(** The theorem at the insert of two fragments on two hosts each, when the
    dispatch of the first instance of the first fragment fails, in a debug
    and in a release build. *)
Lemma Exec_failure_before_last_fragment_is_invalid_witness :
  Exec (build := debug_build) (cluster (backends_exec_fails 0) idle_executor)
       example_query_id two_fragment_request new_Coordinator = InvalidAccess /\
  Exec (build := release_build) (cluster (backends_exec_fails 0) idle_executor)
       example_query_id two_fragment_request new_Coordinator = InvalidAccess.
Proof.
  split.
  - apply (Exec_failure_before_last_fragment_is_invalid (build := debug_build)
             (cluster (backends_exec_fails 0) idle_executor) example_query_id
             two_fragment_request new_Coordinator
             two_fragment_params 4 two_fragment_assignment
             [] (nth 0 two_fragment_params new_FragmentExecParams)
             (skipn 1 two_fragment_params)).
    + reflexivity.
    + reflexivity.
    + vm_compute. reflexivity.
    + vm_compute. reflexivity.
    + intros _. reflexivity.
    + repeat constructor; discriminate.
    + reflexivity.
    + discriminate.
    + reflexivity.
    + intros j Hj. unfold total_instances in Hj. simpl in Hj. lia.
    + exists 0%nat. split; [vm_compute; lia | reflexivity].
  - apply (Exec_failure_before_last_fragment_is_invalid (build := release_build)
             (cluster (backends_exec_fails 0) idle_executor) example_query_id
             two_fragment_request new_Coordinator
             two_fragment_params 4 two_fragment_assignment
             [] (nth 0 two_fragment_params new_FragmentExecParams)
             (skipn 1 two_fragment_params)).
    + reflexivity.
    + reflexivity.
    + vm_compute. reflexivity.
    + vm_compute. reflexivity.
    + intros _. reflexivity.
    + repeat constructor; discriminate.
    + reflexivity.
    + discriminate.
    + reflexivity.
    + intros j Hj. unfold total_instances in Hj. simpl in Hj. lia.
    + exists 0%nat. split; [vm_compute; lia | reflexivity].
Defined.

(** ** The total split sizes of the instances *)

Lemma split_bytes_app l l' : split_bytes (l ++ l') = split_bytes l + split_bytes l'.
Proof. unfold split_bytes. induction l as [|p l IH]; simpl; [reflexivity | lia]. Qed.

Lemma split_bytes_Permutation l l' :
  Permutation l l' -> split_bytes l = split_bytes l'.
Proof.
  unfold split_bytes. induction 1; simpl; lia.
Qed.

Lemma split_bytes_nonneg l :
  Forall (fun p => 0 <= GetScanRangeLength (params_scan_range p)) l ->
  0 <= split_bytes l.
Proof. unfold split_bytes. induction 1; simpl; lia. Qed.

(** The inner loop of [ComputeTotalSplitSize] adds the bytes of the list
    when nothing overflows. *)
Lemma total_split_size_inner l : forall total,
  Forall (fun p => 0 <= GetScanRangeLength (params_scan_range p)) l ->
  0 <= total -> total + split_bytes l < 2 ^ 63 ->
  fold_left
    (fun total scan_range_params =>
       match hdfs_file_split (params_scan_range scan_range_params) with
       | None => total
       | Some split => wrap64 (total + split_length split)
       end) l total
  = total + split_bytes l.
Proof.
  induction l as [|p l IH]; intros total Hall H0 Hfit; simpl; [lia|].
  inversion Hall as [|? ? Hp Hrest]; subst.
  assert (Hl := split_bytes_nonneg l Hrest).
  unfold split_bytes in *. simpl in Hfit. unfold GetScanRangeLength in *.
  destruct (hdfs_file_split (params_scan_range p)) as [split|].
  - rewrite wrap64_small by lia. rewrite IH; [lia | exact Hrest | lia | lia].
  - rewrite IH; [lia | exact Hrest | lia | lia].
Qed.

Lemma ComputeTotalSplitSize_single node l :
  Forall (fun p => 0 <= GetScanRangeLength (params_scan_range p)) l ->
  split_bytes l < 2 ^ 63 ->
  ComputeTotalSplitSize [(node, l)] = split_bytes l.
Proof.
  intros Hall Hfit. unfold ComputeTotalSplitSize. simpl.
  rewrite total_split_size_inner; [lia | exact Hall | lia | lia].
Qed.

Section SplitSizeFacts.
Context {build : Build}.

Lemma assign_scan_range_shape node params abph asg r abph' asg' :
  assign_scan_range node params (abph, asg) r = Returned (abph', asg') ->
  exists e p,
    asg' = modify_or_insert hostport_eqb asg e []
             (fun scan_ranges =>
                modify_or_insert Z.eqb scan_ranges node [] (fun l => l ++ [p])).
Proof.
  unfold assign_scan_range.
  destruct (choose_loop abph (INT64_MAX, None, -1) (locations r))
    as [abph1 [[m data_host] vol]].
  destruct data_host as [data_host|]; [|discriminate].
  intros Hrun. apply DCHECK_passed in Hrun.
  match type of Hrun with
  | obind ?h _ = _ => destruct h as [e| | |]; simpl in Hrun; try discriminate
  end.
  inversion Hrun; subst. eauto.
Qed.

(** The per-node map of every host holds the one node the assignment is
    made for. *)
Lemma scan_range_loop_single_node node params ranges : forall abph asg abph' asg',
  Forall (fun entry => exists l, snd entry = [(node, l)]) asg ->
  scan_range_loop node params (abph, asg) ranges = Returned (abph', asg') ->
  Forall (fun entry => exists l, snd entry = [(node, l)]) asg'.
Proof.
  induction ranges as [|r ranges IH]; intros abph asg abph' asg' Hall Hrun;
    cbn [scan_range_loop] in Hrun.
  - inversion Hrun; subst. exact Hall.
  - destruct (assign_scan_range node params (abph, asg) r) as [[abph1 asg1]| | |] eqn:Ea;
      simpl in Hrun; try discriminate.
    apply (IH abph1 asg1 abph' asg'); [|exact Hrun].
    destruct (assign_scan_range_shape _ _ _ _ _ _ _ Ea) as (e & p & ->).
    clear - Hall. induction asg as [|[h sr] asg IHa]; cbn [modify_or_insert].
    + constructor; [|constructor]. simpl. rewrite ?Z.eqb_refl. eauto.
    + inversion Hall as [|? ? (l & Hl) Hrest]; subst. simpl in Hl. subst sr.
      destruct (hostport_eqb e h).
      * constructor; [|exact Hrest]. simpl. rewrite Z.eqb_refl. eauto.
      * constructor; [simpl; eauto | apply IHa; exact Hrest].
Qed.

(** X13. On an input the assignment code accepts, the total split sizes
    that [ComputeTotalSplitSize] computes from what
    [ComputeScanRangeAssignment] assigned to each execution host are not
    negative and add up to the bytes of the input: no byte of a file split
    is left out or counted for two instances. *)
Theorem total_split_sizes_add_up
    (node : PlanNodeId) (params : FragmentExecParams)
    (ranges : list TScanRangeLocations) :
  assignable params ranges ->
  exists asg,
    ComputeScanRangeAssignment node ranges params [] = Returned asg /\
    (forall entry, In entry asg -> 0 <= ComputeTotalSplitSize (snd entry)) /\
    fold_right (fun entry acc => ComputeTotalSplitSize (snd entry) + acc) 0 asg
    = total_length ranges.
Proof.
  intros [Hhost Hmapped Hrep Hlen Hfit].
  destruct (scan_range_loop_assigns node params ranges [] [] 0)
    as (abph & asg & out & bytes' & Hrun & _ & _ & Hmap & _ & Hperm & _); auto.
  { intros h. unfold bytes_of. simpl. lia. }
  exists asg. split.
  { unfold ComputeScanRangeAssignment.
    match goal with
    | |- obind ?run _ = _ =>
        replace run with (Returned (abph, asg)) by (symmetry; exact Hrun)
    end. reflexivity. }
  assert (Hsingle := scan_range_loop_single_node _ _ _ _ _ _ _ (Forall_nil _) Hrun).
  simpl in Hperm.
  (* the bytes held for the node over all hosts are the input's *)
  assert (Hout : Forall (fun p => 0 <= GetScanRangeLength (params_scan_range p))
                        (map snd out) /\
                 split_bytes (map snd out) = total_length ranges).
  { clear - Hmap Hlen. revert ranges Hmap Hlen.
    induction out as [|d out IH]; intros [|r ranges] Hmap Hlen; simpl in Hmap;
      try discriminate.
    - split; [constructor | reflexivity].
    - inversion Hmap as [[Hd Hrest]].
      destruct (IH ranges Hrest) as (Hall & Hsum).
      { intros r' Hr'. apply Hlen. now right. }
      split.
      + constructor; [|exact Hall]. rewrite Hd. apply Hlen. now left.
      + unfold split_bytes, total_length in *. simpl. rewrite Hd, Hsum. reflexivity. }
  destruct Hout as (Hnonneg & Hsum).
  assert (Hall : Forall (fun p => 0 <= GetScanRangeLength (params_scan_range p))
                        (all_assigned_ranges asg node)).
  { rewrite Forall_forall in *. intros p Hp. apply Hnonneg.
    eapply Permutation_in; [exact Hperm | exact Hp]. }
  assert (Htotal : split_bytes (all_assigned_ranges asg node) = total_length ranges)
    by (rewrite (split_bytes_Permutation _ _ Hperm); exact Hsum).
  unfold INT64_MAX in Hfit.
  assert (Hgen : split_bytes (all_assigned_ranges asg node) < 2 ^ 63 ->
                 (forall entry, In entry asg -> 0 <= ComputeTotalSplitSize (snd entry)) /\
                 fold_right (fun entry acc => ComputeTotalSplitSize (snd entry) + acc) 0 asg
                 = split_bytes (all_assigned_ranges asg node)).
  { clear - Hsingle Hall. unfold all_assigned_ranges in *.
    induction asg as [|[h sr] asg IH]; intros Hlt; simpl in *.
    - split; [intros ? [] | reflexivity].
    - inversion Hsingle as [|? ? (l & Hl) Hrest]. simpl in Hl. rewrite Hl in *.
      unfold ranges_under in *. simpl in *. rewrite Z.eqb_refl in *.
      apply Forall_app in Hall. destruct Hall as (Hnl & Hall').
      rewrite split_bytes_app in *.
      assert (Hb0 := split_bytes_nonneg l Hnl).
      assert (Hb1 := split_bytes_nonneg _ Hall').
      destruct (IH Hrest Hall') as (Hpos & Hsum'); [lia|].
      rewrite (ComputeTotalSplitSize_single node l Hnl) by lia.
      split.
      + intros entry [<-|Hin]; [|now apply Hpos].
        simpl. rewrite (ComputeTotalSplitSize_single node l Hnl) by lia. exact Hb0.
      + rewrite Hsum'. reflexivity. }
  destruct Hgen as (Hpos & Hadd); [lia|].
  split; [exact Hpos | now rewrite Hadd].
Qed.

End SplitSizeFacts.

(** The theorem at three 100-byte ranges replicated on two hosts. *)
Lemma total_split_sizes_add_up_witness :
  exists asg,
    ComputeScanRangeAssignment (build := release_build)
      5 replicated_ranges two_host_params [] = Returned asg /\
    fold_right (fun entry acc => ComputeTotalSplitSize (snd entry) + acc) 0 asg = 300.
Proof.
  destruct (total_split_sizes_add_up (build := release_build)
              5 two_host_params replicated_ranges replicated_ranges_assignable)
    as (asg & Hrun & _ & Hsum).
  exists asg. split; [exact Hrun | exact Hsum].
Defined.

(** ** Sets and maps with string keys *)

Lemma ascii_compare_lt_trans a b c :
  Ascii.compare a b = Lt -> Ascii.compare b c = Lt -> Ascii.compare a c = Lt.
Proof.
  unfold Ascii.compare. rewrite !N.compare_lt_iff. lia.
Qed.

Lemma ascii_compare_eq a b : Ascii.compare a b = Eq -> a = b.
Proof.
  unfold Ascii.compare. intros Hc. apply N.compare_eq in Hc.
  rewrite <- (Ascii.ascii_N_embedding a), <- (Ascii.ascii_N_embedding b).
  now rewrite Hc.
Qed.

Lemma string_compare_lt_trans a : forall b c,
  String.compare a b = Lt -> String.compare b c = Lt -> String.compare a c = Lt.
Proof.
  induction a as [|x a IH]; intros [|y b] [|z c]; simpl; try discriminate; auto.
  destruct (Ascii.compare x y) eqn:Exy; try discriminate.
  - apply ascii_compare_eq in Exy. subst y.
    destruct (Ascii.compare x z); try discriminate; auto. apply IH.
  - destruct (Ascii.compare y z) eqn:Eyz; try discriminate.
    + apply ascii_compare_eq in Eyz. subst z. now rewrite Exy.
    + now rewrite (ascii_compare_lt_trans _ _ _ Exy Eyz).
Qed.

Lemma string_compare_refl a : String.compare a a = Eq.
Proof.
  induction a as [|x a IH]; simpl; [reflexivity|].
  unfold Ascii.compare. now rewrite N.compare_refl.
Qed.

Lemma string_compare_gt a b : String.compare a b = Gt -> String.compare b a = Lt.
Proof. intros Hc. rewrite String.compare_antisym, Hc. reflexivity. Qed.

Lemma string_compare_lt_neq a b : String.compare a b = Lt -> a <> b.
Proof. intros Hc ->. rewrite string_compare_refl in Hc. discriminate. Qed.

Lemma sset_insert_sorted (s : list string) k :
  sset_sorted s -> sset_sorted (sset_insert s k).
Proof.
  induction s as [|k' s IH]; simpl.
  - intros _. split; [constructor | exact I].
  - intros (Hk' & Hs). destruct (String.compare k k') eqn:E; simpl.
    + auto.
    + split; [|auto]. constructor; [exact E|].
      rewrite Forall_forall in *. intros x Hx.
      eapply string_compare_lt_trans; [exact E | now apply Hk'].
    + split; [|now apply IH].
      rewrite Forall_forall in *. intros x Hx. apply sset_insert_In in Hx.
      destruct Hx as [->|Hx]; [now apply string_compare_gt | now apply Hk'].
Qed.

Lemma sset_sorted_NoDup (s : list string) : sset_sorted s -> NoDup s.
Proof.
  induction s as [|k s IH]; simpl; [constructor|].
  intros (Hk & Hs). constructor; [|now apply IH].
  intros Hin. rewrite Forall_forall in Hk.
  apply (string_compare_lt_neq k k); [now apply Hk | reflexivity].
Qed.

Section SmapFacts.
Context {V : Type}.





End SmapFacts.







(** ** [PrepareCatalogUpdate] *)

Lemma insert_keys_In (rows : PartitionRowCount) : forall (s : list string) p,
  In p (fold_left (fun s partition => sset_insert s (fst partition)) rows s) <->
  In p s \/ In p (map fst rows).
Proof.
  induction rows as [|[k n] rows IH]; intros s p; simpl.
  - tauto.
  - rewrite IH. split.
    + intros [Hin|Hin]; [|tauto]. apply sset_insert_In in Hin.
      destruct Hin as [->|Hin]; auto.
    + intros [Hin|[<-|Hin]]; [| |tauto]; left; apply sset_insert_mono; auto.
Qed.

Lemma insert_keys_sorted (rows : PartitionRowCount) : forall (s : list string),
  sset_sorted s ->
  sset_sorted (fold_left (fun s partition => sset_insert s (fst partition)) rows s).
Proof.
  induction rows as [|[k n] rows IH]; intros s Hs; simpl; [exact Hs|].
  apply IH. now apply sset_insert_sorted.
Qed.

Section CatalogUpdateFacts.
Context {build : Build}.

(** X15. Called after [Wait], [PrepareCatalogUpdate] returns with
    [created_partitions] holding the partitions it held before and the
    partitions the query has row counts for, and nothing else, each once
    when the set was in order before; it answers whether that set has an
    element. *)
Theorem PrepareCatalogUpdate_collects_partitions
    (c : Coordinator) (catalog_update : TCatalogUpdate) :
  has_called_wait_ c = true ->
  exists result updated,
    PrepareCatalogUpdate c catalog_update = Returned (result, updated) /\
    (forall p, In p (created_partitions updated) <->
               In p (created_partitions catalog_update) \/
               In p (map fst (partition_row_counts_ c))) /\
    (sset_sorted (created_partitions catalog_update) ->
     sset_sorted (created_partitions updated) /\ NoDup (created_partitions updated)) /\
    (result = false <->
     created_partitions catalog_update = [] /\ partition_row_counts_ c = []).
Proof.
  intros Hwait. unfold PrepareCatalogUpdate. rewrite Hwait, DCHECK_true.
  cbv zeta. eexists _, _. split; [reflexivity|]. cbn [created_partitions].
  set (created := fold_left (fun s partition => sset_insert s (fst partition))
                            (partition_row_counts_ c)
                            (created_partitions catalog_update)).
  assert (Hin : forall p, In p created <->
                          In p (created_partitions catalog_update) \/
                          In p (map fst (partition_row_counts_ c)))
    by (intros p; apply insert_keys_In).
  split; [exact Hin|]. split.
  - intros Hs. assert (Hs' : sset_sorted created) by (now apply insert_keys_sorted).
    split; [exact Hs' | now apply sset_sorted_NoDup].
  - split.
    + intros Hres. destruct created as [|p created'] eqn:Ec; [|discriminate].
      split.
      * destruct (created_partitions catalog_update) as [|q qs]; [reflexivity|].
        exfalso. apply (proj2 (Hin q)). left. now left.
      * destruct (partition_row_counts_ c) as [|q qs]; [reflexivity|].
        exfalso. apply (proj2 (Hin (fst q))). right. now left.
    + intros (Hc & Hr). unfold created. rewrite Hc, Hr. reflexivity.
Qed.

End CatalogUpdateFacts.

(** The theorem at the OVERWRITE insert of the unpartitioned table: the
    partition with the empty key is created. *)
Lemma PrepareCatalogUpdate_collects_partitions_witness :
  PrepareCatalogUpdate (build := debug_build) overwrite_coordinator
    {| created_partitions := [] |}
  = Returned (true, {| created_partitions := [""%string] |}).
Proof.
  destruct (PrepareCatalogUpdate_collects_partitions (build := debug_build)
              overwrite_coordinator {| created_partitions := [] |} eq_refl)
    as (result & updated & Hrun & _).
  rewrite Hrun. vm_compute in Hrun. inversion Hrun. reflexivity.
Defined.

(** ** Planning: the input fragment of an exchange node *)

Section PlanningFacts.
Context {build : Build}.
Variable INVALID : PlanNodeId.

Lemma find_input_fragment_spec request info fragment_idx exch_id :
  forall dests i r,
  Z.of_nat i + Z.of_nat (length dests) < 2 ^ 31 ->
  find_input_fragment INVALID request info fragment_idx exch_id i dests = Returned r ->
  (exists k,
      r = Z.of_nat (i + k) + 1 /\
      nth_error dests k = Some fragment_idx /\
      dest_node_id (fragment_sink info (S (i + k))) = exch_id /\
      (S (i + k) < length (fragments request))%nat /\
      forall k', (k' < k)%nat -> nth_error dests k' = Some fragment_idx ->
                 dest_node_id (fragment_sink info (S (i + k'))) <> exch_id)
  \/ (r = INVALID /\ NDEBUG = true /\
      forall k, nth_error dests k = Some fragment_idx ->
                dest_node_id (fragment_sink info (S (i + k))) <> exch_id).
Proof.
  induction dests as [|dest dests IH]; intros i r Hsmall Hrun; cbn [find_input_fragment] in Hrun.
  - right. unfold DCHECK in Hrun. rewrite orb_false_r in Hrun.
    destruct NDEBUG eqn:Hn; [|discriminate].
    inversion Hrun. repeat split; auto. intros [|k]; discriminate.
  - assert (Hshift : forall k, (S i + k)%nat = (i + S k)%nat) by (intros; lia).
    assert (Hrest : Z.of_nat (S i) + Z.of_nat (length dests) < 2 ^ 31)
      by (simpl length in Hsmall; lia).
    assert (Hskip :
      (dest <> fragment_idx \/ dest_node_id (fragment_sink info (S i)) <> exch_id) ->
      find_input_fragment INVALID request info fragment_idx exch_id (S i) dests
        = Returned r ->
      (exists k,
          r = Z.of_nat (i + k) + 1 /\
          nth_error (dest :: dests) k = Some fragment_idx /\
          dest_node_id (fragment_sink info (S (i + k))) = exch_id /\
          (S (i + k) < length (fragments request))%nat /\
          forall k', (k' < k)%nat -> nth_error (dest :: dests) k' = Some fragment_idx ->
                     dest_node_id (fragment_sink info (S (i + k'))) <> exch_id)
      \/ (r = INVALID /\ NDEBUG = true /\
          forall k, nth_error (dest :: dests) k = Some fragment_idx ->
                    dest_node_id (fragment_sink info (S (i + k))) <> exch_id)).
    { intros Hhere Hrun'.
      assert (Hfirst : nth_error (dest :: dests) 0 = Some fragment_idx ->
                       dest_node_id (fragment_sink info (S (i + 0))) <> exch_id).
      { simpl. intros Heq. rewrite Nat.add_0_r.
        destruct Hhere as [Hne|Hne]; [congruence | exact Hne]. }
      destruct (IH _ _ Hrest Hrun')
        as [(k & Hr & Hk & Hsink & Hlt & Hmin) | (Hr & Hn & Hnone)].
      - left. exists (S k). rewrite <- Hshift.
        repeat split; auto.
        intros [|k'] Hlt' Hnth; [auto|].
        rewrite <- Hshift. apply Hmin; [lia | exact Hnth].
      - right. repeat split; auto.
        intros [|k] Hnth; [auto|]. rewrite <- Hshift. apply Hnone. exact Hnth. }
    destruct (dest =? fragment_idx) eqn:Hd; cbn [negb] in Hrun.
    + apply Z.eqb_eq in Hd.
      destruct (nth_error (fragments request) (S i)) as [f|] eqn:Hf; [|discriminate].
      apply DCHECK_passed in Hrun. apply DCHECK_passed in Hrun.
      destruct (dest_node_id (fragment_sink info (S i)) =? exch_id) eqn:He.
      * apply Z.eqb_eq in He. left. exists 0%nat. rewrite Nat.add_0_r.
        inversion Hrun as [Hr]. rewrite wrap32_small by (simpl length in Hsmall; lia).
        repeat split; auto.
        -- simpl. now rewrite Hd.
        -- apply nth_error_Some. now rewrite Hf.
        -- intros k' Hk'. lia.
      * apply Z.eqb_neq in He. apply Hskip; auto.
    + apply Z.eqb_neq in Hd. apply Hskip; auto.
Qed.

(** X16. [FindLeftmostInputFragment] returns the invalid node
    id when the leftmost node of the fragment's plan is not an exchange
    node; otherwise it returns the index of the first fragment whose
    destination is this fragment and whose sink feeds that exchange node;
    only a release build returns the invalid id when there is no such
    fragment. *)
Theorem FindLeftmostInputFragment_first_sender fragment_idx request info r :
  Z.of_nat (length (dest_fragment_idx info)) < 2 ^ 31 ->
  FindLeftmostInputFragment INVALID fragment_idx request info = Returned r ->
  exists fragment,
    0 <= fragment_idx /\
    nth_error (fragments request) (Z.to_nat fragment_idx) = Some fragment /\
    let exch_id := FindLeftmostNode INVALID (plan fragment) [EXCHANGE_NODE] in
    (exch_id = INVALID /\ r = INVALID)
    \/ (exch_id <> INVALID /\
        ((exists i,
             r = Z.of_nat i + 1 /\
             (S i < length (fragments request))%nat /\
             nth_error (dest_fragment_idx info) i = Some fragment_idx /\
             dest_node_id (fragment_sink info (S i)) = exch_id /\
             forall i', (i' < i)%nat ->
               nth_error (dest_fragment_idx info) i' = Some fragment_idx ->
               dest_node_id (fragment_sink info (S i')) <> exch_id)
         \/ (r = INVALID /\ NDEBUG = true /\
             forall i, nth_error (dest_fragment_idx info) i = Some fragment_idx ->
                       dest_node_id (fragment_sink info (S i)) <> exch_id))).
Proof.
  intros Hsmall Hrun. unfold FindLeftmostInputFragment in Hrun.
  destruct (fragment_idx <? 0) eqn:Hneg; [discriminate|]. apply Z.ltb_ge in Hneg.
  destruct (nth_error (fragments request) (Z.to_nat fragment_idx)) as [fragment|] eqn:Hf;
    [|discriminate].
  exists fragment. split; [exact Hneg|]. split; [reflexivity|]. cbv zeta in *.
  destruct (FindLeftmostNode INVALID (plan fragment) [EXCHANGE_NODE] =? INVALID) eqn:He.
  - apply Z.eqb_eq in He. left. split; [exact He | congruence].
  - apply Z.eqb_neq in He. right. split; [exact He|].
    assert (Hzero : Z.of_nat 0 + Z.of_nat (length (dest_fragment_idx info)) < 2 ^ 31)
      by (change (Z.of_nat 0) with 0; lia).
    destruct (find_input_fragment_spec _ _ _ _ _ 0%nat _ Hzero Hrun)
      as [(k & Hr & Hk & Hsink & Hlt & Hmin) | (Hr & Hn & Hnone)].
    + left. exists k. simpl in *. repeat split; auto.
    + right. repeat split; auto.
Qed.

End PlanningFacts.

Lemma FindLeftmostInputFragment_first_sender_witness :
  exists fragment,
    0 <= 0 /\
    nth_error (fragments exchange_request) (Z.to_nat 0) = Some fragment /\
    let exch_id := FindLeftmostNode (-1) (plan fragment) [EXCHANGE_NODE] in
    (exch_id = -1 /\ 1 = -1)
    \/ (exch_id <> -1 /\
        ((exists i,
             1 = Z.of_nat i + 1 /\
             (S i < length (fragments exchange_request))%nat /\
             nth_error (dest_fragment_idx exchange_info) i = Some 0 /\
             dest_node_id (fragment_sink exchange_info (S i)) = exch_id /\
             forall i', (i' < i)%nat ->
               nth_error (dest_fragment_idx exchange_info) i' = Some 0 ->
               dest_node_id (fragment_sink exchange_info (S i')) <> exch_id)
         \/ (1 = -1 /\ @NDEBUG debug_build = true /\
             forall i, nth_error (dest_fragment_idx exchange_info) i = Some 0 ->
                       dest_node_id (fragment_sink exchange_info (S i)) <> exch_id))).
Proof.
  apply (@FindLeftmostInputFragment_first_sender debug_build (-1) 0
           exchange_request exchange_info 1).
  - vm_compute. reflexivity.
  - vm_compute. reflexivity.
Defined.

(** ** Planning: destinations and senders *)

Lemma wrap32_add_l a b : wrap32 (wrap32 a + b) = wrap32 (a + b).
Proof.
  unfold wrap32.
  replace ((a + 2 ^ 31) mod 2 ^ 32 - 2 ^ 31 + b + 2 ^ 31)
    with ((a + 2 ^ 31) mod 2 ^ 32 + b) by lia.
  rewrite Zplus_mod_idemp_l. f_equal. f_equal. lia.
Qed.

Lemma wrap32_range z : - 2 ^ 31 <= wrap32 z < 2 ^ 31.
Proof.
  unfold wrap32.
  assert (H : 0 <= (z + 2 ^ 31) mod 2 ^ 32 < 2 ^ 32) by (apply Z.mod_pos_bound; lia).
  lia.
Qed.

Lemma num_senders_repeat n dest exch_id : num_senders (repeat [] n) dest exch_id = 0.
Proof.
  unfold num_senders.
  assert (H : forall k, nth k (repeat (@nil (PlanNodeId * Z)) n) [] = []).
  { induction n as [|n IH]; intros [|k]; simpl; auto. }
  now rewrite H.
Qed.

Section DestinationFacts.
Context {build : Build}.

Lemma make_destinations_spec dest_params : forall remaining j destinations,
  make_destinations dest_params j remaining = Returned destinations ->
  length destinations = length remaining /\
  destinations =
    map (fun dest => {| dest_fragment_instance_id := fst dest; dest_server := snd dest |})
        (combine (skipn j (instance_ids dest_params)) remaining).
Proof.
  induction remaining as [|host remaining IH]; intros j destinations Hrun;
    cbn [make_destinations] in Hrun.
  - inversion Hrun. split; [reflexivity|]. now rewrite combine_nil.
  - destruct (nth_error (instance_ids dest_params) j) as [id|] eqn:Hid; [|discriminate].
    destruct (make_destinations dest_params (S j) remaining) as [ds| | |] eqn:Hrest;
      simpl in Hrun; try discriminate.
    inversion Hrun; subst destinations. destruct (IH _ _ Hrest) as (Hlen & Hds).
    split; [simpl; now rewrite Hlen|].
    assert (Hskip : skipn j (instance_ids dest_params)
                    = id :: skipn (S j) (instance_ids dest_params)).
    { clear - Hid. revert j Hid.
      induction (instance_ids dest_params) as [|x xs IHx]; intros [|j] Hid;
        simpl in *; try discriminate.
      - now inversion Hid.
      - now apply IHx. }
    rewrite Hskip. cbn [combine map fst snd]. f_equal. exact Hds.
Qed.

Lemma make_destinations_all dest_params destinations :
  make_destinations dest_params 0 (hosts dest_params) = Returned destinations ->
  destinations = destinations_of dest_params /\
  length destinations = length (hosts dest_params).
Proof.
  intros Hrun. destruct (make_destinations_spec _ _ _ _ Hrun) as (Hlen & Hds).
  split; [exact Hds | exact Hlen].
Qed.

Lemma num_senders_store senders k m senders' dest exch_id :
  vector_store senders k m = Returned senders' ->
  num_senders senders' dest exch_id =
  if Nat.eqb (Z.to_nat dest) k
  then match map_find Z.eqb m exch_id with Some n => n | None => 0 end
  else num_senders senders dest exch_id.
Proof.
  intros Hstore. destruct (vector_store_spec _ _ _ _ Hstore) as (Hlen & Hlt & Hnth).
  unfold num_senders.
  assert (Hn : forall j, nth j senders' [] = if Nat.eqb j k then m else nth j senders []).
  { intros j. specialize (Hnth j).
    destruct (Nat.eqb j k) eqn:Hj.
    - now apply nth_error_nth.
    - destruct (nth_error senders j) as [x|] eqn:Hx.
      + rewrite (nth_error_nth _ _ _ Hnth). symmetry. now apply nth_error_nth.
      + apply nth_error_None in Hnth. apply nth_error_None in Hx.
        rewrite !nth_overflow; auto. }
  rewrite Hn. now destruct (Nat.eqb (Z.to_nat dest) k).
Qed.

Lemma num_senders_add senders dest_idx dest_senders exch_id n senders' dest e :
  nth_error senders (Z.to_nat dest_idx) = Some dest_senders ->
  vector_store senders (Z.to_nat dest_idx)
    (modify_or_insert Z.eqb dest_senders exch_id 0 (fun x => wrap32 (x + n)))
    = Returned senders' ->
  num_senders senders' dest e =
  if Nat.eqb (Z.to_nat dest) (Z.to_nat dest_idx) && (e =? exch_id)
  then wrap32 (num_senders senders dest e + n)
  else num_senders senders dest e.
Proof.
  intros Hnth Hstore. rewrite (num_senders_store _ _ _ _ _ _ Hstore).
  destruct (Nat.eqb (Z.to_nat dest) (Z.to_nat dest_idx)) eqn:Hd; cbn [andb];
    [|reflexivity].
  apply Nat.eqb_eq in Hd. unfold num_senders. rewrite Hd.
  rewrite (nth_error_nth _ _ _ Hnth).
  rewrite (map_find_modify Z.eqb Z.eqb_eq).
  destruct (e =? exch_id) eqn:He; [|reflexivity].
  apply Z.eqb_eq in He. now subst e.
Qed.

(** The loop of [ComputeFragmentExecParams] from [i] on: what it adds to
    the sender counts and which destinations it stores. *)
Lemma compute_destinations_spec params request info :
  forall rest i senders dests senders' dests',
  (1 <= i)%nat ->
  (forall dest exch_id, - 2 ^ 31 <= num_senders senders dest exch_id < 2 ^ 31) ->
  compute_destinations params request info i rest senders dests
    = Returned (senders', dests') ->
  length senders' = length senders /\
  length dests' = length dests /\
  (forall dest exch_id, 0 <= dest ->
     num_senders senders' dest exch_id =
     wrap32 (num_senders senders dest exch_id + senders_from info i rest dest exch_id)) /\
  (forall k, (k < i)%nat \/ (i + length rest <= k)%nat ->
     nth_error dests' k = nth_error dests k) /\
  (forall k, (i <= k < i + length rest)%nat ->
     exists dest dest_params,
       nth_error (dest_fragment_idx info) (k - 1) = Some dest /\
       0 <= dest /\
       nth_error params (Z.to_nat dest) = Some dest_params /\
       nth_error dests' k = Some (destinations_of dest_params) /\
       length (destinations_of dest_params) = length (hosts dest_params)).
Proof.
  induction rest as [|p rest IH]; intros i senders dests senders' dests' Hi Hrange Hrun;
    cbn [compute_destinations] in Hrun.
  - inversion Hrun; subst. cbn [length senders_from].
    repeat split; auto.
    + intros dest exch_id _. rewrite Z.add_0_r. symmetry. now apply wrap32_small.
    + intros k Hk. lia.
  - destruct (nth_error (dest_fragment_idx info) (i - 1)) as [dest_idx|] eqn:Hdest;
      [|discriminate].
    apply DCHECK_passed in Hrun.
    destruct (dest_idx <? 0) eqn:Hneg; [discriminate|]. apply Z.ltb_ge in Hneg.
    destruct (nth_error params (Z.to_nat dest_idx)) as [dest_params|] eqn:Hdp;
      [|discriminate].
    destruct (nth_error senders (Z.to_nat dest_idx)) as [dest_senders|] eqn:Hds;
      [|discriminate].
    destruct (nth_error (fragments request) i) as [fragment|] eqn:Hf; [|discriminate].
    apply DCHECK_passed in Hrun. apply DCHECK_passed in Hrun. cbv zeta in Hrun.
    destruct (vector_store senders (Z.to_nat dest_idx) _) as [senders1| | |] eqn:Hs1;
      simpl in Hrun; try discriminate.
    destruct (make_destinations dest_params 0 (hosts dest_params)) as [ds| | |] eqn:Hmk;
      simpl in Hrun; try discriminate.
    destruct (vector_store dests i ds) as [dests1| | |] eqn:Hd1;
      simpl in Hrun; try discriminate.
    assert (Hrange1 : forall dest exch_id,
               - 2 ^ 31 <= num_senders senders1 dest exch_id < 2 ^ 31).
    { intros dest e. rewrite (num_senders_add _ _ _ _ _ _ dest e Hds Hs1).
      destruct (_ && _); [apply wrap32_range | apply Hrange]. }
    destruct (IH (S i) senders1 dests1 senders' dests' ltac:(lia) Hrange1 Hrun)
      as (Hlen_s & Hlen_d & Hcount & Hkeep & Hnew).
    destruct (vector_store_spec _ _ _ _ Hs1) as (Hl1 & _ & _).
    destruct (vector_store_spec _ _ _ _ Hd1) as (Hl2 & Hlt2 & Hnth2).
    destruct (make_destinations_all _ _ Hmk) as (Hdsof & Hdslen).
    split; [congruence|]. split; [congruence|]. split; [|split].
    + intros dest e Hnonneg. rewrite (Hcount dest e Hnonneg).
      rewrite (num_senders_add _ _ _ _ _ _ dest e Hds Hs1).
      cbn [senders_from]. rewrite (nth_error_nth _ _ _ Hdest).
      replace (Nat.eqb (Z.to_nat dest) (Z.to_nat dest_idx)) with (dest_idx =? dest).
      2:{ destruct (dest_idx =? dest) eqn:E.
          - apply Z.eqb_eq in E. subst. symmetry. apply Nat.eqb_refl.
          - apply Z.eqb_neq in E. symmetry. apply Nat.eqb_neq. lia. }
      rewrite (Z.eqb_sym e).
      destruct ((dest_idx =? dest) && (dest_node_id (fragment_sink info i) =? e)).
      * rewrite wrap32_add_l. f_equal. lia.
      * f_equal.
    + intros k Hk. rewrite Hkeep by (cbn [length] in Hk; lia).
      rewrite Hnth2. destruct (Nat.eqb k i) eqn:E; [|reflexivity].
      apply Nat.eqb_eq in E. cbn [length] in Hk. lia.
    + intros k Hk. cbn [length] in Hk.
      destruct (Nat.eq_dec k i) as [->|Hne].
      * exists dest_idx, dest_params. rewrite Hkeep by lia. rewrite Hnth2.
        rewrite Nat.eqb_refl. subst ds. repeat split; auto.
      * apply Hnew. lia.
Qed.

(** X17. The number of senders that a fragment expects at an
    exchange node after [ComputeFragmentExecParams] is the number of hosts
    of the fragments whose sink feeds that node, as a 32-bit sum. *)
Theorem num_senders_counts_sending_hosts params request info senders dests dest exch_id :
  ComputeDestinations params request info = Returned (senders, dests) ->
  0 <= dest ->
  num_senders senders dest exch_id
  = wrap32 (senders_from info 1 (skipn 1 params) dest exch_id).
Proof.
  intros Hrun Hdest. unfold ComputeDestinations in Hrun.
  apply compute_destinations_spec in Hrun.
  - destruct Hrun as (_ & _ & Hcount & _).
    rewrite (Hcount dest exch_id Hdest). now rewrite num_senders_repeat.
  - lia.
  - intros d e. rewrite num_senders_repeat. lia.
Qed.

(** X18. After [ComputeFragmentExecParams] the root fragment
    has no destination and every other fragment has one destination per
    host of the fragment it sends to, each with the id of the instance on
    that host. *)
Theorem destinations_are_the_instances_of_the_destination_fragment
    params request info senders dests :
  ComputeDestinations params request info = Returned (senders, dests) ->
  length dests = length params /\
  (params <> [] -> nth_error dests 0 = Some []) /\
  forall i, (1 <= i < length params)%nat ->
    exists dest dest_params,
      nth_error (dest_fragment_idx info) (i - 1) = Some dest /\
      0 <= dest /\
      nth_error params (Z.to_nat dest) = Some dest_params /\
      nth_error dests i = Some (destinations_of dest_params) /\
      length (destinations_of dest_params) = length (hosts dest_params).
Proof.
  intros Hrun. unfold ComputeDestinations in Hrun.
  apply compute_destinations_spec in Hrun.
  - destruct Hrun as (_ & Hlen & _ & Hkeep & Hnew).
    rewrite repeat_length in Hlen. split; [exact Hlen|]. split.
    + intros Hne. rewrite Hkeep by lia.
      destruct params as [|p ps]; [contradiction|]. reflexivity.
    + intros i Hi. apply Hnew. rewrite length_skipn. lia.
  - lia.
  - intros d e. rewrite num_senders_repeat. lia.
Qed.

End DestinationFacts.

Lemma num_senders_counts_sending_hosts_witness :
  num_senders [[(7, 2)]; []] 0 7
  = wrap32 (senders_from exchange_info 1 (skipn 1 exchange_params) 0 7).
Proof.
  apply (@num_senders_counts_sending_hosts debug_build exchange_params exchange_request
           exchange_info [[(7, 2)]; []]
           [[]; [ {| dest_fragment_instance_id := {| hi := 1; lo := 11 |};
                     dest_server := host_X |} ]] 0 7).
  - vm_compute. reflexivity.
  - lia.
Defined.

Lemma destinations_are_the_instances_of_the_destination_fragment_witness :
  let dests := [[]; [ {| dest_fragment_instance_id := {| hi := 1; lo := 11 |};
                         dest_server := host_X |} ]] in
  length dests = length exchange_params /\
  (exchange_params <> [] -> nth_error dests 0 = Some []) /\
  forall i, (1 <= i < length exchange_params)%nat ->
    exists dest dest_params,
      nth_error (dest_fragment_idx exchange_info) (i - 1) = Some dest /\
      0 <= dest /\
      nth_error exchange_params (Z.to_nat dest) = Some dest_params /\
      nth_error dests i = Some (destinations_of dest_params) /\
      length (destinations_of dest_params) = length (hosts dest_params).
Proof.
  apply (@destinations_are_the_instances_of_the_destination_fragment debug_build
           exchange_params exchange_request exchange_info [[(7, 2)]; []]).
  vm_compute. reflexivity.
Defined.
